(** * Metric plots over checkpoints of an additive ensemble

    A shallow embedding of [catboost/libs/algo/plot.cpp]
    ([TMetricsPlotCalcer]) and the properties of its checkpoint planner,
    metric classifier, approximation accumulator, snapshot store and score
    assembly. *)

From Stdlib Require Import ZArith Lia List Bool Permutation.
From Stdlib Require Import Floats.SpecFloat.
From stdpp Require Import base tactics option list gmap.

Local Open Scope Z_scope.

(** ** Numeric types *)

(** [ui32]: a value in [0, 2^32); arithmetic wraps around. *)
Definition wrap32 (z : Z) : Z := z mod 2 ^ 32.

(** Narrowing of a container size ([size_t]) to [ui32]. *)
Definition ui32_of_size (n : nat) : nat := Z.to_nat (wrap32 (Z.of_nat n)).

(** [double] and [float] are IEEE 754 binary64 and binary32 values, in the
    representation of the standard library's specification of floating-point
    arithmetic. *)
Abbreviation double := spec_float (only parsing).
Abbreviation float := spec_float (only parsing).

Definition dzero : double := S754_zero false.
Definition dadd (x y : double) : double := SFadd 53 1024 x y.

(** Implicit conversion [float] -> [double] (exact). *)
Definition double_of_float (f : float) : double :=
  match f with
  | S754_finite s m e => binary_round 53 1024 s m e
  | _ => f
  end.

(** [TVector<TVector<double>>], indexed [dimension][document]. *)
Abbreviation matrix := (list (list double)) (only parsing).

(** ** Outcomes *)

Inductive error : Type :=
| ConfigurationError   (* a failed CB_ENSURE *)
| ResourceError        (* a snapshot file that cannot be opened *)
| ConsistencyViolation (* a snapshot stream that ends too early *)
| UndefinedBehaviour.  (* unchecked out-of-range index, null stream *)

Inductive outcome (A : Type) : Type :=
| Ok (a : A)
| Fail (e : error).
Arguments Ok {A} a.
Arguments Fail {A} e.

#[export] Instance outcome_ret : MRet outcome := fun A a => Ok a.
#[export] Instance outcome_bind : MBind outcome := fun A B f m =>
  match m with
  | Ok a => f a
  | Fail e => Fail e
  end.

(** [v[i]] on a [TVector]: unchecked. *)
Definition at_ {A} (v : list A) (i : nat) : outcome A :=
  match v !! i with
  | Some x => Ok x
  | None => Fail UndefinedBehaviour
  end.

(** [v[i] = x] on a [TVector]. *)
Definition set_at {A} (v : list A) (i : nat) (x : A) : outcome (list A) :=
  match v !! i with
  | Some _ => Ok (<[i := x]> v)
  | None => Fail UndefinedBehaviour
  end.

(** A [for] loop over the elements of [l], threading the loop state. *)
Fixpoint for_each {A S} (l : list A) (body : S -> A -> outcome S) (s : S)
  : outcome S :=
  match l with
  | [] => Ok s
  | x :: l' => s' ← body s x; for_each l' body s'
  end.

(** [TVector::resize(n)]: keeps the first [n] elements, pads with [d]. *)
Definition resize {A} (n : nat) (d : A) (v : list A) : list A :=
  take n v ++ replicate (n - length v) d.

(** ** Checkpoint planner *)

(** The [for] loop of the constructor over [ui32 iteration]. The counter
    wraps around at 2^32, so the loop need not terminate: [fuel] bounds
    the number of tests of the loop condition. *)
Fixpoint IterationsLoop (fuel : nat) (Last Step iteration : Z)
  (Iterations : list Z) : option (list Z) :=
  match fuel with
  | O => None
  | S fuel' =>
      if iteration <? Last
      then IterationsLoop fuel' Last Step (wrap32 (iteration + Step))
             (Iterations ++ [iteration])
      else Some Iterations
  end.

(** [Iterations.back()]. *)
Definition back (v : list Z) : outcome Z :=
  match last v with
  | Some x => Ok x
  | None => Fail UndefinedBehaviour
  end.

Definition BuildIterations (fuel : nat) (First Last Step : Z)
  : option (outcome (list Z)) :=
  match IterationsLoop fuel Last Step First [] with
  | None => None
  | Some its =>
      Some (b ← back its;
            if negb (b =? wrap32 (Last - 1))
            then Ok (its ++ [wrap32 (Last - 1)])
            else Ok its)
  end.

(** Modelled from the spec: [EnsureCorrectParams] (declared in plot.h) fails
    with an invalid-range error if first >= last or step <= 0. *)
Definition EnsureCorrectParams (First Last Step : Z) : outcome unit :=
  if (First <? Last) && (0 <? Step) then Ok tt else Fail ConfigurationError.

(** ** Metrics, data and the calcer *)

Inductive EErrorType : Type := PerObjectError | PairwiseError | QuerywiseError.

Definition EErrorType_eqb (a b : EErrorType) : bool :=
  match a, b with
  | PerObjectError, PerObjectError
  | PairwiseError, PairwiseError
  | QuerywiseError, QuerywiseError => true
  | _, _ => false
  end.

(** Contents of a snapshot file, and of the unread rest of an input stream. *)
Abbreviation file := (list Byte.byte) (only parsing).

(** Conversion of a [ui32] and of a container size to [int]. *)
Definition int_of_ui32 (z : Z) : Z := (z + 2 ^ 31) mod 2 ^ 32 - 2 ^ 31.
Definition int_of_size (n : nat) : Z := int_of_ui32 (Z.of_nat n).

(** Calls of the Applier and the matrices handed on at the checkpoints, in
    the order in which they happen. *)
Inductive event : Type :=
| EvApply (part : nat) (begin_ end_ : Z)
    (* ApplyModelMulti on a dataset part over trees [begin_, end_) *)
| EvApprox (iterationIndex : nat) (approx : matrix).
    (* the running matrix of a checkpoint, routed to its consumer *)

(** A computation that may fail, with the events up to its end or failure. *)
Record traced (A : Type) : Type := Traced {
  trace : list event;
  result : outcome A
}.
Arguments Traced {A} trace result.
Arguments trace {A} t.
Arguments result {A} t.

#[export] Instance traced_ret : MRet traced := fun A a => Traced [] (Ok a).
#[export] Instance traced_bind : MBind traced := fun A B f m =>
  match result m with
  | Ok a => Traced (trace m ++ trace (f a)) (result (f a))
  | Fail e => Traced (trace m) (Fail e)
  end.

Definition emit (e : event) : traced unit := Traced [e] (Ok tt).
Definition lift {A} (o : outcome A) : traced A := Traced [] o.

Fixpoint for_each_traced {A S} (l : list A) (body : S -> A -> traced S) (s : S)
  : traced S :=
  match l with
  | [] => mret s
  | x :: l' => s' ← body s x; for_each_traced l' body s'
  end.

(** ** A serialization of [TVector<double>]

    A stand-in for [::Save] / [::Load] of util/ysaveload.h on a vector of
    doubles: the element count as a little-endian 32-bit word, then the
    IEEE 754 binary64 image of every element, little-endian. *)

Definition byte_of_Z (z : Z) : Byte.byte :=
  default Byte.x00 (Byte.of_N (Z.to_N (z mod 256))).

Definition Z_of_byte (b : Byte.byte) : Z := Z.of_N (Byte.to_N b).

Fixpoint le_bytes (n : nat) (z : Z) : list Byte.byte :=
  match n with
  | O => []
  | S n' => byte_of_Z z :: le_bytes n' (z / 256)
  end.

Fixpoint le_value (bytes : list Byte.byte) : Z :=
  match bytes with
  | [] => 0
  | b :: rest => Z_of_byte b + 256 * le_value rest
  end.

(** Sign, biased exponent and fraction fields of a binary64 image. *)
Definition join_bits (s : bool) (e m : Z) : Z :=
  (if s then 2 ^ 63 else 0) + e * 2 ^ 52 + m.

Definition bits_of_double (x : double) : Z :=
  match x with
  | S754_zero s => join_bits s 0 0
  | S754_infinity s => join_bits s 2047 0
  | S754_nan => join_bits false 2047 (2 ^ 51)
  | S754_finite s m e =>
      if 2 ^ 52 <=? Z.pos m
      then join_bits s (e + 1075) (Z.pos m - 2 ^ 52)
      else join_bits s 0 (Z.pos m)
  end.

Definition double_of_bits (z : Z) : double :=
  let s := 2 ^ 63 <=? z in
  let e := (z / 2 ^ 52) mod 2 ^ 11 in
  let m := z mod 2 ^ 52 in
  if e =? 0 then
    match m with
    | Z.pos p => S754_finite s p (-1074)
    | _ => S754_zero s
    end
  else if e =? 2047 then
    if m =? 0 then S754_infinity s else S754_nan
  else
    match m + 2 ^ 52 with
    | Z.pos p => S754_finite s p (e - 1075)
    | _ => S754_nan
    end.

Definition save_line (line : list double) : list Byte.byte :=
  le_bytes 4 (Z.of_nat (length line))
  ++ flat_map (fun x => le_bytes 8 (bits_of_double x)) line.

Fixpoint read_doubles (n : nat) (input : list Byte.byte)
  : option (list double * list Byte.byte) :=
  match n with
  | O => Some ([], input)
  | S n' =>
      if (length input <? 8)%nat then None
      else
        match read_doubles n' (drop 8 input) with
        | Some (values, rest) =>
            Some (double_of_bits (le_value (take 8 input)) :: values, rest)
        | None => None
        end
  end.

Definition load_line (input : list Byte.byte)
  : option (list double * list Byte.byte) :=
  if (length input <? 4)%nat then None
  else read_doubles (Z.to_nat (le_value (take 4 input))) (drop 4 input).

Section Calcer.

(** The collaborators that plot.cpp uses but does not define. *)

(** [TMetricHolder]: default construction and [a.Add(b)]. *)
Variable TMetricHolder : Type.
Variable holder_default : TMetricHolder.
Variable holder_Add : TMetricHolder -> TMetricHolder -> TMetricHolder.

Variable TQueryInfo : Type.

(** A document of [ObjectsData]. *)
Variable TObject : Type.

(** [Model.ObliviousTrees.ApproxDimension], and [TModelCalcerOnPool] for
    [Model]: [ApplyModelMulti objects begin end] is the raw formula value of
    the trees [begin, end) on the documents, as written to the output
    buffer. *)
Variable ApproxDimension : nat.
Variable ApplyModelMulti : list TObject -> Z -> Z -> matrix.

(** [::Save(&out, line)] and [::Load(input, line)] of util/ysaveload.h for a
    [TVector<double>]: the bytes written, and the vector read with the rest
    of the stream ([None]: the stream ends too early). *)
Variable SaveLine : list double -> file.
Variable LoadLine : file -> option (list double * file).

Record IMetric : Type := {
  IsAdditiveMetric : bool;
  GetErrorType : EErrorType;
  Eval : matrix -> list float -> list float -> list TQueryInfo -> Z -> Z
         -> TMetricHolder;
  GetFinalError : TMetricHolder -> double
}.

Record TProcessedDataProvider : Type := {
  ObjectsData : list TObject;
  GetTarget : list float;
  GetWeights : list float;
  GetBaseline : list (list float);
  GetGroupInfo : list TQueryInfo
}.

(** [ObjectsData->GetObjectCount()], a [ui32]. *)
Definition GetObjectCount (p : TProcessedDataProvider) : nat :=
  length (ObjectsData p).

(** A snapshot path is generated from a fresh GUID and the checkpoint slot
    ("<guid>_approx_<slot>.tmp" under the scratch directory), so paths of
    different slots differ; a path is identified with its slot. *)
Abbreviation path := nat (only parsing).

Record TNonAdditiveMetricsData : Type := {
  ApproxFiles : list (option path);   (* [None]: the empty string *)
  Target : list float;
  Weights : list float
}.

(** The scratch directory as this calcer sees it. *)
Record TScratch : Type := {
  TmpDirExists : bool;
  Files : gmap path file
}.

Record TMetricsPlotCalcer : Type := {
  First : Z;
  Last : Z;
  Step : Z;
  Iterations : list Z;
  AdditiveMetrics : list IMetric;
  AdditiveMetricsIndices : list nat;
  NonAdditiveMetrics : list IMetric;
  NonAdditiveMetricsIndices : list nat;
  AdditiveMetricPlots : list (list TMetricHolder);
  NonAdditiveMetricPlots : list (list TMetricHolder);
  ProcessedIterationsCount : Z;
  ProcessedIterationsStep : Z;
  CurApproxBuffer : matrix;
  NextApproxBuffer : matrix;
  NonAdditiveMetricsData : TNonAdditiveMetricsData;
  LastApproxes : option file;         (* [None]: a null holder *)
  DeleteTmpDirOnExitFlag : bool;
  Scratch : TScratch
}.

(** Assignment to one member. *)
Definition set_AdditiveMetricPlots (v : list (list TMetricHolder))
  (c : TMetricsPlotCalcer) : TMetricsPlotCalcer :=
  {| First := First c; Last := Last c; Step := Step c; Iterations :=
  Iterations c; AdditiveMetrics := AdditiveMetrics c; AdditiveMetricsIndices
  := AdditiveMetricsIndices c; NonAdditiveMetrics := NonAdditiveMetrics c;
  NonAdditiveMetricsIndices := NonAdditiveMetricsIndices c;
  AdditiveMetricPlots := v; NonAdditiveMetricPlots := NonAdditiveMetricPlots
  c; ProcessedIterationsCount := ProcessedIterationsCount c;
  ProcessedIterationsStep := ProcessedIterationsStep c; CurApproxBuffer :=
  CurApproxBuffer c; NextApproxBuffer := NextApproxBuffer c;
  NonAdditiveMetricsData := NonAdditiveMetricsData c; LastApproxes :=
  LastApproxes c; DeleteTmpDirOnExitFlag := DeleteTmpDirOnExitFlag c; Scratch
  := Scratch c |}.

Definition set_NonAdditiveMetricPlots (v : list (list TMetricHolder))
  (c : TMetricsPlotCalcer) : TMetricsPlotCalcer :=
  {| First := First c; Last := Last c; Step := Step c; Iterations :=
  Iterations c; AdditiveMetrics := AdditiveMetrics c; AdditiveMetricsIndices
  := AdditiveMetricsIndices c; NonAdditiveMetrics := NonAdditiveMetrics c;
  NonAdditiveMetricsIndices := NonAdditiveMetricsIndices c;
  AdditiveMetricPlots := AdditiveMetricPlots c; NonAdditiveMetricPlots := v;
  ProcessedIterationsCount := ProcessedIterationsCount c;
  ProcessedIterationsStep := ProcessedIterationsStep c; CurApproxBuffer :=
  CurApproxBuffer c; NextApproxBuffer := NextApproxBuffer c;
  NonAdditiveMetricsData := NonAdditiveMetricsData c; LastApproxes :=
  LastApproxes c; DeleteTmpDirOnExitFlag := DeleteTmpDirOnExitFlag c; Scratch
  := Scratch c |}.

Definition set_ProcessedIterationsCount (v : Z)
  (c : TMetricsPlotCalcer) : TMetricsPlotCalcer :=
  {| First := First c; Last := Last c; Step := Step c; Iterations :=
  Iterations c; AdditiveMetrics := AdditiveMetrics c; AdditiveMetricsIndices
  := AdditiveMetricsIndices c; NonAdditiveMetrics := NonAdditiveMetrics c;
  NonAdditiveMetricsIndices := NonAdditiveMetricsIndices c;
  AdditiveMetricPlots := AdditiveMetricPlots c; NonAdditiveMetricPlots :=
  NonAdditiveMetricPlots c; ProcessedIterationsCount := v;
  ProcessedIterationsStep := ProcessedIterationsStep c; CurApproxBuffer :=
  CurApproxBuffer c; NextApproxBuffer := NextApproxBuffer c;
  NonAdditiveMetricsData := NonAdditiveMetricsData c; LastApproxes :=
  LastApproxes c; DeleteTmpDirOnExitFlag := DeleteTmpDirOnExitFlag c; Scratch
  := Scratch c |}.

Definition set_CurApproxBuffer (v : matrix)
  (c : TMetricsPlotCalcer) : TMetricsPlotCalcer :=
  {| First := First c; Last := Last c; Step := Step c; Iterations :=
  Iterations c; AdditiveMetrics := AdditiveMetrics c; AdditiveMetricsIndices
  := AdditiveMetricsIndices c; NonAdditiveMetrics := NonAdditiveMetrics c;
  NonAdditiveMetricsIndices := NonAdditiveMetricsIndices c;
  AdditiveMetricPlots := AdditiveMetricPlots c; NonAdditiveMetricPlots :=
  NonAdditiveMetricPlots c; ProcessedIterationsCount :=
  ProcessedIterationsCount c; ProcessedIterationsStep :=
  ProcessedIterationsStep c; CurApproxBuffer := v; NextApproxBuffer :=
  NextApproxBuffer c; NonAdditiveMetricsData := NonAdditiveMetricsData c;
  LastApproxes := LastApproxes c; DeleteTmpDirOnExitFlag :=
  DeleteTmpDirOnExitFlag c; Scratch := Scratch c |}.

Definition set_NextApproxBuffer (v : matrix)
  (c : TMetricsPlotCalcer) : TMetricsPlotCalcer :=
  {| First := First c; Last := Last c; Step := Step c; Iterations :=
  Iterations c; AdditiveMetrics := AdditiveMetrics c; AdditiveMetricsIndices
  := AdditiveMetricsIndices c; NonAdditiveMetrics := NonAdditiveMetrics c;
  NonAdditiveMetricsIndices := NonAdditiveMetricsIndices c;
  AdditiveMetricPlots := AdditiveMetricPlots c; NonAdditiveMetricPlots :=
  NonAdditiveMetricPlots c; ProcessedIterationsCount :=
  ProcessedIterationsCount c; ProcessedIterationsStep :=
  ProcessedIterationsStep c; CurApproxBuffer := CurApproxBuffer c;
  NextApproxBuffer := v; NonAdditiveMetricsData := NonAdditiveMetricsData c;
  LastApproxes := LastApproxes c; DeleteTmpDirOnExitFlag :=
  DeleteTmpDirOnExitFlag c; Scratch := Scratch c |}.

Definition set_NonAdditiveMetricsData (v : TNonAdditiveMetricsData)
  (c : TMetricsPlotCalcer) : TMetricsPlotCalcer :=
  {| First := First c; Last := Last c; Step := Step c; Iterations :=
  Iterations c; AdditiveMetrics := AdditiveMetrics c; AdditiveMetricsIndices
  := AdditiveMetricsIndices c; NonAdditiveMetrics := NonAdditiveMetrics c;
  NonAdditiveMetricsIndices := NonAdditiveMetricsIndices c;
  AdditiveMetricPlots := AdditiveMetricPlots c; NonAdditiveMetricPlots :=
  NonAdditiveMetricPlots c; ProcessedIterationsCount :=
  ProcessedIterationsCount c; ProcessedIterationsStep :=
  ProcessedIterationsStep c; CurApproxBuffer := CurApproxBuffer c;
  NextApproxBuffer := NextApproxBuffer c; NonAdditiveMetricsData := v;
  LastApproxes := LastApproxes c; DeleteTmpDirOnExitFlag :=
  DeleteTmpDirOnExitFlag c; Scratch := Scratch c |}.

Definition set_LastApproxes (v : option file)
  (c : TMetricsPlotCalcer) : TMetricsPlotCalcer :=
  {| First := First c; Last := Last c; Step := Step c; Iterations :=
  Iterations c; AdditiveMetrics := AdditiveMetrics c; AdditiveMetricsIndices
  := AdditiveMetricsIndices c; NonAdditiveMetrics := NonAdditiveMetrics c;
  NonAdditiveMetricsIndices := NonAdditiveMetricsIndices c;
  AdditiveMetricPlots := AdditiveMetricPlots c; NonAdditiveMetricPlots :=
  NonAdditiveMetricPlots c; ProcessedIterationsCount :=
  ProcessedIterationsCount c; ProcessedIterationsStep :=
  ProcessedIterationsStep c; CurApproxBuffer := CurApproxBuffer c;
  NextApproxBuffer := NextApproxBuffer c; NonAdditiveMetricsData :=
  NonAdditiveMetricsData c; LastApproxes := v; DeleteTmpDirOnExitFlag :=
  DeleteTmpDirOnExitFlag c; Scratch := Scratch c |}.

Definition set_DeleteTmpDirOnExitFlag (v : bool)
  (c : TMetricsPlotCalcer) : TMetricsPlotCalcer :=
  {| First := First c; Last := Last c; Step := Step c; Iterations :=
  Iterations c; AdditiveMetrics := AdditiveMetrics c; AdditiveMetricsIndices
  := AdditiveMetricsIndices c; NonAdditiveMetrics := NonAdditiveMetrics c;
  NonAdditiveMetricsIndices := NonAdditiveMetricsIndices c;
  AdditiveMetricPlots := AdditiveMetricPlots c; NonAdditiveMetricPlots :=
  NonAdditiveMetricPlots c; ProcessedIterationsCount :=
  ProcessedIterationsCount c; ProcessedIterationsStep :=
  ProcessedIterationsStep c; CurApproxBuffer := CurApproxBuffer c;
  NextApproxBuffer := NextApproxBuffer c; NonAdditiveMetricsData :=
  NonAdditiveMetricsData c; LastApproxes := LastApproxes c;
  DeleteTmpDirOnExitFlag := v; Scratch := Scratch c |}.

Definition set_Scratch (v : TScratch)
  (c : TMetricsPlotCalcer) : TMetricsPlotCalcer :=
  {| First := First c; Last := Last c; Step := Step c; Iterations :=
  Iterations c; AdditiveMetrics := AdditiveMetrics c; AdditiveMetricsIndices
  := AdditiveMetricsIndices c; NonAdditiveMetrics := NonAdditiveMetrics c;
  NonAdditiveMetricsIndices := NonAdditiveMetricsIndices c;
  AdditiveMetricPlots := AdditiveMetricPlots c; NonAdditiveMetricPlots :=
  NonAdditiveMetricPlots c; ProcessedIterationsCount :=
  ProcessedIterationsCount c; ProcessedIterationsStep :=
  ProcessedIterationsStep c; CurApproxBuffer := CurApproxBuffer c;
  NextApproxBuffer := NextApproxBuffer c; NonAdditiveMetricsData :=
  NonAdditiveMetricsData c; LastApproxes := LastApproxes c;
  DeleteTmpDirOnExitFlag := DeleteTmpDirOnExitFlag c; Scratch := v |}.

(** ** Approximation accumulator *)

Definition empty {A} (v : list A) : bool :=
  match v with [] => true | _ => false end.

Definition GetDocCount (datasetParts : list TProcessedDataProvider) : nat :=
  fold_left (fun answer datasetPart =>
               ui32_of_size (answer + GetObjectCount datasetPart))
            datasetParts 0%nat.

(** The CB_ENSURE loop of [InitApproxBuffer] over the parts after part 0. *)
Definition EnsureSameBaseline (hasBaseline : bool)
  (rest : list TProcessedDataProvider) : outcome unit :=
  for_each rest
    (fun _ datasetPart =>
       if eqb (negb (empty (GetBaseline datasetPart))) hasBaseline
       then Ok tt else Fail ConfigurationError) tt.

(** [InitApproxBuffer]; the debug-only [Y_ASSERT] is not part of the
    behaviour. *)
Definition InitApproxBuffer (approxDimension : nat)
  (datasetParts : list TProcessedDataProvider) (initBaselineIfAvailable : bool)
  (approxMatrix : matrix) : outcome matrix :=
  let approxMatrix := resize approxDimension [] approxMatrix in
  match datasetParts with
  | [] => Ok approxMatrix
  | part0 :: rest =>
      hasBaseline ←
        (if initBaselineIfAvailable
         then let hasBaseline := negb (empty (GetBaseline part0)) in
              _ ← EnsureSameBaseline hasBaseline rest; Ok hasBaseline
         else Ok false);
      let docCount := GetDocCount datasetParts in
      for_each (seq 0 approxDimension)
        (fun approxMatrix approxIdx =>
           approx ← at_ approxMatrix approxIdx;
           approx' ←
             (if hasBaseline : bool
              then for_each datasetParts
                     (fun approx datasetPart =>
                        baselinePart ← at_ (GetBaseline datasetPart) approxIdx;
                        Ok (approx ++ map double_of_float baselinePart))
                     approx
              else Ok (resize docCount dzero approx));
           set_at approxMatrix approxIdx approx')
        approxMatrix
  end.

Definition ClearApproxBuffer (approxMatrix : matrix) : matrix :=
  map (fun _ => []) approxMatrix.

(** [Append]: the parallel loop writes one cell per document index, so it is
    the sequential loop. *)
Definition Append (approx dst : matrix) (dstStartDoc : nat) : outcome matrix :=
  row0 ← at_ approx 0;
  let docCount := ui32_of_size (length row0) in
  for_each (seq 0 (length approx))
    (fun dst dim =>
       for_each (seq 0 docCount)
         (fun dst i =>
            arow ← at_ approx dim;
            v ← at_ arow i;
            drow ← at_ dst dim;
            x ← at_ drow (dstStartDoc + i);
            drow' ← set_at drow (dstStartDoc + i) (dadd x v);
            set_at dst dim drow')
         dst)
    dst.

(** The static [Load]: reads [docCount] lines from the stream. *)
Definition Load (docCount : nat) (input : file) (output : matrix)
  : outcome (matrix * file) :=
  for_each (seq 0 docCount)
    (fun '(output, input) i =>
       match LoadLine input with
       | None => Fail ConsistencyViolation
       | Some (line, input') =>
           output' ←
             for_each (seq 0 (length output))
               (fun output dim =>
                  v ← at_ line dim;
                  row ← at_ output dim;
                  row' ← set_at row i v;
                  set_at output dim row')
               output;
           Ok (output', input')
       end)
    (output, input).

(** ** Snapshot store *)

Definition set_ApproxFiles (v : list (option path))
  (d : TNonAdditiveMetricsData) : TNonAdditiveMetricsData :=
  {| ApproxFiles := v; Target := Target d; Weights := Weights d |}.

Definition set_Files (v : gmap path file) (s : TScratch) : TScratch :=
  {| TmpDirExists := TmpDirExists s; Files := v |}.

(** [GetApproxFileName]: returns the path and the calcer after the call. A
    freshly named path holds no file (an existing one is removed).
    [plotSize] is a [ui32]: at slot 2^32 - 1 it wraps around to 0, the
    vector is not resized and is then indexed unchecked. *)
Definition GetApproxFileName (plotLineIndex : nat) (c : TMetricsPlotCalcer)
  : outcome (path * TMetricsPlotCalcer) :=
  let data := NonAdditiveMetricsData c in
  let plotSize := ui32_of_size (plotLineIndex + 1) in
  let files :=
    if (length (ApproxFiles data) <? plotSize)%nat
    then resize plotSize None (ApproxFiles data)
    else ApproxFiles data in
  name ← at_ files plotLineIndex;
  match name with
  | Some p => Ok (p, set_NonAdditiveMetricsData (set_ApproxFiles files data) c)
  | None =>
      let c :=
        if TmpDirExists (Scratch c) then c
        else set_DeleteTmpDirOnExitFlag true
               (set_Scratch {| TmpDirExists := true;
                               Files := Files (Scratch c) |} c) in
      let p : path := plotLineIndex in
      let c := set_Scratch (set_Files (delete p (Files (Scratch c)))
                              (Scratch c)) c in
      files' ← set_at files plotLineIndex (Some p);
      Ok (p, set_NonAdditiveMetricsData (set_ApproxFiles files' data) c)
  end.

(** [SaveApproxToFile]: the file is opened for appending and created when
    missing. *)
Definition SaveApproxToFile (plotLineIndex : nat) (approx : matrix)
  (c : TMetricsPlotCalcer) : outcome TMetricsPlotCalcer :=
  '(fileName, c) ← GetApproxFileName plotLineIndex c;
  row0 ← at_ approx 0;
  let docCount := ui32_of_size (length row0) in
  let out := default [] (Files (Scratch c) !! fileName) in
  let line := replicate (length approx) dzero in
  '(out, _) ←
    for_each (seq 0 docCount)
      (fun '(out, line) i =>
         line ←
           for_each (seq 0 (length approx))
             (fun line dim =>
                row ← at_ approx dim;
                v ← at_ row i;
                set_at line dim v)
             line;
         Ok (out ++ SaveLine line, line))
      (out, line);
  Ok (set_Scratch (set_Files (<[fileName := out]> (Files (Scratch c)))
                     (Scratch c)) c).

Definition LoadApprox (plotLineIndex : nat) (c : TMetricsPlotCalcer)
  : outcome (matrix * TMetricsPlotCalcer) :=
  '(fileName, c) ← GetApproxFileName plotLineIndex c;
  match Files (Scratch c) !! fileName with
  | None => Fail ResourceError
  | Some input =>
      let docCount := ui32_of_size (length (Target (NonAdditiveMetricsData c))) in
      let result := replicate ApproxDimension (replicate docCount dzero) in
      '(result, _) ← Load docCount input result;
      Ok (result, c)
  end.

Definition DeleteApprox (plotLineIndex : nat) (c : TMetricsPlotCalcer)
  : outcome TMetricsPlotCalcer :=
  '(fileName, c) ← GetApproxFileName plotLineIndex c;
  Ok (set_Scratch (set_Files (delete fileName (Files (Scratch c)))
                     (Scratch c)) c).

(** ** Metric evaluators *)

Definition ComputeAdditiveMetric (approx : matrix) (target weights : list float)
  (queriesInfo : list TQueryInfo) (plotLineIndex : nat)
  (c : TMetricsPlotCalcer) : outcome TMetricsPlotCalcer :=
  for_each (seq 0 (length (AdditiveMetrics c)))
    (fun c metricId =>
       metric ← at_ (AdditiveMetrics c) metricId;
       let docCount := int_of_size (length target) in
       let queryCount := int_of_size (length queriesInfo) in
       metricResult ←
         (if EErrorType_eqb (GetErrorType metric) PerObjectError
          then Ok (Eval metric approx target weights queriesInfo 0 docCount)
          else
            if EErrorType_eqb (GetErrorType metric) QuerywiseError
               || EErrorType_eqb (GetErrorType metric) PairwiseError
            then Ok (Eval metric approx target weights queriesInfo 0 queryCount)
            else Fail ConfigurationError);
       plot ← at_ (AdditiveMetricPlots c) metricId;
       holder ← at_ plot plotLineIndex;
       plot' ← set_at plot plotLineIndex (holder_Add holder metricResult);
       plots' ← set_at (AdditiveMetricPlots c) metricId plot';
       Ok (set_AdditiveMetricPlots plots' c))
    c.

(** The loop over the non-additive metrics at one checkpoint slot: the cell
    is assigned, not merged. *)
Definition EvalNonAdditiveMetrics (approx : matrix) (target weights : list float)
  (idx : nat) (c : TMetricsPlotCalcer) : outcome TMetricsPlotCalcer :=
  for_each (seq 0 (length (NonAdditiveMetrics c)))
    (fun c metricId =>
       metric ← at_ (NonAdditiveMetrics c) metricId;
       plot ← at_ (NonAdditiveMetricPlots c) metricId;
       plot' ← set_at plot idx
                 (Eval metric approx target weights [] 0
                    (int_of_size (length target)));
       plots' ← set_at (NonAdditiveMetricPlots c) metricId plot';
       Ok (set_NonAdditiveMetricPlots plots' c))
    c.

(** [ComputeNonAdditiveMetrics(ui32 begin, ui32 end)]. *)
Definition ComputeNonAdditiveMetrics (begin_ end_ : nat)
  (c : TMetricsPlotCalcer) : outcome TMetricsPlotCalcer :=
  for_each (seq begin_ (end_ - begin_))
    (fun c idx =>
       '(approx, c) ← LoadApprox idx c;
       c ← EvalNonAdditiveMetrics approx
             (Target (NonAdditiveMetricsData c))
             (Weights (NonAdditiveMetricsData c)) idx c;
       if negb (idx =? 0)%nat then DeleteApprox (idx - 1) c else Ok c)
    c.

(** ** Orchestrator *)

Definition ProceedDataSet (processedData : TProcessedDataProvider)
  (beginIterationIndex endIterationIndex : nat) (isAdditiveMetrics : bool)
  (c : TMetricsPlotCalcer) : traced TMetricsPlotCalcer :=
  let docCount := GetObjectCount processedData in
  cur ← lift (InitApproxBuffer ApproxDimension [processedData]
                (beginIterationIndex =? 0)%nat (CurApproxBuffer c));
  let c := set_CurApproxBuffer cur c in
  '(begin_, c) ←
    lift (if (beginIterationIndex =? 0)%nat then Ok (0, c)
          else
            begin_ ← at_ (Iterations c) beginIterationIndex;
            match LastApproxes c with
            | None =>
                (* a null stream is read only when there is a document *)
                if (docCount =? 0)%nat then Ok (begin_, c)
                else Fail UndefinedBehaviour
            | Some input =>
                '(cur, input) ← Load docCount input (CurApproxBuffer c);
                Ok (begin_,
                    set_LastApproxes (Some input) (set_CurApproxBuffer cur c))
            end);
  let target := GetTarget processedData in
  let weights := GetWeights processedData in
  let groupInfos := GetGroupInfo processedData in
  '(_, c) ←
    for_each_traced
      (seq beginIterationIndex (endIterationIndex - beginIterationIndex))
      (fun '(begin_, c) iterationIndex =>
         iteration ← lift (at_ (Iterations c) iterationIndex);
         let end_ := wrap32 (iteration + 1) in
         _ ← emit (EvApply 0 begin_ end_);
         let c := set_NextApproxBuffer
                    (ApplyModelMulti (ObjectsData processedData) begin_ end_) c in
         cur ← lift (Append (NextApproxBuffer c) (CurApproxBuffer c) 0);
         let c := set_CurApproxBuffer cur c in
         _ ← emit (EvApprox iterationIndex (CurApproxBuffer c));
         c ← lift (if isAdditiveMetrics
                   then ComputeAdditiveMetric (CurApproxBuffer c) target weights
                          groupInfos iterationIndex c
                   else SaveApproxToFile iterationIndex (CurApproxBuffer c) c);
         mret (end_, c))
      (begin_, c);
  mret (set_NextApproxBuffer (ClearApproxBuffer (NextApproxBuffer c))
          (set_CurApproxBuffer (ClearApproxBuffer (CurApproxBuffer c)) c)).

Definition ProceedDataSetForAdditiveMetrics
  (processedData : TProcessedDataProvider) (c : TMetricsPlotCalcer)
  : traced TMetricsPlotCalcer :=
  ProceedDataSet processedData 0 (length (Iterations c)) true c.

Definition set_Target_Weights (t w : list float)
  (d : TNonAdditiveMetricsData) : TNonAdditiveMetricsData :=
  {| ApproxFiles := ApproxFiles d; Target := t; Weights := w |}.

(** The window of checkpoint slots that starts at the processed count. *)
Definition WindowEnd (c : TMetricsPlotCalcer) : Z :=
  Z.min (wrap32 (ProcessedIterationsCount c + ProcessedIterationsStep c))
        (wrap32 (Z.of_nat (length (Iterations c)))).

Definition ProceedDataSetForNonAdditiveMetrics
  (processedData : TProcessedDataProvider) (c : TMetricsPlotCalcer)
  : traced TMetricsPlotCalcer :=
  let c :=
    if ProcessedIterationsCount c =? 0
    then
      let data := NonAdditiveMetricsData c in
      set_NonAdditiveMetricsData
        (set_Target_Weights (Target data ++ GetTarget processedData)
           (Weights data ++ GetWeights processedData) data) c
    else c in
  let begin_ := ProcessedIterationsCount c in
  let end_ := WindowEnd c in
  ProceedDataSet processedData (Z.to_nat begin_) (Z.to_nat end_) false c.

(** Modelled from the spec: [AreAllIterationsProcessed] (declared in plot.h)
    tells whether the window just finished was the last one. *)
Definition AreAllIterationsProcessed (c : TMetricsPlotCalcer) : bool :=
  ProcessedIterationsCount c =? wrap32 (Z.of_nat (length (Iterations c))).

Definition FinishProceedDataSetForNonAdditiveMetrics (c : TMetricsPlotCalcer)
  : outcome TMetricsPlotCalcer :=
  let begin_ := ProcessedIterationsCount c in
  let end_ := WindowEnd c in
  c ← ComputeNonAdditiveMetrics (Z.to_nat begin_) (Z.to_nat end_) c;
  let c := set_ProcessedIterationsCount end_ c in
  let lastSlot := Z.to_nat (wrap32 (end_ - 1)) in
  if AreAllIterationsProcessed c
  then DeleteApprox lastSlot c
  else
    '(fileName, c) ← GetApproxFileName lastSlot c;
    match Files (Scratch c) !! fileName with
    | None => Fail ResourceError
    | Some input => Ok (set_LastApproxes (Some input) c)
    end.

Definition BuildTargets (datasetParts : list TProcessedDataProvider)
  : list float := concat (map GetTarget datasetParts).

Definition BuildWeights (datasetParts : list TProcessedDataProvider)
  : list float := concat (map GetWeights datasetParts).

Definition GetStartDocIdx (datasetParts : list TProcessedDataProvider)
  : list nat :=
  fst (fold_left
         (fun '(result, start) datasetPart =>
            (result ++ [start],
             ui32_of_size (start + GetObjectCount datasetPart)))
         datasetParts ([], 0%nat)).

(** [ComputeNonAdditiveMetrics(const TVector<TProcessedDataProvider>&)]: the
    path for a dataset given as several parts. *)
Definition ComputeNonAdditiveMetricsOnParts
  (datasetParts : list TProcessedDataProvider) (c : TMetricsPlotCalcer)
  : traced TMetricsPlotCalcer :=
  let allTargets := BuildTargets datasetParts in
  let allWeights := BuildWeights datasetParts in
  curApprox ← lift (InitApproxBuffer ApproxDimension datasetParts true []);
  let startDocIdx := GetStartDocIdx datasetParts in
  '(_, _, c) ←
    for_each_traced (seq 0 (length (Iterations c)))
      (fun '(begin_, curApprox, c) iterationIndex =>
         iteration ← lift (at_ (Iterations c) iterationIndex);
         let end_ := int_of_ui32 (wrap32 (iteration + 1)) in
         '(curApprox, c) ←
           for_each_traced (seq 0 (length datasetParts))
             (fun '(curApprox, c) poolPartIdx =>
                datasetPart ← lift (at_ datasetParts poolPartIdx);
                _ ← emit (EvApply poolPartIdx begin_ end_);
                let c := set_NextApproxBuffer
                           (ApplyModelMulti (ObjectsData datasetPart)
                              begin_ end_) c in
                start ← lift (at_ startDocIdx poolPartIdx);
                curApprox ← lift (Append (NextApproxBuffer c) curApprox start);
                mret (curApprox, c))
             (curApprox, c);
         _ ← emit (EvApprox iterationIndex curApprox);
         c ← lift (EvalNonAdditiveMetrics curApprox allTargets allWeights
                     iterationIndex c);
         mret (end_, curApprox, c))
      (0, curApprox, c);
  mret c.

(** ** Score assembly *)

Definition PutScores (metrics : list IMetric) (indices : list nat)
  (plots : list (list TMetricHolder)) (i : nat) (metricsScore : matrix)
  : outcome matrix :=
  for_each (seq 0 (length metrics))
    (fun metricsScore metricId =>
       metric ← at_ metrics metricId;
       plot ← at_ plots metricId;
       holder ← at_ plot i;
       slot ← at_ indices metricId;
       row ← at_ metricsScore slot;
       row' ← set_at row i (GetFinalError metric holder);
       set_at metricsScore slot row')
    metricsScore.

Definition GetMetricsScore (c : TMetricsPlotCalcer) : outcome matrix :=
  let metricsScore :=
    replicate (length (AdditiveMetrics c) + length (NonAdditiveMetrics c))
      (replicate (length (Iterations c)) dzero) in
  for_each (seq 0 (length (Iterations c)))
    (fun metricsScore i =>
       metricsScore ← PutScores (AdditiveMetrics c) (AdditiveMetricsIndices c)
                        (AdditiveMetricPlots c) i metricsScore;
       PutScores (NonAdditiveMetrics c) (NonAdditiveMetricsIndices c)
         (NonAdditiveMetricPlots c) i metricsScore)
    metricsScore.

(** ** Construction *)

(** The body of the classification loop of the constructor; the state is the
    four vectors [AdditiveMetrics], [AdditiveMetricsIndices],
    [NonAdditiveMetrics] and [NonAdditiveMetricsIndices]. *)
Definition ClassifyStep (metrics : list IMetric)
  (groups : list IMetric * list nat * list IMetric * list nat)
  (metricIndex : nat)
  : outcome (list IMetric * list nat * list IMetric * list nat) :=
  let '(additive, additiveIndices, nonAdditive, nonAdditiveIndices) := groups in
  metric ← at_ metrics metricIndex;
  if IsAdditiveMetric metric
  then Ok (additive ++ [metric], additiveIndices ++ [metricIndex],
           nonAdditive, nonAdditiveIndices)
  else
    if EErrorType_eqb (GetErrorType metric) PerObjectError
    then Ok (additive, additiveIndices,
             nonAdditive ++ [metric], nonAdditiveIndices ++ [metricIndex])
    else Fail ConfigurationError.

Definition ClassifyMetrics (metrics : list IMetric)
  : outcome (list IMetric * list nat * list IMetric * list nat) :=
  for_each (seq 0 (length metrics)) (ClassifyStep metrics) ([], [], [], []).

(** The constructor. [tmpDirExists] tells whether the scratch directory
    exists beforehand; [None] stands for a checkpoint loop that is still
    running after [fuel] tests of its condition. *)
Definition MakeCalcer (fuel : nat) (metrics : list IMetric)
  (tmpDirExists : bool) (first last step processIterationStep : Z)
  : option (outcome TMetricsPlotCalcer) :=
  match EnsureCorrectParams first last step with
  | Fail e => Some (Fail e)
  | Ok _ =>
      match BuildIterations fuel first last step with
      | None => None
      | Some iterations =>
          Some (
            iterations ← iterations;
            '(additive, additiveIndices, nonAdditive, nonAdditiveIndices) ←
              ClassifyMetrics metrics;
            Ok {| First := first; Last := last; Step := step;
                  Iterations := iterations;
                  AdditiveMetrics := additive;
                  AdditiveMetricsIndices := additiveIndices;
                  NonAdditiveMetrics := nonAdditive;
                  NonAdditiveMetricsIndices := nonAdditiveIndices;
                  AdditiveMetricPlots :=
                    replicate (length additive)
                      (replicate (length iterations) holder_default);
                  NonAdditiveMetricPlots :=
                    replicate (length nonAdditive)
                      (replicate (length iterations) holder_default);
                  ProcessedIterationsCount := 0;
                  ProcessedIterationsStep := processIterationStep;
                  CurApproxBuffer := [];
                  NextApproxBuffer := [];
                  NonAdditiveMetricsData :=
                    {| ApproxFiles := []; Target := []; Weights := [] |};
                  LastApproxes := None;
                  DeleteTmpDirOnExitFlag := false;
                  Scratch := {| TmpDirExists := tmpDirExists; Files := ∅ |}
               |})
      end
  end.

(** [CreateMetricCalcer], after its check of the metrics against the loss
    function of the model (CheckMetrics, of the metrics library): the [int]
    arguments are clamped by [treeCount], the tree count of the model, and
    passed to the constructor as [ui32]. *)
Definition CreateMetricCalcer (fuel : nat) (treeCount begin_ end_ evalPeriod
  processedIterationsStep : Z) (tmpDirExists : bool) (metrics : list IMetric)
  : option (outcome TMetricsPlotCalcer) :=
  let end_ := if end_ =? 0 then treeCount else Z.min end_ treeCount in
  let evalPeriod :=
    if evalPeriod >? end_ - begin_ then end_ - begin_ else evalPeriod in
  MakeCalcer fuel metrics tmpDirExists (wrap32 begin_) (wrap32 end_)
    (wrap32 evalPeriod) (wrap32 processedIterationsStep).

(** ** Operations of the calcer, as a caller issues them *)

Inductive operation : Type :=
| OpProceedDataSetForAdditiveMetrics (processedData : TProcessedDataProvider)
| OpProceedDataSetForNonAdditiveMetrics (processedData : TProcessedDataProvider)
| OpFinishProceedDataSetForNonAdditiveMetrics
| OpComputeNonAdditiveMetrics (datasetParts : list TProcessedDataProvider).

Definition perform (c : TMetricsPlotCalcer) (op : operation)
  : traced TMetricsPlotCalcer :=
  match op with
  | OpProceedDataSetForAdditiveMetrics d =>
      ProceedDataSetForAdditiveMetrics d c
  | OpProceedDataSetForNonAdditiveMetrics d =>
      ProceedDataSetForNonAdditiveMetrics d c
  | OpFinishProceedDataSetForNonAdditiveMetrics =>
      lift (FinishProceedDataSetForNonAdditiveMetrics c)
  | OpComputeNonAdditiveMetrics parts =>
      ComputeNonAdditiveMetricsOnParts parts c
  end.

Definition perform_all (ops : list operation) (c : TMetricsPlotCalcer)
  : traced TMetricsPlotCalcer :=
  for_each_traced ops perform c.

(** ** The checkpoint list in the words of the specification *)

(** [first, first + step, first + 2 * step, ...], [n] values. *)
Definition stepped (first step : Z) (n : nat) : list Z :=
  map (fun k => first + Z.of_nat k * step) (seq 0 n).

(** The number of values [first + k * step] below [last]. *)
Definition stepped_count (first last_ step : Z) : nat :=
  Z.to_nat ((last_ - first + step - 1) / step).

(** The stepped values below [last_], closed by [last_ - 1] when the run does
    not end there. *)
Definition planned_checkpoints (first last_ step : Z) : list Z :=
  let run := stepped first step (stepped_count first last_ step) in
  if decide (last run = Some (last_ - 1)) then run else run ++ [last_ - 1].

(** The loop counter stays below 2^32 up to the value that ends the loop. *)
Definition counter_fits (first last_ step : Z) : Prop :=
  first + Z.of_nat (stepped_count first last_ step) * step < 2 ^ 32.

(** Later entries are larger. *)
Definition strictly_increasing (l : list Z) : Prop :=
  forall i j x y, (i < j)%nat -> l !! i = Some x -> l !! j = Some y -> x < y.

(** ** The metric groups in the words of the specification *)

(** A metric that the constructor accepts. *)
Definition supported (metric : IMetric) : bool :=
  IsAdditiveMetric metric || EErrorType_eqb (GetErrorType metric) PerObjectError.

(** The metric belongs to the non-additive group. *)
Definition NonAdditive (metric : IMetric) : bool :=
  negb (IsAdditiveMetric metric).

(** The slots, counted from [k], of the metrics that satisfy [p]. *)
Fixpoint slots_from (k : nat) (p : IMetric -> bool) (metrics : list IMetric)
  : list nat :=
  match metrics with
  | [] => []
  | metric :: rest =>
      if p metric then k :: slots_from (S k) p rest
      else slots_from (S k) p rest
  end.

(** The cell of a table of rows. *)
Definition cell {A} (table : list (list A)) (row col : nat) : option A :=
  table !! row ≫= (fun r => r !! col).

(** The finalized accumulator of the metric [j] of a group at column [i]. *)
Definition finalized (metrics : list IMetric)
  (plots : list (list TMetricHolder)) (j i : nat) : option double :=
  metric ← metrics !! j;
  holder ← cell plots j i;
  Some (GetFinalError metric holder).

(** The shape of the plot tables that the constructor establishes. *)
Definition plots_shaped (c : TMetricsPlotCalcer) : Prop :=
  map length (AdditiveMetricPlots c)
  = replicate (length (AdditiveMetrics c)) (length (Iterations c))
  /\ map length (NonAdditiveMetricPlots c)
     = replicate (length (NonAdditiveMetrics c)) (length (Iterations c)).

(** The two groups hold the supplied metrics, each at its original slot. *)
Definition grouped (metrics : list IMetric) (c : TMetricsPlotCalcer) : Prop :=
  AdditiveMetrics c = List.filter IsAdditiveMetric metrics
  /\ AdditiveMetricsIndices c = slots_from 0 IsAdditiveMetric metrics
  /\ NonAdditiveMetrics c = List.filter NonAdditive metrics
  /\ NonAdditiveMetricsIndices c = slots_from 0 NonAdditive metrics.

(** ** Matrices in the words of the specification *)

(** A matrix of [dim] rows and [n] columns. *)
Definition shaped (dim n : nat) (m : matrix) : Prop :=
  map length m = replicate dim n.

(** Element-wise sum of a matrix and a delta of the same shape. *)
Definition madd (cur delta : matrix) : matrix :=
  zip_with (zip_with dadd) cur delta.

Definition zero_matrix (dim n : nat) : matrix :=
  replicate dim (replicate n dzero).

(** The part comes with a baseline. *)
Definition has_baseline (p : TProcessedDataProvider) : bool :=
  negb (empty (GetBaseline p)).

(** Row [r] of the concatenated baselines of the parts. *)
Definition seeded_row (parts : list TProcessedDataProvider) (r : nat)
  : list double :=
  flat_map (fun p => map double_of_float (default [] (GetBaseline p !! r)))
    parts.

(** The matrix seeded with the concatenated baselines, and the zero matrix. *)
Definition baseline_matrix (dim : nat) (parts : list TProcessedDataProvider)
  : matrix := map (seeded_row parts) (seq 0 dim).

(** A baseline, when present, has one row per approximation dimension. *)
Definition baseline_rows (dim : nat) (p : TProcessedDataProvider) : Prop :=
  has_baseline p = true -> length (GetBaseline p) = dim.

(** The matrices of the parts side by side: row [r] is the concatenation of
    the rows [r]. *)
Definition hcat (dim : nat) (ms : list matrix) : matrix :=
  map (fun r => flat_map (fun m => default [] (m !! r)) ms) (seq 0 dim).

(** ** A pass over a chunk in the words of the specification *)

(** The computation ran to its end. *)
Definition succeeded {A} (t : traced A) : bool :=
  match result t with
  | Ok _ => true
  | Fail _ => false
  end.

(** The tree ranges of the Applier calls of a trace. *)
Definition applier_calls (t : list event) : list (Z * Z) :=
  flat_map (fun ev => match ev with
                      | EvApply _ b e => [(b, e)]
                      | EvApprox _ _ => []
                      end) t.

(** The matrices handed on at the checkpoints of a trace. *)
Definition checkpoint_matrices (t : list event) : list (nat * matrix) :=
  flat_map (fun ev => match ev with
                      | EvApply _ _ _ => []
                      | EvApprox i m => [(i, m)]
                      end) t.

(** The trees [b, b + 1, ..., e - 1] of a half-open range. *)
Definition trees (b e : Z) : list Z :=
  map (fun i => b + Z.of_nat i) (seq 0 (Z.to_nat (e - b))).

(** The tree range of the Applier call at checkpoint slot [k], for a pass
    that starts at slot 0. *)
Definition range_begin (its : list Z) (k : nat) : Z :=
  match k with
  | O => 0
  | S k' => wrap32 (nth k' its 0 + 1)
  end.

Definition range_end (its : list Z) (k : nat) : Z := wrap32 (nth k its 0 + 1).

(** The tree ranges with the previous checkpoint's ensemble size itself as
    the lower end. *)
Definition ranges_from_previous_checkpoint (its : list Z) (n : nat)
  : list (Z * Z) :=
  map (fun k => (match k with
                 | O => 0
                 | S k' => nth k' its 0
                 end, nth k its 0 + 1)) (seq 0 n).

(** The running matrix after [k] checkpoints of such a pass. *)
Fixpoint running (objects : list TObject) (its : list Z) (init : matrix)
  (k : nat) : matrix :=
  match k with
  | O => init
  | S k' =>
      madd (running objects its init k')
        (ApplyModelMulti objects (range_begin its k') (range_end its k'))
  end.

(** The events of the first [n] checkpoints of such a pass. *)
Definition pass_events (objects : list TObject) (its : list Z) (init : matrix)
  (n : nat) : list event :=
  flat_map (fun k => [EvApply 0 (range_begin its k) (range_end its k);
                      EvApprox k (running objects its init (S k))])
    (seq 0 n).

(** The matrix a pass from slot 0 over one chunk starts from. *)
Definition initial_matrix (d : TProcessedDataProvider) : matrix :=
  if has_baseline d then baseline_matrix ApproxDimension [d]
  else zero_matrix ApproxDimension (GetObjectCount d).

(** What a pass needs of a chunk and of the Applier on it. *)
Record chunk_ok (d : TProcessedDataProvider) : Prop := {
  ok_count : Z.of_nat (GetObjectCount d) < 2 ^ 32;
  ok_baseline :
    has_baseline d = true ->
    map length (GetBaseline d) = replicate ApproxDimension (GetObjectCount d);
  ok_apply : forall b e,
    shaped ApproxDimension (GetObjectCount d)
      (ApplyModelMulti (ObjectsData d) b e)
}.

(** The call of [Eval] that [ComputeAdditiveMetric] makes for one metric. *)
Definition metric_eval (metric : IMetric) (approx : matrix)
  (target weights : list float) (queriesInfo : list TQueryInfo)
  : TMetricHolder :=
  if EErrorType_eqb (GetErrorType metric) PerObjectError
  then Eval metric approx target weights queriesInfo 0
         (int_of_size (length target))
  else Eval metric approx target weights queriesInfo 0
         (int_of_size (length queriesInfo)).

(** ** Snapshots in the words of the specification *)

(** A value of the C++ type [double]. *)
Definition is_double (x : double) : Prop := valid_binary 53 1024 x = true.

(** The collaborator [::Save] / [::Load] is lossless on vectors of doubles
    whose size fits an [int]. *)
Definition codec_lossless : Prop :=
  forall line rest,
    Forall is_double line -> Z.of_nat (length line) < 2 ^ 31 ->
    LoadLine (SaveLine line ++ rest) = Some (line, rest).

(** The row of document [i] across the output dimensions. *)
Definition document_line (approx : matrix) (i : nat) : list double :=
  map (fun row => default dzero (row !! i)) approx.

(** The snapshot of a matrix of [n] documents, document by document. *)
Definition serialized (approx : matrix) (n : nat) : file :=
  flat_map (fun i => SaveLine (document_line approx i)) (seq 0 n).

(** Slot [idx] has no snapshot file yet. *)
Definition snapshot_unnamed (idx : nat) (c : TMetricsPlotCalcer) : Prop :=
  forall p, ApproxFiles (NonAdditiveMetricsData c) !! idx <> Some (Some p).

(** ** Partitions of a dataset in the words of the specification *)

(** The chunk [whole] is the dataset whose parts are [parts], in order. *)
Record partition_of (whole : TProcessedDataProvider)
  (parts : list TProcessedDataProvider) : Prop := {
  po_objects : ObjectsData whole = flat_map ObjectsData parts;
  po_target : GetTarget whole = flat_map GetTarget parts;
  po_weights : GetWeights whole = flat_map GetWeights parts;
  po_has_baseline :
    Forall (fun p => has_baseline p = has_baseline whole) parts;
  po_baseline : forall r,
    default [] (GetBaseline whole !! r)
    = flat_map (fun p => default [] (GetBaseline p !! r)) parts
}.

(** The Applier works document by document: on the whole dataset it gives
    the deltas of the parts side by side. *)
Definition applier_by_document (whole : TProcessedDataProvider)
  (parts : list TProcessedDataProvider) : Prop :=
  forall b e,
    ApplyModelMulti (ObjectsData whole) b e
    = hcat ApproxDimension
        (map (fun p => ApplyModelMulti (ObjectsData p) b e) parts).

(** The evaluation of a metric on a chunk, given the predictions. *)
Definition chunk_eval (metric : IMetric) (approx : matrix)
  (d : TProcessedDataProvider) : TMetricHolder :=
  metric_eval metric approx (GetTarget d) (GetWeights d) (GetGroupInfo d).

(** A metric is additive over a partition: its evaluation on the whole
    dataset is the merge of its evaluations on the parts, whatever the
    predictions. *)
Definition additive_over (metric : IMetric) (whole : TProcessedDataProvider)
  (parts : list TProcessedDataProvider) : Prop :=
  forall (approx : TProcessedDataProvider -> matrix),
    (forall p, p ∈ parts -> shaped ApproxDimension (GetObjectCount p) (approx p)) ->
    match parts with
    | [] => True
    | p0 :: rest =>
        chunk_eval metric (hcat ApproxDimension (map approx parts)) whole
        = fold_left holder_Add
            (map (fun p => chunk_eval metric (approx p) p) rest)
            (chunk_eval metric (approx p0) p0)
    end.

(** The evaluation of an additive metric at checkpoint slot [i] of a pass over
    the chunk [d]. *)
Definition pass_eval (its : list Z) (metric : IMetric)
  (d : TProcessedDataProvider) (i : nat) : TMetricHolder :=
  chunk_eval metric (running (ObjectsData d) its (initial_matrix d) (S i)) d.

(** Feeding the chunks one after the other for the additive metrics. *)
Definition process_additive (chunks : list TProcessedDataProvider)
  (c : TMetricsPlotCalcer) : traced TMetricsPlotCalcer :=
  perform_all (map OpProceedDataSetForAdditiveMetrics chunks) c.

(** ** Dataset parts in the words of the source loops *)

(** The number of documents of the parts before part [p]. *)
Definition documents_before (parts : list TProcessedDataProvider) (p : nat)
  : nat :=
  sum_list (map GetObjectCount (take p parts)).

(** A part has one target and one weight per document. *)
Definition labelled (part : TProcessedDataProvider) : Prop :=
  length (GetTarget part) = GetObjectCount part
  /\ length (GetWeights part) = GetObjectCount part.

(** ** What an operation keeps *)

(** The operation from [c] to [c'] keeps the value of [f]. *)
Definition keeps {X} (f : TMetricsPlotCalcer -> X)
  (c c' : TMetricsPlotCalcer) : Prop :=
  f c' = f c.

(** The operation from [c] to [c'] keeps the invariant [J]. *)
Definition keeps_invariant (J : TMetricsPlotCalcer -> Prop)
  (c c' : TMetricsPlotCalcer) : Prop :=
  J c -> J c'.

(** The flag [DeleteTmpDirOnExitFlag] marks the scratch directory as the
    calcer's own: it is set exactly when the directory did not exist before
    the calcer ([tmpDirExists] false) and exists now. *)
Definition directory_flag_marks_own (tmpDirExists : bool)
  (c : TMetricsPlotCalcer) : Prop :=
  DeleteTmpDirOnExitFlag c = negb tmpDirExists && TmpDirExists (Scratch c)
  /\ (tmpDirExists = true -> TmpDirExists (Scratch c) = true).

(** What the additive pass has no part in: the non-additive plots, the
    collected targets and snapshot names, the scratch directory, the window
    and the resume stream. *)
Definition non_additive_side (c : TMetricsPlotCalcer)
  : list (list TMetricHolder) * TNonAdditiveMetricsData * TScratch * Z
    * option file * bool :=
  (NonAdditiveMetricPlots c, NonAdditiveMetricsData c, Scratch c,
   ProcessedIterationsCount c, LastApproxes c, DeleteTmpDirOnExitFlag c).

(** A relation on calcers, on a loop state that holds the calcer. *)
Definition related_on {St} (R : TMetricsPlotCalcer -> TMetricsPlotCalcer -> Prop)
  (proj : St -> TMetricsPlotCalcer) (s s' : St) : Prop :=
  R (proj s) (proj s').

(** ** Reporting the scores *)

(** The two loops of [SaveResult] that put the metrics of the two groups
    back at their original slots; the vector starts out with null
    pointers ([None]). *)
Definition AssembleMetrics (c : TMetricsPlotCalcer)
  : outcome (list (option IMetric)) :=
  let metrics :=
    replicate (length (AdditiveMetrics c) + length (NonAdditiveMetrics c))
      None in
  metrics ←
    for_each (seq 0 (length (AdditiveMetrics c)))
      (fun metrics metricId =>
         slot ← at_ (AdditiveMetricsIndices c) metricId;
         metric ← at_ (AdditiveMetrics c) metricId;
         set_at metrics slot (Some metric))
      metrics;
  for_each (seq 0 (length (NonAdditiveMetrics c)))
    (fun metrics metricId =>
       slot ← at_ (NonAdditiveMetricsIndices c) metricId;
       metric ← at_ (NonAdditiveMetrics c) metricId;
       set_at metrics slot (Some metric))
    metrics.

Section Reporting.

(** [IMetric::GetDescription], of the metrics library. *)
Variable TDescription : Type.
Variable GetDescription : IMetric -> TDescription.

(** [SaveResult], as far as plot.cpp decides it: the metric values handed to
    the logger, one list per [TOneInterationLogger] and in it one pair of
    description and value per [OutputMetric]. The result directory, the
    statistics file (written by functions of plot.h) and the backends of the
    logger are outside. *)
Definition SaveResult (c : TMetricsPlotCalcer)
  : outcome (list (list (TDescription * double))) :=
  metrics ← AssembleMetrics c;
  results ← GetMetricsScore c;
  row0 ← at_ results 0;
  for_each (seq 0 (Z.to_nat (int_of_size (length row0))))
    (fun logged iteration =>
       record ←
         for_each (seq 0 (Z.to_nat (int_of_size (length results))))
           (fun record metricIdx =>
              pointer ← at_ metrics metricIdx;
              metric ← match pointer with
                       | Some metric => Ok metric
                       | None => Fail UndefinedBehaviour
                       end;
              row ← at_ results metricIdx;
              value ← at_ row iteration;
              Ok (record ++ [(GetDescription metric, value)]))
           [];
       Ok (logged ++ [record]))
    [].

(** The records that [SaveResult] hands on for a score matrix: for every
    checkpoint the metrics in their original order, each with its score. *)
Definition score_records (metrics : list IMetric) (score : matrix)
  (checkpoints : nat) : list (list (TDescription * double)) :=
  map (fun i =>
         zip_with (fun metric row =>
                     (GetDescription metric, default dzero (row !! i)))
           metrics score)
    (seq 0 checkpoints).

End Reporting.

(** ** The non-additive metrics on a dataset of parts *)

(** The call of [Eval] that the non-additive paths make for one metric. *)
Definition non_additive_eval (metric : IMetric) (approx : matrix)
  (target weights : list float) : TMetricHolder :=
  let docCount := int_of_size (length target) in
  Eval metric approx target weights [] 0 docCount.

(** The running matrix of the whole dataset after [k] checkpoints: the
    running matrices of the parts side by side. *)
Definition parts_running (parts : list TProcessedDataProvider) (its : list Z)
  (k : nat) : matrix :=
  hcat ApproxDimension
    (map (fun p => running (ObjectsData p) its (initial_matrix p) k) parts).

(** The events of the multi-part path over the first [n] checkpoints: at
    every checkpoint one call of the Applier per part, then the matrix of the
    whole dataset. *)
Definition parts_events (parts : list TProcessedDataProvider) (its : list Z)
  (n : nat) : list event :=
  flat_map (fun k =>
              map (fun p => EvApply p (range_begin its k) (range_end its k))
                (seq 0 (length parts))
              ++ [EvApprox k (parts_running parts its (S k))])
    (seq 0 n).

(** ** The first window of the non-additive pass *)

(** The snapshots of the checkpoint slots below [k] of a pass over the chunk
    [d] are stored under their slots, the slots from [k] on have no snapshot
    yet, and the targets and weights of the chunk are collected;
    [kept] tells which of the stored snapshots are still there. *)
Record snapshots_stored (d : TProcessedDataProvider) (its : list Z)
  (k : nat) (kept : nat -> Prop) (c : TMetricsPlotCalcer) : Prop := {
  st_target : Target (NonAdditiveMetricsData c) = GetTarget d;
  st_weights : Weights (NonAdditiveMetricsData c) = GetWeights d;
  st_named : forall i, (i < k)%nat ->
    ApproxFiles (NonAdditiveMetricsData c) !! i = Some (Some i);
  st_unnamed : forall i, (k <= i)%nat -> snapshot_unnamed i c;
  st_files : forall i, (i < k)%nat -> kept i ->
    Files (Scratch c) !! i
    = Some (serialized
              (running (ObjectsData d) its (initial_matrix d) (S i))
              (GetObjectCount d))
}.

(** * Properties *)

(** ** Loops and vectors *)

Lemma for_each_app {A S} (l1 l2 : list A) (body : S -> A -> outcome S) s :
  for_each (l1 ++ l2) body s = s' ← for_each l1 body s; for_each l2 body s'.
Proof.
  revert s. induction l1 as [|x l1 IH]; intros s; simpl; [done|].
  destruct (body s x); simpl; [apply IH | done].
Qed.

Lemma at_Some {A} (v : list A) i x : v !! i = Some x -> at_ v i = Ok x.
Proof. unfold at_. by intros ->. Qed.

Lemma set_at_Some {A} (v : list A) i x :
  (i < length v)%nat -> set_at v i x = Ok (<[i := x]> v).
Proof.
  intros H. unfold set_at. destruct (lookup_lt_is_Some_2 v i H) as [y ->]. done.
Qed.

(** ** Checkpoint planner *)

Lemma wrap32_small z : 0 <= z < 2 ^ 32 -> wrap32 z = z.
Proof. intros H. unfold wrap32. by apply Z.mod_small. Qed.

Lemma stepped_S first step n :
  stepped first step (S n) = first :: stepped (first + step) step n.
Proof.
  unfold stepped. simpl. f_equal; [lia|].
  rewrite <- seq_shift, map_map. apply map_ext. intros k. lia.
Qed.

Lemma stepped_length first step n : length (stepped first step n) = n.
Proof. unfold stepped. by rewrite length_map, length_seq. Qed.

Lemma stepped_lookup first step n k :
  (k < n)%nat -> stepped first step n !! k = Some (first + Z.of_nat k * step).
Proof.
  intros H. unfold stepped.
  rewrite list_lookup_fmap, lookup_seq_lt by done. done.
Qed.

Lemma IterationsLoop_stepped n : forall fuel last_ step it acc,
  (n < fuel)%nat -> 0 < step -> 0 <= it ->
  it + Z.of_nat n * step < 2 ^ 32 ->
  last_ <= it + Z.of_nat n * step ->
  (forall k, (k < n)%nat -> it + Z.of_nat k * step < last_) ->
  IterationsLoop fuel last_ step it acc = Some (acc ++ stepped it step n).
Proof.
  induction n as [|n IH]; intros fuel last_ step it acc Hf Hs Hi Hw Hl Hk.
  - destruct fuel as [|fuel]; [lia|]. simpl.
    destruct (Z.ltb_spec it last_); [lia|]. by rewrite app_nil_r.
  - destruct fuel as [|fuel]; [lia|]. simpl.
    destruct (Z.ltb_spec it last_) as [_|Hge].
    2:{ specialize (Hk 0%nat). lia. }
    rewrite wrap32_small by lia.
    rewrite IH; try lia.
    + by rewrite stepped_S, <- app_assoc.
    + intros k Hlt. specialize (Hk (S k)). lia.
Qed.

Lemma stepped_count_bounds first last_ step :
  first < last_ -> 0 < step ->
  let n := Z.of_nat (stepped_count first last_ step) in
  0 < n /\ first + (n - 1) * step < last_ /\ last_ <= first + n * step.
Proof.
  intros Hfl Hs. unfold stepped_count.
  assert (Hq : 0 < (last_ - first + step - 1) / step).
  { apply Z.div_str_pos. lia. }
  rewrite Z2Nat.id by lia. simpl.
  pose proof (Z.div_mod (last_ - first + step - 1) step ltac:(lia)) as Hdm.
  pose proof (Z.mod_pos_bound (last_ - first + step - 1) step Hs) as Hm.
  nia.
Qed.

Lemma IterationsLoop_more fuel : forall k last_ step it acc its,
  IterationsLoop fuel last_ step it acc = Some its ->
  IterationsLoop (fuel + k) last_ step it acc = Some its.
Proof.
  induction fuel as [|fuel IH]; intros k last_ step it acc its; simpl; [done|].
  destruct (it <? last_); [apply IH | done].
Qed.

Lemma strictly_increasing_stepped first step n :
  0 < step -> strictly_increasing (stepped first step n).
Proof.
  intros Hs i j x y Hij Hx Hy.
  assert (j < n)%nat.
  { apply lookup_lt_Some in Hy. by rewrite stepped_length in Hy. }
  rewrite stepped_lookup in Hx, Hy by lia.
  injection Hx as <-. injection Hy as <-. nia.
Qed.

Lemma strictly_increasing_snoc l x :
  strictly_increasing l -> (forall y, y ∈ l -> y < x) ->
  strictly_increasing (l ++ [x]).
Proof.
  intros Hl Hx i j a b Hij Ha Hb.
  assert (Hj : (j < length (l ++ [x]))%nat) by (by eapply lookup_lt_Some).
  rewrite length_app in Hj. simpl in Hj.
  rewrite lookup_app_l in Ha by lia.
  destruct (decide (j < length l)%nat).
  - rewrite lookup_app_l in Hb by lia. eauto.
  - rewrite lookup_app_r in Hb by lia.
    replace (j - length l)%nat with 0%nat in Hb by lia.
    injection Hb as <-. apply Hx. by eapply list_elem_of_lookup_2.
Qed.

Lemma last_stepped first step n :
  last (stepped first step (S n)) = Some (first + Z.of_nat n * step).
Proof.
  rewrite last_lookup, stepped_length. simpl.
  by rewrite stepped_lookup by lia.
Qed.

(** The planner on inputs whose loop counter does not wrap around. *)
Lemma BuildIterations_planned first last_ step fuel :
  0 <= first -> first < last_ -> last_ < 2 ^ 32 -> 0 < step ->
  counter_fits first last_ step ->
  (stepped_count first last_ step < fuel)%nat ->
  BuildIterations fuel first last_ step
  = Some (Ok (planned_checkpoints first last_ step)).
Proof.
  intros H0 Hfl Hl Hs Hfit Hfuel.
  destruct (stepped_count_bounds first last_ step Hfl Hs) as (Hn & Hlo & Hhi).
  unfold BuildIterations, counter_fits in *.
  rewrite (IterationsLoop_stepped (stepped_count first last_ step)); try lia.
  2:{ intros k Hk. nia. }
  simpl. unfold planned_checkpoints.
  destruct (stepped_count first last_ step) as [|n] eqn:En; [lia|].
  unfold back. rewrite last_stepped. simpl.
  rewrite wrap32_small by lia.
  destruct (Z.eqb_spec (first + Z.of_nat n * step) (last_ - 1)) as [->|Hne];
    simpl; case_decide; try done; congruence.
Qed.

Lemma planned_checkpoints_shape first last_ step :
  first < last_ -> 0 < step ->
  let its := planned_checkpoints first last_ step in
  strictly_increasing its /\ its !! 0%nat = Some first
  /\ last its = Some (last_ - 1).
Proof.
  intros Hfl Hs.
  destruct (stepped_count_bounds first last_ step Hfl Hs) as (Hn & Hlo & Hhi).
  simpl. unfold planned_checkpoints.
  destruct (stepped_count first last_ step) as [|n] eqn:En; [lia|].
  rewrite last_stepped.
  case_decide as Hd.
  - split; [by apply strictly_increasing_stepped|].
    split; [|by rewrite last_stepped].
    rewrite stepped_lookup by lia. f_equal. lia.
  - split; [|split].
    + apply strictly_increasing_snoc; [by apply strictly_increasing_stepped|].
      intros y Hy. apply list_elem_of_lookup_1 in Hy as [k Hk].
      assert (k < S n)%nat.
      { apply lookup_lt_Some in Hk. by rewrite stepped_length in Hk. }
      rewrite stepped_lookup in Hk by lia. injection Hk as <-.
      assert (first + Z.of_nat n * step <> last_ - 1) by congruence.
      nia.
    + rewrite lookup_app_l by (rewrite stepped_length; lia).
      rewrite stepped_lookup by lia. f_equal. lia.
    + by rewrite last_snoc.
Qed.

(** ** What the operations leave unchanged *)

Lemma bind_Ok {A B} (m : outcome A) (f : A -> outcome B) b :
  m ≫= f = Ok b -> exists a, m = Ok a /\ f a = Ok b.
Proof. destruct m; simpl; [eauto | discriminate]. Qed.

Lemma traced_bind_Ok {A B} (m : traced A) (f : A -> traced B) b :
  result (m ≫= f) = Ok b -> exists a, result m = Ok a /\ result (f a) = Ok b.
Proof.
  unfold mbind, traced_bind. destruct (result m); simpl; [eauto | discriminate].
Qed.

Lemma at_Ok {A} (v : list A) i x : at_ v i = Ok x -> v !! i = Some x.
Proof. unfold at_. destruct (v !! i); congruence. Qed.

Lemma set_at_Ok {A} (v : list A) i x v' :
  set_at v i x = Ok v' -> v' = <[i := x]> v /\ (i < length v)%nat.
Proof.
  unfold set_at. destruct (v !! i) eqn:E; [|discriminate].
  intros [= <-]. split; [done|]. by eapply lookup_lt_Some.
Qed.

(** Takes a successful run of monadic code apart into its steps. *)
Ltac inv_ok :=
  repeat match goal with
    | H : Fail _ = Ok _ |- _ => discriminate H
    | H : Ok _ = Ok _ |- _ => injection H as H
    | H : (_, _) = (_, _) |- _ => injection H as ? ?
    | H : result (lift _) = Ok _ |- _ => unfold lift in H; simpl in H
    | H : result (emit _) = Ok _ |- _ => clear H
    | H : result (mret _) = Ok _ |- _ => injection H as H
    | H : result (_ ≫= _) = Ok _ |- _ =>
        apply traced_bind_Ok in H as (? & ? & H)
    | H : _ ≫= _ = Ok _ |- _ => apply bind_Ok in H as (? & ? & H)
    | H : at_ _ _ = Ok _ |- _ => apply at_Ok in H
    | H : set_at _ _ _ = Ok _ |- _ => apply set_at_Ok in H as [? ?]
    | H : (let '(_, _) := ?x in _) = Ok _ |- _ => destruct x
    | H : result (let '(_, _) := ?x in _) = Ok _ |- _ => destruct x
    | H : (if ?b then _ else _) = Ok _ |- _ => destruct b eqn:?
    | H : match ?x with _ => _ end = Ok _ |- _ => destruct x eqn:?
    end.

Lemma for_each_rel {A S} (R : S -> S -> Prop) `{!Reflexive R, !Transitive R}
  (l : list A) (body : S -> A -> outcome S) :
  (forall s x s', x ∈ l -> body s x = Ok s' -> R s s') ->
  forall s s', for_each l body s = Ok s' -> R s s'.
Proof.
  induction l as [|x l IH]; intros Hb s s' H; simpl in H.
  - injection H as <-. reflexivity.
  - apply bind_Ok in H as (s1 & H1 & H2).
    transitivity s1; [eapply Hb; [left | done]|].
    eapply IH; [|done]. intros. eapply Hb; [by right | done].
Qed.

Lemma for_each_traced_rel {A S} (R : S -> S -> Prop)
  `{!Reflexive R, !Transitive R} (l : list A) (body : S -> A -> traced S) :
  (forall s x s', x ∈ l -> result (body s x) = Ok s' -> R s s') ->
  forall s s', result (for_each_traced l body s) = Ok s' -> R s s'.
Proof.
  induction l as [|x l IH]; intros Hb s s' H; simpl in H.
  - injection H as <-. reflexivity.
  - apply traced_bind_Ok in H as (s1 & H1 & H2).
    transitivity s1; [eapply Hb; [left | done]|].
    eapply IH; [|done]. intros. eapply Hb; [by right | done].
Qed.

(** The members that only the constructor writes, and the shape of the two
    plot tables. *)
Record frame (c c' : TMetricsPlotCalcer) : Prop := {
  fr_First : First c' = First c;
  fr_Last : Last c' = Last c;
  fr_Step : Step c' = Step c;
  fr_Iterations : Iterations c' = Iterations c;
  fr_AdditiveMetrics : AdditiveMetrics c' = AdditiveMetrics c;
  fr_AdditiveMetricsIndices :
    AdditiveMetricsIndices c' = AdditiveMetricsIndices c;
  fr_NonAdditiveMetrics : NonAdditiveMetrics c' = NonAdditiveMetrics c;
  fr_NonAdditiveMetricsIndices :
    NonAdditiveMetricsIndices c' = NonAdditiveMetricsIndices c;
  fr_ProcessedIterationsStep :
    ProcessedIterationsStep c' = ProcessedIterationsStep c;
  fr_AdditiveMetricPlots :
    map length (AdditiveMetricPlots c') = map length (AdditiveMetricPlots c);
  fr_NonAdditiveMetricPlots :
    map length (NonAdditiveMetricPlots c')
    = map length (NonAdditiveMetricPlots c)
}.

#[local] Instance frame_refl : Reflexive frame.
Proof. intros c. by constructor. Qed.

#[local] Instance frame_trans : Transitive frame.
Proof. intros c1 c2 c3 [] []. constructor; congruence. Qed.

Lemma map_length_insert {A} (plots : list (list A)) i plot plot' :
  plots !! i = Some plot -> length plot' = length plot ->
  map length (<[i := plot']> plots) = map length plots.
Proof.
  intros Hp Hl. change (map length) with (fmap (M := list) (length (A := A))).
  rewrite list_fmap_insert, Hl. apply list_insert_id.
  by rewrite list_lookup_fmap, Hp.
Qed.

Lemma frame_set_AdditiveMetricPlots c i plot x j :
  AdditiveMetricPlots c !! i = Some plot ->
  frame c (set_AdditiveMetricPlots (<[i := <[j := x]> plot]>
                                      (AdditiveMetricPlots c)) c).
Proof.
  intros H. constructor; try done. simpl.
  eapply map_length_insert; [done|]. by rewrite length_insert.
Qed.

Lemma frame_set_NonAdditiveMetricPlots c i plot x j :
  NonAdditiveMetricPlots c !! i = Some plot ->
  frame c (set_NonAdditiveMetricPlots (<[i := <[j := x]> plot]>
                                         (NonAdditiveMetricPlots c)) c).
Proof.
  intros H. constructor; try done. simpl.
  eapply map_length_insert; [done|]. by rewrite length_insert.
Qed.

Lemma frame_set_ProcessedIterationsCount v c :
  frame c (set_ProcessedIterationsCount v c).
Proof. by constructor. Qed.

Lemma frame_set_CurApproxBuffer v c : frame c (set_CurApproxBuffer v c).
Proof. by constructor. Qed.

Lemma frame_set_NextApproxBuffer v c : frame c (set_NextApproxBuffer v c).
Proof. by constructor. Qed.

Lemma frame_set_NonAdditiveMetricsData v c :
  frame c (set_NonAdditiveMetricsData v c).
Proof. by constructor. Qed.

Lemma frame_set_LastApproxes v c : frame c (set_LastApproxes v c).
Proof. by constructor. Qed.

Lemma frame_set_DeleteTmpDirOnExitFlag v c :
  frame c (set_DeleteTmpDirOnExitFlag v c).
Proof. by constructor. Qed.

Lemma frame_set_Scratch v c : frame c (set_Scratch v c).
Proof. by constructor. Qed.

Create HintDb frame discriminated.
#[local] Hint Resolve frame_set_ProcessedIterationsCount
  frame_set_CurApproxBuffer frame_set_NextApproxBuffer
  frame_set_NonAdditiveMetricsData frame_set_LastApproxes
  frame_set_DeleteTmpDirOnExitFlag frame_set_Scratch : frame.
#[local] Hint Extern 1 (frame ?c ?c) => reflexivity : frame.
#[local] Hint Extern 5 (frame ?c (?f _ ?c')) =>
  (transitivity c'; [|solve [auto with frame]]) : frame.

Lemma GetApproxFileName_frame i c p c' :
  GetApproxFileName i c = Ok (p, c') -> frame c c'.
Proof.
  unfold GetApproxFileName. intros H. inv_ok; subst;
    destruct (TmpDirExists (Scratch c)); auto 10 with frame.
Qed.

Lemma SaveApproxToFile_frame i approx c c' :
  SaveApproxToFile i approx c = Ok c' -> frame c c'.
Proof.
  unfold SaveApproxToFile. intros H. inv_ok. subst.
  match goal with H : GetApproxFileName _ _ = _ |- _ =>
    apply GetApproxFileName_frame in H end.
  etransitivity; [done|]. auto with frame.
Qed.

Lemma LoadApprox_frame i c m c' : LoadApprox i c = Ok (m, c') -> frame c c'.
Proof.
  unfold LoadApprox. intros H. inv_ok. subst.
  by eapply GetApproxFileName_frame.
Qed.

Lemma DeleteApprox_frame i c c' : DeleteApprox i c = Ok c' -> frame c c'.
Proof.
  unfold DeleteApprox. intros H. inv_ok. subst.
  match goal with H : GetApproxFileName _ _ = _ |- _ =>
    apply GetApproxFileName_frame in H end.
  etransitivity; [done|]. auto with frame.
Qed.

Lemma ComputeAdditiveMetric_frame approx target weights queriesInfo i c c' :
  ComputeAdditiveMetric approx target weights queriesInfo i c = Ok c' ->
  frame c c'.
Proof.
  unfold ComputeAdditiveMetric.
  apply (for_each_rel frame). intros s x s' _ H.
  inv_ok; subst; by eapply frame_set_AdditiveMetricPlots.
Qed.

Lemma EvalNonAdditiveMetrics_frame approx target weights i c c' :
  EvalNonAdditiveMetrics approx target weights i c = Ok c' -> frame c c'.
Proof.
  unfold EvalNonAdditiveMetrics.
  apply (for_each_rel frame). intros s x s' _ H.
  inv_ok; subst; by eapply frame_set_NonAdditiveMetricPlots.
Qed.

Lemma ComputeNonAdditiveMetrics_frame b e c c' :
  ComputeNonAdditiveMetrics b e c = Ok c' -> frame c c'.
Proof.
  unfold ComputeNonAdditiveMetrics.
  apply (for_each_rel frame). intros s x s' _ H. inv_ok.
  - etransitivity; [by eapply LoadApprox_frame|].
    etransitivity; [by eapply EvalNonAdditiveMetrics_frame|].
    by eapply DeleteApprox_frame.
  - subst. etransitivity; [by eapply LoadApprox_frame|].
    by eapply EvalNonAdditiveMetrics_frame.
Qed.

(** [frame] on a loop state that holds the calcer. *)
Definition frame_on {S} (proj : S -> TMetricsPlotCalcer) (s s' : S) : Prop :=
  frame (proj s) (proj s').

#[local] Instance frame_on_refl {S} (proj : S -> TMetricsPlotCalcer) :
  Reflexive (frame_on proj).
Proof. intros s. unfold frame_on. reflexivity. Qed.

#[local] Instance frame_on_trans {S} (proj : S -> TMetricsPlotCalcer) :
  Transitive (frame_on proj).
Proof. intros s1 s2 s3. unfold frame_on. apply frame_trans. Qed.

Lemma ProceedDataSet_frame d b e isAdditive c c' :
  result (ProceedDataSet d b e isAdditive c) = Ok c' -> frame c c'.
Proof.
  unfold ProceedDataSet. intros H.
  apply traced_bind_Ok in H as (cur & _ & H).
  apply traced_bind_Ok in H as ([begin_ c1] & H1 & H).
  apply traced_bind_Ok in H as ([end_ c2] & H2 & H).
  injection H as <-.
  assert (frame c c1) as F1.
  { unfold lift in H1. simpl in H1. inv_ok; subst; auto with frame. }
  assert (frame c1 c2) as F2.
  { apply (for_each_traced_rel (frame_on snd)) in H2; [done|].
    intros [b1 s] x [b2 s'] _ Hb. unfold frame_on. simpl.
    apply traced_bind_Ok in Hb as (it & _ & Hb).
    apply traced_bind_Ok in Hb as (? & _ & Hb).
    apply traced_bind_Ok in Hb as (cur' & _ & Hb).
    apply traced_bind_Ok in Hb as (? & _ & Hb).
    apply traced_bind_Ok in Hb as (s1 & Hs & Hb).
    injection Hb as _ <-.
    unfold lift in Hs. simpl in Hs.
    etransitivity; [|destruct isAdditive;
      [by eapply ComputeAdditiveMetric_frame
      |by eapply SaveApproxToFile_frame]].
    auto with frame. }
  etransitivity; [exact F1|]. etransitivity; [exact F2|]. auto with frame.
Qed.

Lemma ProceedDataSetForNonAdditiveMetrics_frame d c c' :
  result (ProceedDataSetForNonAdditiveMetrics d c) = Ok c' -> frame c c'.
Proof.
  unfold ProceedDataSetForNonAdditiveMetrics. intros H.
  apply ProceedDataSet_frame in H.
  etransitivity; [|exact H].
  destruct (ProcessedIterationsCount c =? 0); auto with frame.
Qed.

Lemma FinishProceedDataSetForNonAdditiveMetrics_frame c c' :
  FinishProceedDataSetForNonAdditiveMetrics c = Ok c' -> frame c c'.
Proof.
  unfold FinishProceedDataSetForNonAdditiveMetrics. intros H.
  apply bind_Ok in H as (c1 & H1 & H).
  apply ComputeNonAdditiveMetrics_frame in H1.
  etransitivity; [exact H1|].
  etransitivity; [apply (frame_set_ProcessedIterationsCount (WindowEnd c))|].
  destruct (AreAllIterationsProcessed _).
  - by eapply DeleteApprox_frame.
  - inv_ok. subst.
    match goal with H : GetApproxFileName _ _ = _ |- _ =>
      apply GetApproxFileName_frame in H end.
    etransitivity; [done|]. auto with frame.
Qed.

Lemma ComputeNonAdditiveMetricsOnParts_frame parts c c' :
  result (ComputeNonAdditiveMetricsOnParts parts c) = Ok c' -> frame c c'.
Proof.
  unfold ComputeNonAdditiveMetricsOnParts. intros H.
  apply traced_bind_Ok in H as (cur & _ & H).
  apply traced_bind_Ok in H as ([[end_ cur'] c2] & H2 & H).
  injection H as <-.
  apply (for_each_traced_rel (frame_on snd)) in H2; [done|].
  intros [[b1 a1] s] x [[b2 a2] s'] _ Hb. unfold frame_on. simpl.
  apply traced_bind_Ok in Hb as (it & _ & Hb).
  apply traced_bind_Ok in Hb as ([a3 s3] & Hparts & Hb).
  apply traced_bind_Ok in Hb as (? & _ & Hb).
  apply traced_bind_Ok in Hb as (s4 & Hs & Hb).
  injection Hb as _ _ <-.
  unfold lift in Hs. simpl in Hs.
  apply EvalNonAdditiveMetrics_frame in Hs.
  etransitivity; [|exact Hs].
  apply (for_each_traced_rel (frame_on snd)) in Hparts; [done|].
  intros [a5 s5] y [a6 s6] _ Hp. unfold frame_on. simpl.
  apply traced_bind_Ok in Hp as (part & _ & Hp).
  apply traced_bind_Ok in Hp as (? & _ & Hp).
  apply traced_bind_Ok in Hp as (start & _ & Hp).
  apply traced_bind_Ok in Hp as (a7 & _ & Hp).
  injection Hp as _ <-. auto with frame.
Qed.

Lemma perform_frame c op c' : result (perform c op) = Ok c' -> frame c c'.
Proof.
  destruct op; simpl.
  - apply ProceedDataSet_frame.
  - apply ProceedDataSetForNonAdditiveMetrics_frame.
  - apply FinishProceedDataSetForNonAdditiveMetrics_frame.
  - apply ComputeNonAdditiveMetricsOnParts_frame.
Qed.

Lemma perform_all_frame ops c c' :
  result (perform_all ops c) = Ok c' -> frame c c'.
Proof.
  apply (for_each_traced_rel frame). intros s op s' _. apply perform_frame.
Qed.

(** ** Metric classifier *)

Lemma slots_from_filter k p metrics j slot :
  slots_from k p metrics !! j = Some slot ->
  (k <= slot < k + length metrics)%nat
  /\ List.filter p metrics !! j = metrics !! (slot - k)%nat
  /\ exists metric, metrics !! (slot - k)%nat = Some metric /\ p metric = true.
Proof.
  revert k j. induction metrics as [|m ms IH]; intros k j H; simpl in *.
  - by rewrite lookup_nil in H.
  - destruct (p m) eqn:Hp.
    + destruct j as [|j]; simpl in H.
      * injection H as <-. replace (k - k)%nat with 0%nat by lia. simpl.
        split; [lia|]. eauto.
      * apply IH in H as (Hr & Hf & Hm).
        replace (slot - k)%nat with (S (slot - S k)) by lia. simpl.
        split; [lia|]. done.
    + apply IH in H as (Hr & Hf & Hm).
      replace (slot - k)%nat with (S (slot - S k)) by lia. simpl.
      split; [lia|]. done.
Qed.

Lemma slots_from_length k p metrics :
  length (slots_from k p metrics) = length (List.filter p metrics).
Proof.
  revert k. induction metrics as [|m ms IH]; intros k; simpl; [done|].
  destruct (p m); simpl; by rewrite IH.
Qed.

Lemma slots_from_partition k metrics :
  Permutation (slots_from k IsAdditiveMetric metrics
               ++ slots_from k NonAdditive metrics)
              (seq k (length metrics)).
Proof.
  revert k. induction metrics as [|m ms IH]; intros k; simpl; [done|].
  unfold NonAdditive at 1. destruct (IsAdditiveMetric m); simpl.
  - constructor. apply IH.
  - rewrite <- Permutation_middle. constructor. apply IH.
Qed.

Lemma filter_partition_length (metrics : list IMetric) :
  (length (List.filter IsAdditiveMetric metrics)
   + length (List.filter NonAdditive metrics) = length metrics)%nat.
Proof.
  induction metrics as [|m ms IH]; simpl; [done|].
  unfold NonAdditive at 1. destruct (IsAdditiveMetric m); simpl; lia.
Qed.

Lemma ClassifyStep_at metrics k m a ai n ni :
  metrics !! k = Some m ->
  ClassifyStep metrics (a, ai, n, ni) k
  = if IsAdditiveMetric m then Ok (a ++ [m], ai ++ [k], n, ni)
    else if EErrorType_eqb (GetErrorType m) PerObjectError
         then Ok (a, ai, n ++ [m], ni ++ [k])
         else Fail ConfigurationError.
Proof. intros H. unfold ClassifyStep. by rewrite (at_Some _ _ _ H). Qed.

Lemma ClassifyMetrics_loop metrics : forall rest done_ st,
  metrics = done_ ++ rest ->
  for_each (seq (length done_) (length rest)) (ClassifyStep metrics) st
  = if forallb supported rest
    then let '(a, ai, n, ni) := st in
         Ok (a ++ List.filter IsAdditiveMetric rest,
             ai ++ slots_from (length done_) IsAdditiveMetric rest,
             n ++ List.filter NonAdditive rest,
             ni ++ slots_from (length done_) NonAdditive rest)
    else Fail ConfigurationError.
Proof.
  induction rest as [|m rest IH]; intros done_ [[[a ai] n] ni] Hm.
  - simpl. by rewrite !app_nil_r.
  - cbn [length seq for_each forallb].
    rewrite (ClassifyStep_at metrics (length done_) m).
    2:{ rewrite Hm. by rewrite list_lookup_middle. }
    cbn [supported NonAdditive List.filter slots_from].
    change (NonAdditive m) with (negb (IsAdditiveMetric m)).
    change (supported m) with
      (IsAdditiveMetric m || EErrorType_eqb (GetErrorType m) PerObjectError).
    destruct (IsAdditiveMetric m) eqn:Ha; cbn [orb negb andb mbind outcome_bind].
    + specialize (IH (done_ ++ [m]) (a ++ [m], ai ++ [length done_], n, ni)).
      rewrite length_app, Nat.add_1_r in IH. rewrite IH.
      2:{ by rewrite <- app_assoc. }
      destruct (forallb supported rest); [|done].
      by rewrite <- !app_assoc.
    + destruct (EErrorType_eqb (GetErrorType m) PerObjectError);
        cbn [orb negb andb mbind outcome_bind]; [|done].
      specialize (IH (done_ ++ [m]) (a, ai, n ++ [m], ni ++ [length done_])).
      rewrite length_app, Nat.add_1_r in IH. rewrite IH.
      2:{ by rewrite <- app_assoc. }
      destruct (forallb supported rest); [|done].
      by rewrite <- !app_assoc.
Qed.

Lemma ClassifyMetrics_spec metrics :
  ClassifyMetrics metrics
  = if forallb supported metrics
    then Ok (List.filter IsAdditiveMetric metrics,
             slots_from 0 IsAdditiveMetric metrics,
             List.filter NonAdditive metrics,
             slots_from 0 NonAdditive metrics)
    else Fail ConfigurationError.
Proof.
  unfold ClassifyMetrics.
  exact (ClassifyMetrics_loop metrics metrics [] ([], [], [], []) eq_refl).
Qed.

Lemma MakeCalcer_Ok fuel metrics tmpDirExists first last_ step pis c :
  MakeCalcer fuel metrics tmpDirExists first last_ step pis = Some (Ok c) ->
  BuildIterations fuel first last_ step = Some (Ok (Iterations c))
  /\ forallb supported metrics = true
  /\ grouped metrics c /\ plots_shaped c
  /\ AdditiveMetricPlots c
     = replicate (length (AdditiveMetrics c))
         (replicate (length (Iterations c)) holder_default)
  /\ NonAdditiveMetricPlots c
     = replicate (length (NonAdditiveMetrics c))
         (replicate (length (Iterations c)) holder_default)
  /\ Forall (fun row => row = []) (CurApproxBuffer c).
Proof.
  unfold MakeCalcer. intros H.
  destruct (EnsureCorrectParams first last_ step); [|by injection H].
  destruct (BuildIterations fuel first last_ step) as [[its|]|];
    [|by injection H|done].
  rewrite ClassifyMetrics_spec in H. simpl in H.
  destruct (forallb supported metrics); [|by injection H].
  simpl in H. injection H as <-. simpl.
  unfold grouped, plots_shaped. simpl.
  repeat split; try done.
  - change (map length) with (fmap (M := list) (length (A := TMetricHolder))).
    by rewrite fmap_replicate, length_replicate.
  - change (map length) with (fmap (M := list) (length (A := TMetricHolder))).
    by rewrite fmap_replicate, length_replicate.
Qed.

(** ** Score assembly *)

Lemma for_each_seq_inv {St} (P : nat -> St -> Prop)
  (body : St -> nat -> outcome St) n s :
  P 0%nat s ->
  (forall k s, (k < n)%nat -> P k s -> exists s', body s k = Ok s' /\ P (S k) s') ->
  exists s', for_each (seq 0 n) body s = Ok s' /\ P n s'.
Proof.
  intros H0 Hstep. induction n as [|n IH].
  - exists s. by split.
  - destruct IH as (s1 & H1 & P1).
    { intros k s0 Hk. apply Hstep. lia. }
    destruct (Hstep n s1 ltac:(lia) P1) as (s2 & H2 & P2).
    exists s2. split; [|done].
    rewrite seq_S, for_each_app, H1. simpl. by rewrite H2.
Qed.

Lemma shape_lookup {A} (table : list (list A)) n cols r :
  map length table = replicate n cols -> (r < n)%nat ->
  exists row, table !! r = Some row /\ length row = cols.
Proof.
  intros Hs Hr.
  assert (Hl : length table = n).
  { apply (f_equal length) in Hs. by rewrite length_map, length_replicate in Hs. }
  destruct (lookup_lt_is_Some_2 table r ltac:(lia)) as [row Hrow].
  exists row. split; [done|].
  assert (map length table !! r = Some (length row)) as Hm.
  { change (map length) with (fmap (M := list) (length (A := A))).
    by rewrite list_lookup_fmap, Hrow. }
  rewrite Hs, lookup_replicate_2 in Hm by done. congruence.
Qed.

Lemma shape_same_lookup {A B} (t : list (list A)) (t' : list (list B)) r row :
  map length t = map length t' -> t' !! r = Some row ->
  exists row', t !! r = Some row' /\ length row' = length row.
Proof.
  intros Hs Hr.
  assert (map length t !! r = Some (length row)) as Hm.
  { rewrite Hs. change (map length) with (fmap (M := list) (length (A := B))).
    by rewrite list_lookup_fmap, Hr. }
  change (map length) with (fmap (M := list) (length (A := A))) in Hm.
  rewrite list_lookup_fmap in Hm.
  destruct (t !! r) as [row'|]; [|done]. exists row'. split; [done|].
  simpl in Hm. congruence.
Qed.

Lemma cell_insert {A} (table : list (list A)) r row c v r' c' :
  table !! r = Some row -> (c < length row)%nat ->
  cell (<[r := <[c := v]> row]> table) r' c'
  = if decide (r' = r /\ c' = c) then Some v else cell table r' c'.
Proof.
  intros Hr Hc. unfold cell.
  assert (r < length table)%nat by (by eapply lookup_lt_Some).
  destruct (decide (r' = r)) as [->|Hne].
  - rewrite list_lookup_insert_eq by done. simpl.
    destruct (decide (c' = c)) as [->|Hnc].
    + rewrite list_lookup_insert_eq by done. by rewrite decide_True.
    + rewrite list_lookup_insert_ne by done. rewrite decide_False by tauto.
      by rewrite Hr.
  - rewrite list_lookup_insert_ne by done. by rewrite decide_False by tauto.
Qed.

Lemma PutScores_spec metrics indices plots i cols rows score :
  length indices = length metrics ->
  map length plots = replicate (length metrics) cols ->
  (i < cols)%nat ->
  map length score = replicate rows cols ->
  (forall slot, slot ∈ indices -> (slot < rows)%nat) ->
  NoDup indices ->
  exists score',
    PutScores metrics indices plots i score = Ok score'
    /\ map length score' = replicate rows cols
    /\ (forall j slot, indices !! j = Some slot ->
          is_Some (finalized metrics plots j i)
          /\ cell score' slot i = finalized metrics plots j i)
    /\ (forall slot col, col <> i \/ slot ∉ indices ->
          cell score' slot col = cell score slot col).
Proof.
  intros Hli Hplots Hi Hscore Hslots Hnd.
  unfold PutScores.
  destruct (for_each_seq_inv
    (fun k s =>
       map length s = replicate rows cols
       /\ (forall j slot, (j < k)%nat -> indices !! j = Some slot ->
             is_Some (finalized metrics plots j i)
             /\ cell s slot i = finalized metrics plots j i)
       /\ (forall slot col, col <> i \/ slot ∉ take k indices ->
             cell s slot col = cell score slot col))
    (fun metricsScore metricId =>
       metric ← at_ metrics metricId;
       plot ← at_ plots metricId;
       holder ← at_ plot i;
       slot ← at_ indices metricId;
       row ← at_ metricsScore slot;
       row' ← set_at row i (GetFinalError metric holder);
       set_at metricsScore slot row')
    (length metrics) score) as (score' & Hrun & Hshape & Hset & Hkeep).
  - split; [done|]. split; [lia|done].
  - intros k s Hk (Hs & Hdone & Hrest).
    destruct (lookup_lt_is_Some_2 metrics k Hk) as [metric Hmetric].
    destruct (shape_lookup plots _ _ k Hplots Hk) as (plot & Hplot & Hlen).
    destruct (lookup_lt_is_Some_2 plot i ltac:(lia)) as [holder Hholder].
    destruct (lookup_lt_is_Some_2 indices k ltac:(lia)) as [slot Hslot].
    assert (slot < rows)%nat as Hlt.
    { apply Hslots. by eapply list_elem_of_lookup_2. }
    destruct (shape_lookup s _ _ slot Hs Hlt) as (row & Hrow & Hrowlen).
    rewrite (at_Some _ _ _ Hmetric). simpl.
    rewrite (at_Some _ _ _ Hplot). simpl.
    rewrite (at_Some _ _ _ Hholder). simpl.
    rewrite (at_Some _ _ _ Hslot). simpl.
    rewrite (at_Some _ _ _ Hrow). simpl.
    rewrite set_at_Some by lia. simpl.
    rewrite set_at_Some by (by eapply lookup_lt_Some).
    eexists. split; [done|].
    assert (finalized metrics plots k i = Some (GetFinalError metric holder))
      as Hfin.
    { unfold finalized, cell. rewrite Hmetric. simpl. rewrite Hplot. simpl.
      by rewrite Hholder. }
    split; [|split].
    + rewrite <- Hs. eapply map_length_insert; [done|]. by rewrite length_insert.
    + intros j slot' Hj Hslot'.
      rewrite (cell_insert s slot row i) by (done || lia).
      destruct (decide (j = k)) as [->|Hjk].
      * assert (slot' = slot) as -> by congruence.
        rewrite decide_True by done. by rewrite Hfin.
      * rewrite decide_False.
        { apply Hdone; [lia | done]. }
        intros [-> _]. apply Hjk. by eapply NoDup_lookup.
    + intros slot' col Hor.
      rewrite (cell_insert s slot row i) by (done || lia).
      rewrite decide_False.
      * apply Hrest. destruct Hor as [?|Hnot]; [by left | right].
        intros Hin. apply Hnot.
        rewrite (take_S_r _ _ _ Hslot). apply elem_of_app. by left.
      * intros [-> ->]. destruct Hor as [?|Hnot]; [done|].
        apply Hnot. rewrite (take_S_r _ _ _ Hslot). apply elem_of_app.
        right. by apply list_elem_of_singleton.
  - exists score'. split; [done|]. split; [done|]. split.
    + intros j slot Hj. apply Hset; [|done].
      rewrite <- Hli. by eapply lookup_lt_Some.
    + intros slot col Hor. apply Hkeep.
      destruct Hor as [?|Hnot]; [by left | right].
      rewrite <- Hli, take_ge in * by lia. done.
Qed.

Lemma grouped_slots metrics c :
  grouped metrics c ->
  length (AdditiveMetricsIndices c) = length (AdditiveMetrics c)
  /\ length (NonAdditiveMetricsIndices c) = length (NonAdditiveMetrics c)
  /\ (length (AdditiveMetrics c) + length (NonAdditiveMetrics c)
      = length metrics)%nat
  /\ NoDup (AdditiveMetricsIndices c ++ NonAdditiveMetricsIndices c)
  /\ (forall slot, slot ∈ AdditiveMetricsIndices c ++ NonAdditiveMetricsIndices c
                   <-> (slot < length metrics)%nat).
Proof.
  intros (-> & -> & -> & ->).
  pose proof (slots_from_partition 0 metrics) as Hp.
  split; [apply slots_from_length|]. split; [apply slots_from_length|].
  split; [apply filter_partition_length|]. split.
  - rewrite Hp. apply NoDup_ListNoDup, List.seq_NoDup.
  - intros slot. rewrite Hp, elem_of_seq. lia.
Qed.

Lemma GetMetricsScore_spec metrics c :
  grouped metrics c -> plots_shaped c ->
  exists score,
    GetMetricsScore c = Ok score
    /\ map length score
       = replicate (length metrics) (length (Iterations c))
    /\ forall i, (i < length (Iterations c))%nat ->
         (forall j slot, AdditiveMetricsIndices c !! j = Some slot ->
            is_Some (finalized (AdditiveMetrics c) (AdditiveMetricPlots c) j i)
            /\ cell score slot i
               = finalized (AdditiveMetrics c) (AdditiveMetricPlots c) j i)
         /\ (forall j slot, NonAdditiveMetricsIndices c !! j = Some slot ->
               is_Some (finalized (NonAdditiveMetrics c)
                          (NonAdditiveMetricPlots c) j i)
               /\ cell score slot i
                  = finalized (NonAdditiveMetrics c)
                      (NonAdditiveMetricPlots c) j i).
Proof.
  intros Hg [Hpa Hpn].
  destruct (grouped_slots metrics c Hg) as (Hla & Hln & Hrows & Hnd & Hin).
  apply NoDup_app in Hnd as (Hnda & Hdisj & Hndn).
  unfold GetMetricsScore. rewrite Hrows.
  set (rows := length metrics) in *. set (cols := length (Iterations c)) in *.
  destruct (for_each_seq_inv
    (fun n s =>
       map length s = replicate rows cols
       /\ forall i, (i < n)%nat ->
            (forall j slot, AdditiveMetricsIndices c !! j = Some slot ->
               is_Some (finalized (AdditiveMetrics c)
                          (AdditiveMetricPlots c) j i)
               /\ cell s slot i
                  = finalized (AdditiveMetrics c) (AdditiveMetricPlots c) j i)
            /\ (forall j slot, NonAdditiveMetricsIndices c !! j = Some slot ->
                  is_Some (finalized (NonAdditiveMetrics c)
                             (NonAdditiveMetricPlots c) j i)
                  /\ cell s slot i
                     = finalized (NonAdditiveMetrics c)
                         (NonAdditiveMetricPlots c) j i))
    (fun metricsScore i =>
       metricsScore ← PutScores (AdditiveMetrics c) (AdditiveMetricsIndices c)
                        (AdditiveMetricPlots c) i metricsScore;
       PutScores (NonAdditiveMetrics c) (NonAdditiveMetricsIndices c)
         (NonAdditiveMetricPlots c) i metricsScore)
    cols (replicate rows (replicate cols dzero))) as (score & Hrun & Hshape & Hc).
  - split; [|intros; lia].
    change (map length) with (fmap (M := list) (length (A := double))).
    by rewrite fmap_replicate, length_replicate.
  - intros n s Hn (Hs & Hprev).
    destruct (PutScores_spec (AdditiveMetrics c) (AdditiveMetricsIndices c)
                (AdditiveMetricPlots c) n cols rows s)
      as (s1 & H1 & Hs1 & Hset1 & Hkeep1); try done.
    { intros slot Hslot. apply Hin, elem_of_app. by left. }
    destruct (PutScores_spec (NonAdditiveMetrics c)
                (NonAdditiveMetricsIndices c)
                (NonAdditiveMetricPlots c) n cols rows s1)
      as (s2 & H2 & Hs2 & Hset2 & Hkeep2); try done.
    { intros slot Hslot. apply Hin, elem_of_app. by right. }
    exists s2. rewrite H1. simpl. split; [done|]. split; [done|].
    intros i Hi. destruct (decide (i = n)) as [->|Hne].
    + split; [|apply Hset2].
      intros j slot Hj. rewrite Hkeep2; [by apply Hset1|].
      right. intros Hn2. eapply Hdisj; [|done]. by eapply list_elem_of_lookup_2.
    + destruct (Hprev i ltac:(lia)) as [Ha Hb].
      split; intros j slot Hj; rewrite Hkeep2, Hkeep1 by (by left); auto.
  - exists score. done.
Qed.

(** ** Approximation accumulator *)

Lemma ui32_of_size_small n : Z.of_nat n < 2 ^ 32 -> ui32_of_size n = n.
Proof.
  intros H. unfold ui32_of_size. rewrite wrap32_small by lia. lia.
Qed.

Lemma table_eq {A} (t t' : list (list A)) :
  map length t = map length t' ->
  (forall r c, cell t r c = cell t' r c) -> t = t'.
Proof.
  intros Hs Hc. apply list_eq. intros r.
  destruct (t' !! r) as [row'|] eqn:Hr'.
  - destruct (shape_same_lookup t t' r row' Hs Hr') as (row & Hr & Hl).
    rewrite Hr. f_equal. apply list_eq. intros c.
    specialize (Hc r c). unfold cell in Hc. by rewrite Hr, Hr' in Hc.
  - apply lookup_ge_None in Hr'. apply lookup_ge_None.
    apply (f_equal length) in Hs. rewrite !length_map in Hs. lia.
Qed.

Lemma shaped_length dim n m : shaped dim n m -> length m = dim.
Proof.
  intros H. apply (f_equal length) in H.
  by rewrite length_map, length_replicate in H.
Qed.

Lemma cell_lt {A} (t : list (list A)) dim n r c :
  map length t = replicate dim n -> (r < dim)%nat -> (c < n)%nat ->
  is_Some (cell t r c).
Proof.
  intros Hs Hr Hc. destruct (shape_lookup t dim n r Hs Hr) as (row & Hrow & Hl).
  unfold cell. rewrite Hrow. simpl. apply lookup_lt_is_Some_2. lia.
Qed.

(** [Append] adds the delta into the columns from [start] on. *)
Lemma Append_cells approx dst start dim n N :
  (0 < dim)%nat -> shaped dim n approx -> Z.of_nat n < 2 ^ 32 ->
  shaped dim N dst -> (start + n <= N)%nat ->
  exists dst',
    Append approx dst start = Ok dst'
    /\ shaped dim N dst'
    /\ forall r c,
         cell dst' r c
         = if decide (start <= c < start + n)%nat
           then x ← cell dst r c; v ← cell approx r (c - start);
                Some (dadd x v)
           else cell dst r c.
Proof.
  intros Hdim Ha Hn Hd Hfit. unfold Append.
  destruct (shape_lookup approx dim n 0 Ha Hdim) as (row0 & Hrow0 & Hl0).
  rewrite (at_Some _ _ _ Hrow0). simpl.
  rewrite Hl0, ui32_of_size_small by done.
  rewrite (shaped_length _ _ _ Ha).
  destruct (for_each_seq_inv
    (fun d s =>
       shaped dim N s
       /\ forall r c,
            cell s r c
            = if decide (r < d /\ start <= c < start + n)%nat
              then x ← cell dst r c; v ← cell approx r (c - start);
                   Some (dadd x v)
              else cell dst r c)
    (fun dst dim =>
       for_each (seq 0 n)
         (fun dst i =>
            arow ← at_ approx dim;
            v ← at_ arow i;
            drow ← at_ dst dim;
            x ← at_ drow (start + i);
            drow' ← set_at drow (start + i) (dadd x v);
            set_at dst dim drow')
         dst)
    dim dst) as (dst' & Hrun & Hs & Hc).
  - split; [done|]. intros r c. rewrite decide_False by lia. done.
  - intros d s Hlt (Hs & Hc).
    destruct (shape_lookup approx dim n d Ha Hlt) as (arow & Harow & Hal).
    destruct (for_each_seq_inv
      (fun k s' =>
         shaped dim N s'
         /\ forall r c,
              cell s' r c
              = if decide (r = d /\ start <= c < start + k)%nat
                then x ← cell dst r c; v ← cell approx r (c - start);
                     Some (dadd x v)
                else cell s r c)
      (fun dst i =>
         arow ← at_ approx d;
         v ← at_ arow i;
         drow ← at_ dst d;
         x ← at_ drow (start + i);
         drow' ← set_at drow (start + i) (dadd x v);
         set_at dst d drow')
      n s) as (s' & Hrun' & Hs' & Hc').
    + split; [done|]. intros r c. rewrite decide_False by lia. done.
    + intros k s1 Hk (Hs1 & Hc1).
      destruct (lookup_lt_is_Some_2 arow k ltac:(lia)) as [v Hv].
      destruct (shape_lookup s1 dim N d Hs1 Hlt) as (drow & Hdrow & Hdl).
      destruct (lookup_lt_is_Some_2 drow (start + k) ltac:(lia)) as [x Hx].
      rewrite (at_Some _ _ _ Harow). simpl.
      rewrite (at_Some _ _ _ Hv). simpl.
      rewrite (at_Some _ _ _ Hdrow). simpl.
      rewrite (at_Some _ _ _ Hx). simpl.
      rewrite set_at_Some by lia. simpl.
      rewrite set_at_Some by (by eapply lookup_lt_Some).
      eexists. split; [done|]. split.
      * unfold shaped. rewrite <- Hs1.
        eapply map_length_insert; [done|]. by rewrite length_insert.
      * intros r c. rewrite (cell_insert s1 d drow) by (done || lia).
        case_decide as Hd1.
        -- destruct Hd1 as [-> ->]. rewrite decide_True by lia.
           assert (cell s1 d (start + k) = Some x) as Hcx.
           { unfold cell. rewrite Hdrow. done. }
           rewrite Hc1, decide_False in Hcx by lia.
           rewrite Hc, decide_False in Hcx by lia. rewrite Hcx. simpl.
           unfold cell. rewrite Harow. simpl.
           replace (start + k - start)%nat with k by lia. by rewrite Hv.
        -- rewrite Hc1. repeat case_decide; try done; lia.
    + exists s'. split; [done|]. split; [done|].
      intros r c. rewrite Hc'. case_decide as Hd1.
      * rewrite decide_True by lia. done.
      * rewrite Hc. repeat case_decide; try done; lia.
  - exists dst'. split; [done|]. split; [done|].
    intros r c. rewrite Hc. repeat case_decide; try done; try lia.
    assert (dim <= r)%nat as Hr by lia.
    assert (cell dst r c = None) as ->; [|done].
    unfold cell. rewrite (lookup_ge_None_2 dst r); [done|].
    rewrite (shaped_length _ _ _ Hd). lia.
Qed.

Lemma cell_madd (cur delta : list (list double)) r c :
  cell (madd cur delta) r c
  = x ← cell cur r c; v ← cell delta r c; Some (dadd x v).
Proof.
  unfold cell, madd. rewrite lookup_zip_with.
  destruct (cur !! r) as [row|]; simpl; [|done].
  destruct (delta !! r) as [drow|]; simpl.
  - rewrite lookup_zip_with. done.
  - by destruct (row !! c).
Qed.

Lemma shaped_madd dim n cur delta :
  shaped dim n cur -> shaped dim n delta -> shaped dim n (madd cur delta).
Proof.
  unfold shaped, madd. revert dim delta.
  induction cur as [|row cur IH]; intros dim [|drow delta] Hc Hd;
    destruct dim; simpl in *; try done.
  injection Hc as Hr Hc. injection Hd as Hdr Hd.
  rewrite length_zip_with, Hr, Hdr, Nat.min_id. f_equal. by apply IH.
Qed.

(** From column 0 and on a matrix of the delta's shape, [Append] is the
    element-wise sum. *)
Lemma Append_madd approx dst dim n :
  (0 < dim)%nat -> shaped dim n approx -> Z.of_nat n < 2 ^ 32 ->
  shaped dim n dst ->
  Append approx dst 0 = Ok (madd dst approx).
Proof.
  intros Hdim Ha Hn Hd.
  destruct (Append_cells approx dst 0 dim n n Hdim Ha Hn Hd ltac:(lia))
    as (dst' & Hrun & Hs & Hc).
  rewrite Hrun. f_equal. apply table_eq.
  - rewrite Hs. symmetry. by apply shaped_madd.
  - intros r c. rewrite Hc, cell_madd. case_decide as Hlt.
    + by rewrite Nat.sub_0_r.
    + assert (cell dst r c = None) as ->; [|done].
      unfold cell. destruct (decide (r < dim)%nat) as [Hr|Hr].
      * destruct (shape_lookup dst dim n r Hd Hr) as (row & Hrow & Hl).
        rewrite Hrow. simpl. apply lookup_ge_None_2. lia.
      * rewrite (lookup_ge_None_2 dst r); [done|].
        rewrite (shaped_length _ _ _ Hd). lia.
Qed.

Lemma EnsureSameBaseline_spec hasBaseline rest :
  EnsureSameBaseline hasBaseline rest
  = if forallb (fun p => eqb (has_baseline p) hasBaseline) rest
    then Ok tt else Fail ConfigurationError.
Proof.
  unfold EnsureSameBaseline.
  induction rest as [|p rest IH]; simpl; [done|].
  fold (has_baseline p). destruct (eqb (has_baseline p) hasBaseline); simpl.
  - apply IH.
  - done.
Qed.

Lemma resize_cleared dim (buf : matrix) :
  Forall (fun row => row = []) buf -> resize dim [] buf = replicate dim [].
Proof.
  intros H. unfold resize. apply list_eq. intros i.
  destruct (decide (i < dim)%nat) as [Hi|Hi].
  - rewrite lookup_replicate_2 by done.
    destruct (decide (i < length buf)%nat) as [Hb|Hb].
    + rewrite lookup_app_l by (rewrite length_take; lia).
      rewrite lookup_take_lt by done.
      destruct (lookup_lt_is_Some_2 buf i Hb) as [row Hrow]. rewrite Hrow.
      f_equal. eapply (proj1 (Forall_lookup _ _) H). done.
    + rewrite lookup_app_r by (rewrite length_take; lia).
      apply lookup_replicate_2. rewrite length_take. lia.
  - rewrite (lookup_ge_None_2 (replicate dim [])) by (rewrite length_replicate; lia).
    apply lookup_ge_None_2.
    rewrite length_app, length_take, length_replicate. lia.
Qed.

Lemma map_seq_lookup {A} (f : nat -> A) n r :
  map f (seq 0 n) !! r = if decide (r < n)%nat then Some (f r) else None.
Proof.
  change (map f) with (fmap (M := list) f). rewrite list_lookup_fmap.
  case_decide.
  - by rewrite lookup_seq_lt.
  - by rewrite lookup_seq_ge by lia.
Qed.

(** The row loop of [InitApproxBuffer] on a cleared buffer, when the row
    computation of every dimension goes through. *)
Lemma InitApproxBuffer_row_loop dim (rowc : nat -> list double -> outcome (list double))
  (rowf : nat -> list double) :
  (forall r, (r < dim)%nat -> rowc r [] = Ok (rowf r)) ->
  for_each (seq 0 dim)
    (fun approxMatrix approxIdx =>
       approx ← at_ approxMatrix approxIdx;
       approx' ← rowc approxIdx approx;
       set_at approxMatrix approxIdx approx')
    (replicate dim [])
  = Ok (map rowf (seq 0 dim)).
Proof.
  intros Hrow.
  destruct (for_each_seq_inv
    (fun k (s : list (list double)) =>
       length s = dim
       /\ forall r, s !! r = if decide (r < k)%nat then Some (rowf r)
                             else replicate dim [] !! r)
    (fun approxMatrix approxIdx =>
       approx ← at_ approxMatrix approxIdx;
       approx' ← rowc approxIdx approx;
       set_at approxMatrix approxIdx approx')
    dim (replicate dim [])) as (s & Hrun & Hlen & Hs).
  - split; [by rewrite length_replicate|]. intros r. by rewrite decide_False by lia.
  - intros k s Hk (Hlen & Hs).
    assert (s !! k = Some []) as Hsk.
    { rewrite Hs, decide_False by lia. by apply lookup_replicate_2. }
    rewrite (at_Some _ _ _ Hsk). simpl. rewrite Hrow by done. simpl.
    rewrite set_at_Some by lia. eexists. split; [done|].
    split; [by rewrite length_insert|].
    intros r. destruct (decide (r = k)) as [->|Hne].
    + rewrite list_lookup_insert_eq by lia. by rewrite decide_True by lia.
    + rewrite list_lookup_insert_ne by done. rewrite Hs.
      repeat case_decide; try done; lia.
  - rewrite Hrun. f_equal. apply list_eq. intros r.
    rewrite Hs, map_seq_lookup. case_decide; [done|].
    apply lookup_ge_None_2. rewrite length_replicate. lia.
Qed.

Lemma baseline_loop r : forall parts acc,
  Forall (fun p => (r < length (GetBaseline p))%nat) parts ->
  for_each parts
    (fun approx datasetPart =>
       baselinePart ← at_ (GetBaseline datasetPart) r;
       Ok (approx ++ map double_of_float baselinePart))
    acc
  = Ok (acc ++ seeded_row parts r).
Proof.
  induction parts as [|p parts IH]; intros acc Hall.
  - simpl. by rewrite app_nil_r.
  - apply Forall_cons in Hall as [Hp Hall]. simpl.
    destruct (lookup_lt_is_Some_2 _ _ Hp) as [row Hrow].
    rewrite (at_Some _ _ _ Hrow). simpl. rewrite IH by done.
    unfold seeded_row. simpl. rewrite Hrow. simpl. by rewrite <- app_assoc.
Qed.

Lemma map_const_seq {A} (x : A) n : map (fun _ => x) (seq 0 n) = replicate n x.
Proof.
  apply list_eq. intros r. rewrite map_seq_lookup. case_decide.
  - by rewrite lookup_replicate_2.
  - symmetry. apply lookup_ge_None_2. rewrite length_replicate. lia.
Qed.

(** [InitApproxBuffer] on a cleared buffer and a dataset of one or more
    parts. *)
Lemma InitApproxBuffer_spec dim part0 rest init buf :
  Forall (fun row => row = []) buf ->
  Forall (baseline_rows dim) (part0 :: rest) ->
  InitApproxBuffer dim (part0 :: rest) init buf
  = if init
    then
      if forallb (fun p => eqb (has_baseline p) (has_baseline part0)) rest
      then
        if has_baseline part0
        then Ok (baseline_matrix dim (part0 :: rest))
        else Ok (zero_matrix dim (GetDocCount (part0 :: rest)))
      else Fail ConfigurationError
    else Ok (zero_matrix dim (GetDocCount (part0 :: rest))).
Proof.
  intros Hbuf Hrows. unfold InitApproxBuffer.
  rewrite resize_cleared by done.
  assert (forall n,
    for_each (seq 0 dim)
      (fun approxMatrix approxIdx =>
         approx ← at_ approxMatrix approxIdx;
         approx' ← Ok (resize n dzero approx);
         set_at approxMatrix approxIdx approx')
      (replicate dim [])
    = Ok (zero_matrix dim n)) as Hzero.
  { intros n.
    rewrite (InitApproxBuffer_row_loop dim
               (fun _ approx => Ok (resize n dzero approx))
               (fun _ => replicate n dzero)).
    - by rewrite map_const_seq.
    - intros r _. unfold resize. rewrite take_nil. simpl length.
      by rewrite Nat.sub_0_r. }
  destruct init; simpl; [|apply Hzero].
  rewrite EnsureSameBaseline_spec. fold (has_baseline part0).
  destruct (forallb _ rest) eqn:Hsame; simpl; [|done].
  destruct (has_baseline part0) eqn:Hb0; [|apply Hzero].
  apply (InitApproxBuffer_row_loop dim
           (fun r approx =>
              for_each (part0 :: rest)
                (fun approx datasetPart =>
                   baselinePart ← at_ (GetBaseline datasetPart) r;
                   Ok (approx ++ map double_of_float baselinePart))
                approx)
           (seeded_row (part0 :: rest))).
  intros r Hr. rewrite baseline_loop; [done|].
  apply Forall_forall. intros p Hp.
  assert (has_baseline p = true) as Hbp.
  { apply elem_of_cons in Hp as [->|Hp]; [done|].
    rewrite forallb_forall in Hsame. apply list_elem_of_In in Hp.
    specialize (Hsame p Hp). by apply eqb_prop in Hsame. }
  rewrite Forall_forall in Hrows. rewrite (Hrows p Hp Hbp). done.
Qed.

(** ** A pass over one chunk from checkpoint slot 0 *)

Lemma for_each_traced_app {A St} (l1 l2 : list A) (body : St -> A -> traced St) s :
  for_each_traced (l1 ++ l2) body s
  = s' ← for_each_traced l1 body s; for_each_traced l2 body s'.
Proof.
  revert s. induction l1 as [|x l1 IH]; intros s; simpl.
  - unfold mbind, traced_bind, mret, traced_ret. simpl.
    by destruct (for_each_traced l2 body s) as [t []].
  - unfold mbind, traced_bind in *. destruct (body s x) as [t [s1|e]]; simpl.
    + rewrite IH. destruct (for_each_traced l1 body s1) as [t1 [s2|e1]]; simpl.
      * destruct (for_each_traced l2 body s2) as [t2 [s3|e2]]; simpl;
          by rewrite app_assoc.
      * done.
    + done.
Qed.

Lemma for_each_traced_seq_inv {St} (P : nat -> St -> list event -> Prop)
  (body : St -> nat -> traced St) n s :
  P 0%nat s [] ->
  (forall k s t, (k < n)%nat -> P k s t ->
     exists s', result (body s k) = Ok s' /\ P (S k) s' (t ++ trace (body s k))) ->
  exists s', result (for_each_traced (seq 0 n) body s) = Ok s'
             /\ P n s' (trace (for_each_traced (seq 0 n) body s)).
Proof.
  intros H0 Hstep. induction n as [|n IH].
  - exists s. by split.
  - destruct IH as (s1 & H1 & P1).
    { intros k s0 t Hk. apply Hstep. lia. }
    destruct (Hstep n s1 _ ltac:(lia) P1) as (s2 & H2 & P2).
    exists s2. rewrite seq_S, for_each_traced_app.
    unfold mbind, traced_bind. rewrite H1. simpl.
    unfold mbind, traced_bind. rewrite H2. simpl.
    by rewrite app_nil_r.
Qed.

Lemma metric_eval_Ok metric approx target weights queriesInfo :
  (if EErrorType_eqb (GetErrorType metric) PerObjectError
   then Ok (Eval metric approx target weights queriesInfo 0
              (int_of_size (length target)))
   else
     if EErrorType_eqb (GetErrorType metric) QuerywiseError
        || EErrorType_eqb (GetErrorType metric) PairwiseError
     then Ok (Eval metric approx target weights queriesInfo 0
                (int_of_size (length queriesInfo)))
     else Fail ConfigurationError)
  = Ok (metric_eval metric approx target weights queriesInfo).
Proof. unfold metric_eval. by destruct (GetErrorType metric). Qed.

(** [ComputeAdditiveMetric] merges one evaluation into the cell of every
    additive metric at the slot, and touches nothing else. *)
Lemma ComputeAdditiveMetric_spec approx target weights queriesInfo idx c :
  map length (AdditiveMetricPlots c)
  = replicate (length (AdditiveMetrics c)) (length (Iterations c)) ->
  (idx < length (Iterations c))%nat ->
  exists plots',
    ComputeAdditiveMetric approx target weights queriesInfo idx c
    = Ok (set_AdditiveMetricPlots plots' c)
    /\ map length plots' = map length (AdditiveMetricPlots c)
    /\ forall j i,
         cell plots' j i
         = if decide (i = idx)
           then metric ← AdditiveMetrics c !! j;
                holder ← cell (AdditiveMetricPlots c) j idx;
                Some (holder_Add holder
                        (metric_eval metric approx target weights queriesInfo))
           else cell (AdditiveMetricPlots c) j i.
Proof.
  intros Hshape Hidx. unfold ComputeAdditiveMetric.
  remember (AdditiveMetricPlots c) as plots eqn:Eplots.
  remember (AdditiveMetrics c) as metrics eqn:Emetrics.
  remember (length (Iterations c)) as cols eqn:Ecols.
  destruct (for_each_seq_inv
    (fun k s =>
       exists plots',
         s = set_AdditiveMetricPlots plots' c
         /\ map length plots' = map length plots
         /\ forall j i,
              cell plots' j i
              = if decide (j < k /\ i = idx)%nat
                then metric ← metrics !! j;
                     holder ← cell plots j idx;
                     Some (holder_Add holder
                             (metric_eval metric approx target weights
                                queriesInfo))
                else cell plots j i)
    (fun c metricId =>
       metric ← at_ (AdditiveMetrics c) metricId;
       let docCount := int_of_size (length target) in
       let queryCount := int_of_size (length queriesInfo) in
       metricResult ←
         (if EErrorType_eqb (GetErrorType metric) PerObjectError
          then Ok (Eval metric approx target weights queriesInfo 0 docCount)
          else
            if EErrorType_eqb (GetErrorType metric) QuerywiseError
               || EErrorType_eqb (GetErrorType metric) PairwiseError
            then Ok (Eval metric approx target weights queriesInfo 0 queryCount)
            else Fail ConfigurationError);
       plot ← at_ (AdditiveMetricPlots c) metricId;
       holder ← at_ plot idx;
       plot' ← set_at plot idx (holder_Add holder metricResult);
       plots' ← set_at (AdditiveMetricPlots c) metricId plot';
       Ok (set_AdditiveMetricPlots plots' c))
    (length metrics) c) as (c' & Hrun & plots' & -> & Hs & Hc).
  - exists plots. split; [subst plots; by destruct c|]. split; [done|].
    intros j i. by rewrite decide_False by lia.
  - intros k s Hk (plots1 & -> & Hs1 & Hc1). simpl.
    rewrite <- Emetrics.
    destruct (lookup_lt_is_Some_2 metrics k Hk) as [metric Hmetric].
    rewrite (at_Some _ _ _ Hmetric). simpl.
    rewrite metric_eval_Ok. simpl.
    assert (map length plots1 = replicate (length metrics) cols) as Hs1'
      by congruence.
    destruct (shape_lookup plots1 _ _ k Hs1' Hk) as (plot & Hplot & Hlen).
    destruct (lookup_lt_is_Some_2 plot idx ltac:(lia)) as [holder Hholder].
    rewrite (at_Some _ _ _ Hplot). simpl.
    rewrite (at_Some _ _ _ Hholder). simpl.
    rewrite set_at_Some by lia. simpl.
    rewrite set_at_Some by (by eapply lookup_lt_Some).
    eexists. split; [done|]. eexists. split; [done|]. split.
    + rewrite <- Hs1. eapply map_length_insert; [done|]. by rewrite length_insert.
    + intros j i. rewrite (cell_insert plots1 k plot idx) by (done || lia).
      assert (cell plots k idx = Some holder) as Hcell.
      { pose proof (Hc1 k idx) as Hk1. rewrite decide_False in Hk1 by lia.
        rewrite <- Hk1. unfold cell. rewrite Hplot. done. }
      case_decide as Hd.
      * destruct Hd as [-> ->]. rewrite decide_True by lia.
        rewrite Hmetric. simpl. by rewrite Hcell.
      * rewrite Hc1. repeat case_decide; try done; lia.
  - exists plots'. split; [done|]. split; [done|].
    intros j i. rewrite Hc. case_decide as Hd.
    + destruct Hd as [? ->]. by rewrite decide_True.
    + case_decide as Hi; [|done]. subst i.
      assert (length metrics <= j)%nat as Hj by lia.
      rewrite (lookup_ge_None_2 metrics j Hj). simpl.
      unfold cell. rewrite (lookup_ge_None_2 plots j); [done|].
      apply (f_equal length) in Hshape.
      rewrite length_map, length_replicate in Hshape. lia.
Qed.

(** ** Snapshot store *)

Lemma bind_eq {A B} (m : outcome A) (f : A -> outcome B) a r :
  m = Ok a -> f a = r -> m ≫= f = r.
Proof. by intros -> <-. Qed.

(** Below slot 2^32 - 1 the size [plotLineIndex + 1] does not wrap. *)
Lemma plotSize_small idx :
  Z.of_nat idx < 2 ^ 32 - 1 -> ui32_of_size (idx + 1) = (idx + 1)%nat.
Proof. intros H. apply ui32_of_size_small. lia. Qed.

Lemma ui32_of_size_le n : (ui32_of_size n <= n)%nat.
Proof.
  unfold ui32_of_size, wrap32.
  pose proof (Z.mod_le (Z.of_nat n) (2 ^ 32) ltac:(lia) ltac:(lia)).
  pose proof (Z.mod_pos_bound (Z.of_nat n) (2 ^ 32) ltac:(lia)). lia.
Qed.

Lemma GetApproxFileName_total idx c :
  Z.of_nat idx < 2 ^ 32 - 1 ->
  exists p c', GetApproxFileName idx c = Ok (p, c').
Proof.
  intros Hidx. unfold GetApproxFileName. rewrite plotSize_small by done.
  set (files := if (_ <? _)%nat then _ else _).
  assert (idx < length files)%nat as Hlen.
  { subst files.
    destruct (Nat.ltb_spec (length (ApproxFiles (NonAdditiveMetricsData c)))
                (idx + 1)).
    - unfold resize. rewrite length_app, length_take, length_replicate. lia.
    - lia. }
  destruct (lookup_lt_is_Some_2 files idx Hlen) as [name Hname].
  rewrite (at_Some _ _ _ Hname). simpl. destruct name as [p|].
  - eauto.
  - rewrite set_at_Some by done. simpl. eauto.
Qed.

(** At slot 2^32 - 1 the size wraps around to 0: a vector that does not
    reach the slot is not resized, and is indexed out of range. *)
Lemma GetApproxFileName_last_slot c :
  let idx := Z.to_nat (2 ^ 32 - 1) in
  (length (ApproxFiles (NonAdditiveMetricsData c)) <= idx)%nat ->
  GetApproxFileName idx c = Fail UndefinedBehaviour.
Proof.
  intros idx Hlen. unfold GetApproxFileName.
  assert (ui32_of_size (idx + 1) = 0%nat) as ->.
  { unfold ui32_of_size, wrap32.
    replace (Z.of_nat (idx + 1)) with (2 ^ 32) by (subst idx; lia).
    by rewrite Z_mod_same_full. }
  cbn [Nat.ltb Nat.leb]. unfold at_. by rewrite lookup_ge_None_2.
Qed.

Lemma document_line_loop (approx : list (list double)) dim n i :
  shaped dim n approx -> (i < n)%nat ->
  forall line : list double, length line = dim ->
  for_each (seq 0 dim)
    (fun line d => row ← at_ approx d; v ← at_ row i; set_at line d v) line
  = Ok (document_line approx i).
Proof.
  intros Ha Hi line Hlen.
  destruct (for_each_seq_inv
    (fun k (s : list double) =>
       length s = dim
       /\ forall d, s !! d = if decide (d < k)%nat
                             then document_line approx i !! d
                             else line !! d)
    (fun line d => row ← at_ approx d; v ← at_ row i; set_at line d v)
    dim line) as (s & Hrun & Hl & Hs).
  - split; [done|]. intros d. by rewrite decide_False by lia.
  - intros k s Hk (Hl & Hs).
    destruct (shape_lookup approx dim n k Ha Hk) as (row & Hrow & Hrl).
    destruct (lookup_lt_is_Some_2 row i ltac:(lia)) as [v Hv].
    rewrite (at_Some _ _ _ Hrow). simpl. rewrite (at_Some _ _ _ Hv). simpl.
    rewrite set_at_Some by lia. eexists. split; [done|].
    split; [by rewrite length_insert|].
    intros d. destruct (decide (d = k)) as [->|Hne].
    + rewrite list_lookup_insert_eq by lia. rewrite decide_True by lia.
      unfold document_line.
      change (map ?f) with (fmap (M := list) f).
      rewrite list_lookup_fmap, Hrow. simpl. by rewrite Hv.
    + rewrite list_lookup_insert_ne by done. rewrite Hs.
      repeat case_decide; try done; lia.
  - rewrite Hrun. f_equal. apply list_eq. intros d. rewrite Hs.
    case_decide as Hd; [done|].
    rewrite (lookup_ge_None_2 line) by lia. symmetry.
    apply lookup_ge_None_2. unfold document_line.
    rewrite length_map, (shaped_length _ _ _ Ha). lia.
Qed.

Lemma document_line_length approx dim n i :
  shaped dim n approx -> length (document_line approx i) = dim.
Proof.
  intros Ha. unfold document_line. by rewrite length_map, (shaped_length _ _ _ Ha).
Qed.

Lemma serialized_S approx n :
  serialized approx (S n)
  = serialized approx n ++ SaveLine (document_line approx n).
Proof.
  unfold serialized. rewrite seq_S, flat_map_app. simpl. by rewrite app_nil_r.
Qed.

(** [SaveApproxToFile] appends the snapshot of the matrix to the file of the
    slot. *)
Lemma SaveApproxToFile_spec idx (approx : list (list double)) dim n c :
  Z.of_nat idx < 2 ^ 32 - 1 ->
  (0 < dim)%nat -> shaped dim n approx -> Z.of_nat n < 2 ^ 32 ->
  exists p c1,
    GetApproxFileName idx c = Ok (p, c1)
    /\ SaveApproxToFile idx approx c
       = Ok (set_Scratch
               (set_Files
                  (<[p := default [] (Files (Scratch c1) !! p)
                          ++ serialized approx n]> (Files (Scratch c1)))
                  (Scratch c1)) c1).
Proof.
  intros Hidx Hdim Ha Hn.
  destruct (GetApproxFileName_total idx c Hidx) as (p & c1 & Hname).
  exists p, c1. split; [done|].
  unfold SaveApproxToFile. rewrite Hname. simpl.
  destruct (shape_lookup approx dim n 0 Ha Hdim) as (row0 & Hrow0 & Hl0).
  rewrite (at_Some _ _ _ Hrow0). simpl.
  rewrite Hl0, ui32_of_size_small by done.
  rewrite (shaped_length _ _ _ Ha).
  set (out0 := default [] (Files (Scratch c1) !! p)).
  destruct (for_each_seq_inv
    (fun k (s : file * list double) =>
       s.1 = out0 ++ serialized approx k /\ length s.2 = dim)
    (fun '(out, line) i =>
       line ←
         for_each (seq 0 dim)
           (fun line d => row ← at_ approx d; v ← at_ row i; set_at line d v)
           line;
       Ok (out ++ SaveLine line, line))
    n (out0, replicate dim dzero)) as ([out line] & Hrun & Hout & Hline).
  - simpl. split; [by rewrite app_nil_r|by rewrite length_replicate].
  - intros k [out line] Hk [Hout Hline]. simpl in *.
    rewrite (document_line_loop approx dim n k Ha Hk line Hline). simpl.
    eexists. split; [done|]. simpl. split.
    + by rewrite Hout, serialized_S, app_assoc.
    + by eapply document_line_length.
  - eapply bind_eq; [exact Hrun|]. simpl in *. by rewrite Hout.
Qed.

(** [Load] reads back what [SaveApproxToFile] wrote. *)
Lemma Load_serialized (approx output : list (list double)) dim n rest :
  codec_lossless ->
  Z.of_nat dim < 2 ^ 31 ->
  shaped dim n approx -> Forall (Forall is_double) approx ->
  shaped dim n output ->
  Load n (serialized approx n ++ rest) output = Ok (approx, rest).
Proof.
  intros Hcodec Hdim Ha Hval Ho. unfold Load.
  assert (forall i, Forall is_double (document_line approx i)) as Hlinev.
  { intros i. unfold document_line. apply Forall_forall. intros x Hx.
    apply list_elem_of_fmap in Hx as (row & -> & Hrow).
    destruct (row !! i) as [v|] eqn:Hv; simpl; [|done].
    rewrite Forall_forall in Hval. specialize (Hval row Hrow).
    rewrite Forall_forall in Hval. apply Hval. by eapply list_elem_of_lookup_2. }
  destruct (for_each_seq_inv
    (fun k (s : list (list double) * file) =>
       shaped dim n s.1
       /\ s.2 = flat_map (fun i => SaveLine (document_line approx i))
                  (seq k (n - k)) ++ rest
       /\ forall r c, cell s.1 r c = if decide (c < k)%nat
                                     then cell approx r c else cell output r c)
    (fun '(output, input) i =>
       match LoadLine input with
       | None => Fail ConsistencyViolation
       | Some (line, input') =>
           output' ←
             for_each (seq 0 (length output))
               (fun output dim =>
                  v ← at_ line dim;
                  row ← at_ output dim;
                  row' ← set_at row i v;
                  set_at output dim row')
               output;
           Ok (output', input')
       end)
    n (output, serialized approx n ++ rest)) as ([out input] & Hrun & Hs & Hin & Hc).
  - cbn [fst snd]. split; [done|]. split; [by rewrite Nat.sub_0_r|].
    intros r c. by rewrite decide_False by lia.
  - intros k [out input] Hk (Hs & Hin & Hc). cbn [fst snd] in *.
    replace (n - k)%nat with (S (n - S k)) in Hin by lia.
    simpl in Hin. rewrite <- app_assoc in Hin. rewrite Hin.
    rewrite Hcodec; [|done|by rewrite (document_line_length _ dim n)].
    rewrite (shaped_length _ _ _ Hs).
    destruct (for_each_seq_inv
      (fun d (s : list (list double)) =>
         shaped dim n s
         /\ forall r c, cell s r c = if decide (r < d /\ c = k)%nat
                                     then cell approx r c else cell out r c)
      (fun output dim =>
         v ← at_ (document_line approx k) dim;
         row ← at_ output dim;
         row' ← set_at row k v;
         set_at output dim row')
      dim out) as (out' & Hrun' & Hs' & Hc').
    + split; [done|]. intros r c. by rewrite decide_False by lia.
    + intros d s Hd (Hss & Hcs).
      destruct (shape_lookup approx dim n d Ha Hd) as (arow & Harow & Harl).
      destruct (lookup_lt_is_Some_2 arow k ltac:(lia)) as [v Hv].
      assert (document_line approx k !! d = Some v) as Hline.
      { unfold document_line. change (map ?f) with (fmap (M := list) f).
        rewrite list_lookup_fmap, Harow. simpl. by rewrite Hv. }
      destruct (shape_lookup s dim n d Hss Hd) as (row & Hrow & Hrl).
      rewrite (at_Some _ _ _ Hline). simpl.
      rewrite (at_Some _ _ _ Hrow). simpl.
      rewrite set_at_Some by lia. simpl.
      rewrite set_at_Some by (by eapply lookup_lt_Some).
      eexists. split; [done|]. split.
      * unfold shaped. rewrite <- Hss.
        eapply map_length_insert; [done|]. by rewrite length_insert.
      * intros r c. rewrite (cell_insert s d row k) by (done || lia).
        case_decide as Hd1.
        -- destruct Hd1 as [-> ->]. rewrite decide_True by lia.
           unfold cell. rewrite Harow. simpl. by rewrite Hv.
        -- rewrite Hcs. repeat case_decide; try done; lia.
    + rewrite Hrun'. simpl. eexists. split; [done|]. simpl.
      split; [done|]. split; [done|].
      intros r c. rewrite Hc'. case_decide as Hd1.
      * destruct Hd1 as [? ->]. by rewrite decide_True by lia.
      * rewrite Hc. repeat case_decide; try done; try lia.
        assert (c = k) as -> by lia. assert (dim <= r)%nat as Hr by lia.
        unfold cell.
        rewrite (lookup_ge_None_2 approx r) by (by rewrite (shaped_length _ _ _ Ha)).
        by rewrite (lookup_ge_None_2 output r) by (by rewrite (shaped_length _ _ _ Ho)).
  - etransitivity; [exact Hrun|].
    cbn [fst snd] in *. rewrite Nat.sub_diag in Hin. simpl in Hin.
    f_equal. f_equal; [|done]. apply table_eq.
    + by rewrite Hs, Ha.
    + intros r c. rewrite Hc. case_decide as Hlt; [done|].
      destruct (decide (r < dim)%nat) as [Hr|Hr].
      * destruct (shape_lookup approx dim n r Ha Hr) as (row & Hrow & Hl).
        destruct (shape_lookup output dim n r Ho Hr) as (orow & Horow & Hol).
        unfold cell. rewrite Hrow, Horow. simpl.
        rewrite !lookup_ge_None_2 by lia. done.
      * unfold cell.
        rewrite (lookup_ge_None_2 approx r) by (rewrite (shaped_length _ _ _ Ha); lia).
        by rewrite (lookup_ge_None_2 output r) by (rewrite (shaped_length _ _ _ Ho); lia).
Qed.

Lemma lift_bind {A B} (a : A) (f : A -> traced B) : lift (Ok a) ≫= f = f a.
Proof. unfold lift, mbind, traced_bind. simpl. by destruct (f a). Qed.

Lemma traced_bind_run {A B} (m : traced A) (f : A -> traced B) a :
  result m = Ok a ->
  result (m ≫= f) = result (f a) /\ trace (m ≫= f) = trace m ++ trace (f a).
Proof. intros H. unfold mbind, traced_bind. by rewrite H. Qed.

Lemma shaped_initial_matrix d :
  chunk_ok d -> shaped ApproxDimension (GetObjectCount d) (initial_matrix d).
Proof.
  intros [Hcount Hbase Happly]. unfold initial_matrix, shaped.
  destruct (has_baseline d) eqn:Hb.
  - specialize (Hbase eq_refl). unfold baseline_matrix.
    apply list_eq. intros r.
    change (map length) with (fmap (M := list) (length (A := double))).
    rewrite list_lookup_fmap, map_seq_lookup. case_decide as Hr.
    + rewrite lookup_replicate_2 by done. simpl. f_equal.
      unfold seeded_row. simpl. rewrite app_nil_r, length_map.
      destruct (shape_lookup _ _ _ r Hbase Hr) as (row & Hrow & Hl).
      by rewrite Hrow.
    + simpl. symmetry. apply lookup_ge_None_2. rewrite length_replicate. lia.
  - unfold zero_matrix.
    change (map length) with (fmap (M := list) (length (A := double))).
    by rewrite fmap_replicate, length_replicate.
Qed.

Lemma shaped_running d its k :
  chunk_ok d ->
  shaped ApproxDimension (GetObjectCount d)
    (running (ObjectsData d) its (initial_matrix d) k).
Proof.
  intros Hok. induction k as [|k IH]; simpl.
  - by apply shaped_initial_matrix.
  - apply shaped_madd; [done|]. apply Hok.
Qed.

Lemma InitApproxBuffer_chunk d buf :
  chunk_ok d -> Forall (fun row => row = []) buf ->
  InitApproxBuffer ApproxDimension [d] true buf = Ok (initial_matrix d).
Proof.
  intros [Hcount Hbase Happly] Hbuf.
  rewrite InitApproxBuffer_spec; [|done|].
  - simpl. unfold initial_matrix, GetDocCount. simpl.
    rewrite ui32_of_size_small by done. by destruct (has_baseline d).
  - constructor; [|done]. intros Hb. specialize (Hbase Hb).
    apply (f_equal length) in Hbase.
    by rewrite length_map, length_replicate in Hbase.
Qed.

Lemma pass_events_S objects its init n :
  pass_events objects its init (S n)
  = pass_events objects its init n
    ++ [EvApply 0 (range_begin its n) (range_end its n);
        EvApprox n (running objects its init (S n))].
Proof.
  unfold pass_events. rewrite seq_S, flat_map_app. simpl. done.
Qed.

(** The checkpoint loop of [ProceedDataSet] from slot 0, for a consumer of the
    checkpoint matrices that keeps an invariant [J]. *)
Lemma ProceedDataSet_pass (J : nat -> TMetricsPlotCalcer -> Prop) d n
  (isAdditive : bool) c :
  (0 < ApproxDimension)%nat -> chunk_ok d ->
  Forall (fun row => row = []) (CurApproxBuffer c) ->
  (n <= length (Iterations c))%nat ->
  J 0%nat (set_CurApproxBuffer (initial_matrix d) c) ->
  (forall k (c1 : TMetricsPlotCalcer),
     (k < n)%nat -> J k c1 -> Iterations c1 = Iterations c ->
     let m := running (ObjectsData d) (Iterations c) (initial_matrix d) (S k) in
     let c2 :=
       set_CurApproxBuffer m
         (set_NextApproxBuffer
            (ApplyModelMulti (ObjectsData d) (range_begin (Iterations c) k)
               (range_end (Iterations c) k)) c1) in
     exists c3,
       (if isAdditive
        then ComputeAdditiveMetric m (GetTarget d) (GetWeights d)
               (GetGroupInfo d) k c2
        else SaveApproxToFile k m c2) = Ok c3
       /\ J (S k) c3 /\ Iterations c3 = Iterations c
       /\ CurApproxBuffer c3 = m) ->
  exists c',
    result (ProceedDataSet d 0 n isAdditive c)
    = Ok (set_NextApproxBuffer (ClearApproxBuffer (NextApproxBuffer c'))
            (set_CurApproxBuffer (ClearApproxBuffer (CurApproxBuffer c')) c'))
    /\ J n c'
    /\ trace (ProceedDataSet d 0 n isAdditive c)
       = pass_events (ObjectsData d) (Iterations c) (initial_matrix d) n.
Proof.
  intros Hdim Hok Hbuf Hn HJ0 Hstep.
  unfold ProceedDataSet. cbn [Nat.eqb].
  rewrite InitApproxBuffer_chunk by done.
  rewrite lift_bind, lift_bind, Nat.sub_0_r.
  set (its := Iterations c) in *. set (init := initial_matrix d) in *.
  set (objects := ObjectsData d) in *.
  match goal with |- context [for_each_traced _ ?body ?s0] =>
    destruct (for_each_traced_seq_inv
      (fun k (s : Z * TMetricsPlotCalcer) t =>
         s.1 = range_begin its k /\ Iterations s.2 = its
         /\ CurApproxBuffer s.2 = running objects its init k
         /\ J k s.2 /\ t = pass_events objects its init k)
      body n s0) as ([b c'] & Hrun & Hb & Hits & Hcur & HJ & Htrace)
  end.
  - cbn [fst snd]. done.
  - intros k [b c1] t Hk (Hb & Hits & Hcur & HJ & Ht). cbn [fst snd] in *.
    subst b t.
    assert (its !! k = Some (nth k its 0)) as Hit.
    { destruct (lookup_lt_is_Some_2 its k ltac:(lia)) as [x Hx].
      by rewrite (nth_lookup_Some _ _ 0 _ Hx). }
    rewrite Hits, (at_Some _ _ _ Hit), lift_bind.
    fold (range_end its k).
    assert (Append (ApplyModelMulti objects (range_begin its k) (range_end its k))
              (running objects its init k) 0
            = Ok (running objects its init (S k))) as Happ.
    { apply (Append_madd _ _ ApproxDimension (GetObjectCount d)); try done.
      - apply Hok.
      - apply Hok.
      - by apply shaped_running. }
    destruct (Hstep k c1 Hk HJ Hits) as (c3 & Hcons & HJ3 & Hits3 & Hcur3).
    cbn zeta in Hcons.
    unfold mbind at 1, traced_bind at 1. cbn [emit result trace].
    cbn [NextApproxBuffer CurApproxBuffer set_NextApproxBuffer].
    rewrite Hcur, Happ, lift_bind.
    unfold mbind at 1, traced_bind at 1. cbn [emit result trace].
    cbn [CurApproxBuffer set_CurApproxBuffer].
    rewrite Hcons, lift_bind. cbn [mret traced_ret result trace fst snd].
    eexists. split; [done|]. cbn [fst snd].
    split; [done|]. split; [done|]. split; [done|]. split; [done|].
    by rewrite pass_events_S.
  - cbn [fst snd] in *.
    destruct (traced_bind_run _
                (fun '(_, c) =>
                   mret (set_NextApproxBuffer
                           (ClearApproxBuffer (NextApproxBuffer c))
                           (set_CurApproxBuffer
                              (ClearApproxBuffer (CurApproxBuffer c)) c)))
                _ Hrun) as [Hres Htr].
    exists c'. split; [exact Hres|]. split; [done|].
    etransitivity; [exact Htr|]. cbn [mret traced_ret trace].
    by rewrite app_nil_r.
Qed.

(** ** The checkpoint list of a constructed calcer *)

Lemma BuildIterations_more fuel k first last_ step r :
  BuildIterations fuel first last_ step = Some r ->
  BuildIterations (fuel + k) first last_ step = Some r.
Proof.
  unfold BuildIterations.
  destruct (IterationsLoop fuel last_ step first []) as [its|] eqn:E; [|done].
  by rewrite (IterationsLoop_more _ k _ _ _ _ _ E).
Qed.

Lemma BuildIterations_agree fuel1 fuel2 first last_ step r1 r2 :
  BuildIterations fuel1 first last_ step = Some r1 ->
  BuildIterations fuel2 first last_ step = Some r2 -> r1 = r2.
Proof.
  intros H1 H2.
  apply (BuildIterations_more _ fuel2) in H1.
  apply (BuildIterations_more _ fuel1) in H2.
  rewrite (Nat.add_comm fuel2 fuel1) in H2. congruence.
Qed.

(** The arguments that [CreateMetricCalcer] passes to the constructor keep
    the loop counter below 2^32. *)
Lemma CreateMetricCalcer_counter_fits treeCount begin_ end_ evalPeriod :
  0 <= begin_ -> 0 <= end_ < 2 ^ 31 -> 0 < treeCount < 2 ^ 31 ->
  1 <= evalPeriod < 2 ^ 31 ->
  let last_ := if end_ =? 0 then treeCount else Z.min end_ treeCount in
  let step := if evalPeriod >? last_ - begin_ then last_ - begin_
              else evalPeriod in
  begin_ < last_ ->
  wrap32 begin_ = begin_ /\ wrap32 last_ = last_ /\ wrap32 step = step
  /\ 1 <= step /\ counter_fits begin_ last_ step.
Proof.
  intros Hb He Ht Hp last_ step Hlt.
  change (2 ^ 31) with 2147483648 in *.
  assert (0 < last_ < 2147483648) as Hlast.
  { subst last_. destruct (end_ =? 0); lia. }
  assert (1 <= step <= last_ - begin_) as Hstep.
  { subst step. destruct (Z.gtb_spec evalPeriod (last_ - begin_)); lia. }
  destruct (stepped_count_bounds begin_ last_ step Hlt ltac:(lia))
    as (Hn & Hlo & Hhi).
  unfold counter_fits.
  change (2 ^ 32) with 4294967296.
  repeat split; try (apply wrap32_small; change (2 ^ 32) with 4294967296; lia);
    try lia.
Qed.

(** C2 (as amended): for every first < last and step >= 1 whose loop counter
    stays below 2^32, the constructor's checkpoint list is first,
    first + step, ... for all values below last, with last - 1 appended when
    the last generated value is not last - 1; it is strictly increasing,
    starts at first and ends at last - 1; and no operation of the calcer
    changes it afterwards. *)
Theorem checkpoints_planned_when_counter_fits first last_ step :
  0 <= first -> first < last_ -> last_ < 2 ^ 32 -> 1 <= step ->
  counter_fits first last_ step ->
  (forall fuel, (stepped_count first last_ step < fuel)%nat ->
     BuildIterations fuel first last_ step
     = Some (Ok (planned_checkpoints first last_ step)))
  /\ strictly_increasing (planned_checkpoints first last_ step)
  /\ planned_checkpoints first last_ step !! 0%nat = Some first
  /\ last (planned_checkpoints first last_ step) = Some (last_ - 1)
  /\ forall fuel metrics tmpDirExists processIterationStep c,
       MakeCalcer fuel metrics tmpDirExists first last_ step
         processIterationStep = Some (Ok c) ->
       Iterations c = planned_checkpoints first last_ step
       /\ forall ops c',
            result (perform_all ops c) = Ok c' ->
            Iterations c' = planned_checkpoints first last_ step.
Proof.
  intros H0 Hfl Hl Hs Hfit.
  destruct (planned_checkpoints_shape first last_ step Hfl ltac:(lia))
    as (Hinc & Hhd & Hlast).
  split; [|split; [done|split; [done|split; [done|]]]].
  - intros fuel Hfuel. apply BuildIterations_planned; (done || lia).
  - intros fuel metrics tde pis c Hc.
    apply MakeCalcer_Ok in Hc as (Hits & _).
    assert (Iterations c = planned_checkpoints first last_ step) as Heq.
    { pose proof (BuildIterations_planned first last_ step
                    (S (stepped_count first last_ step))
                    H0 Hfl Hl ltac:(lia) Hfit ltac:(lia)) as Hp.
      pose proof (BuildIterations_agree _ _ _ _ _ _ _ Hits Hp) as Ha.
      by injection Ha. }
    split; [done|]. intros ops c' Hops.
    apply perform_all_frame in Hops. by rewrite (fr_Iterations _ _ Hops).
Qed.

(** ** Construction and the two metric groups *)

Lemma EErrorType_eqb_eq a b : EErrorType_eqb a b = true <-> a = b.
Proof. destruct a, b; simpl; split; (done || discriminate). Qed.

Lemma slots_from_elem p : forall metrics k i metric,
  metrics !! i = Some metric -> p metric = true ->
  (k + i)%nat ∈ slots_from k p metrics.
Proof.
  induction metrics as [|m ms IH]; intros k i metric Hi Hp.
  - by rewrite lookup_nil in Hi.
  - destruct i as [|i]; simpl in *.
    + injection Hi as ->. rewrite Hp, Nat.add_0_r. left.
    + replace (k + S i)%nat with (S k + i)%nat by lia.
      destruct (p m); [right|]; by eapply IH.
Qed.

Lemma grouped_slot (p : IMetric -> bool) metrics slot metric :
  metrics !! slot = Some metric -> p metric = true ->
  exists j, slots_from 0 p metrics !! j = Some slot
            /\ List.filter p metrics !! j = Some metric.
Proof.
  intros Hslot Hp.
  pose proof (slots_from_elem p metrics 0 slot metric Hslot Hp) as Hin.
  apply list_elem_of_lookup_1 in Hin as [j Hj]. exists j. split; [done|].
  apply slots_from_filter in Hj as (_ & Hf & _).
  by rewrite Hf, Nat.sub_0_r.
Qed.

Lemma grouped_slot_not (p : IMetric -> bool) metrics slot metric :
  metrics !! slot = Some metric -> p metric = false ->
  slot ∉ slots_from 0 p metrics.
Proof.
  intros Hslot Hp Hin. apply list_elem_of_lookup_1 in Hin as [j Hj].
  apply slots_from_filter in Hj as (_ & _ & m & Hm & Hpm).
  rewrite Nat.sub_0_r in Hm. congruence.
Qed.

(** C6: construction classifies the metrics in caller order; it fails with a
    configuration error if some metric is non-additive with an error type
    other than PerObject, and otherwise puts every metric into exactly one
    group and records its original slot. *)
Theorem construction_classifies_metrics fuel metrics tmpDirExists first last_
  step processIterationStep its :
  EnsureCorrectParams first last_ step = Ok tt ->
  BuildIterations fuel first last_ step = Some (Ok its) ->
  ((exists metric, metric ∈ metrics /\ IsAdditiveMetric metric = false
                   /\ GetErrorType metric <> PerObjectError) ->
   MakeCalcer fuel metrics tmpDirExists first last_ step processIterationStep
   = Some (Fail ConfigurationError))
  /\ ((forall metric, metric ∈ metrics ->
         IsAdditiveMetric metric = true
         \/ GetErrorType metric = PerObjectError) ->
      exists c,
        MakeCalcer fuel metrics tmpDirExists first last_ step
          processIterationStep = Some (Ok c)
        /\ AdditiveMetrics c = List.filter IsAdditiveMetric metrics
        /\ NonAdditiveMetrics c = List.filter NonAdditive metrics
        /\ NoDup (AdditiveMetricsIndices c ++ NonAdditiveMetricsIndices c)
        /\ forall slot metric, metrics !! slot = Some metric ->
             if IsAdditiveMetric metric
             then (exists j, AdditiveMetricsIndices c !! j = Some slot
                             /\ AdditiveMetrics c !! j = Some metric)
                  /\ slot ∉ NonAdditiveMetricsIndices c
             else (exists j, NonAdditiveMetricsIndices c !! j = Some slot
                             /\ NonAdditiveMetrics c !! j = Some metric)
                  /\ slot ∉ AdditiveMetricsIndices c).
Proof.
  intros Hparams Hits. unfold MakeCalcer. rewrite Hparams, Hits.
  rewrite ClassifyMetrics_spec. simpl. split.
  - intros (metric & Hin & Hadd & Herr).
    assert (forallb supported metrics = false) as ->; [|done].
    apply not_true_is_false. intros Hall. rewrite forallb_forall in Hall.
    apply list_elem_of_In in Hin. specialize (Hall metric Hin).
    unfold supported in Hall. rewrite Hadd in Hall. simpl in Hall.
    by apply EErrorType_eqb_eq in Hall.
  - intros Hall.
    assert (forallb supported metrics = true) as ->.
    { apply forallb_forall. intros metric Hin. apply list_elem_of_In in Hin.
      unfold supported. destruct (Hall metric Hin) as [->| ->]; [done|].
      apply orb_true_r. }
    simpl. eexists. split; [done|]. simpl.
    split; [done|]. split; [done|]. split.
    + rewrite (slots_from_partition 0 metrics).
      apply NoDup_ListNoDup, List.seq_NoDup.
    + intros slot metric Hslot.
      destruct (IsAdditiveMetric metric) eqn:Hadd.
      * split; [by apply grouped_slot|].
        apply (grouped_slot_not NonAdditive _ _ metric); [done|].
        unfold NonAdditive. by rewrite Hadd.
      * split; [|by apply (grouped_slot_not IsAdditiveMetric _ _ metric)].
        apply grouped_slot; [done|]. unfold NonAdditive. by rewrite Hadd.
Qed.

(** ** The score matrix *)

Lemma plots_shaped_frame c c' : frame c c' -> plots_shaped c -> plots_shaped c'.
Proof.
  intros F [Ha Hn]. unfold plots_shaped.
  rewrite (fr_AdditiveMetricPlots _ _ F), (fr_NonAdditiveMetricPlots _ _ F),
    (fr_AdditiveMetrics _ _ F), (fr_NonAdditiveMetrics _ _ F),
    (fr_Iterations _ _ F). done.
Qed.

Lemma grouped_frame metrics c c' : frame c c' -> grouped metrics c -> grouped metrics c'.
Proof.
  intros F (H1 & H2 & H3 & H4). unfold grouped.
  rewrite (fr_AdditiveMetrics _ _ F), (fr_NonAdditiveMetrics _ _ F),
    (fr_AdditiveMetricsIndices _ _ F), (fr_NonAdditiveMetricsIndices _ _ F).
  done.
Qed.

Lemma scores_at_original_slots metrics c :
  grouped metrics c -> plots_shaped c ->
  exists score,
    GetMetricsScore c = Ok score
    /\ forall slot metric i,
         metrics !! slot = Some metric -> (i < length (Iterations c))%nat ->
         exists j holder,
           (if IsAdditiveMetric metric
            then AdditiveMetricsIndices c !! j = Some slot
                 /\ cell (AdditiveMetricPlots c) j i = Some holder
            else NonAdditiveMetricsIndices c !! j = Some slot
                 /\ cell (NonAdditiveMetricPlots c) j i = Some holder)
           /\ cell score slot i = Some (GetFinalError metric holder).
Proof.
  intros Hg Hp.
  destruct (GetMetricsScore_spec metrics c Hg Hp) as (score & Hrun & Hshape & Hcells).
  exists score. split; [done|].
  intros slot metric i Hslot Hi.
  destruct (Hcells i Hi) as [Ha Hn].
  destruct Hg as (Hg1 & Hg2 & Hg3 & Hg4).
  destruct (IsAdditiveMetric metric) eqn:Hadd.
  - destruct (grouped_slot IsAdditiveMetric metrics slot metric Hslot Hadd)
      as (j & Hj & Hm).
    rewrite <- Hg2 in Hj. rewrite <- Hg1 in Hm.
    destruct (Ha j slot Hj) as [[v Hv] Hcell].
    unfold finalized in Hv, Hcell. rewrite Hm in Hv, Hcell. simpl in *.
    destruct (cell (AdditiveMetricPlots c) j i) as [holder|] eqn:Hh; [|done].
    exists j, holder. done.
  - assert (NonAdditive metric = true) as Hnon
      by (unfold NonAdditive; by rewrite Hadd).
    destruct (grouped_slot NonAdditive metrics slot metric Hslot Hnon)
      as (j & Hj & Hm).
    rewrite <- Hg4 in Hj. rewrite <- Hg3 in Hm.
    destruct (Hn j slot Hj) as [[v Hv] Hcell].
    unfold finalized in Hv, Hcell. rewrite Hm in Hv, Hcell. simpl in *.
    destruct (cell (NonAdditiveMetricPlots c) j i) as [holder|] eqn:Hh; [|done].
    exists j, holder. done.
Qed.

(** C7: for every successfully constructed calcer, after any operations, the
    score matrix has one row per supplied metric, at the metric's original
    slot whatever its group, and one column per checkpoint; each cell is the
    finalization of that metric's accumulator at that checkpoint. *)
Theorem score_matrix_by_original_slot fuel metrics tmpDirExists first last_ step
  processIterationStep c0 ops c :
  MakeCalcer fuel metrics tmpDirExists first last_ step processIterationStep
  = Some (Ok c0) ->
  result (perform_all ops c0) = Ok c ->
  exists score,
    GetMetricsScore c = Ok score
    /\ length score = length metrics
    /\ Forall (fun row => length row = length (Iterations c)) score
    /\ forall slot metric i,
         metrics !! slot = Some metric -> (i < length (Iterations c))%nat ->
         exists j holder,
           (if IsAdditiveMetric metric
            then AdditiveMetricsIndices c !! j = Some slot
                 /\ cell (AdditiveMetricPlots c) j i = Some holder
            else NonAdditiveMetricsIndices c !! j = Some slot
                 /\ cell (NonAdditiveMetricPlots c) j i = Some holder)
           /\ cell score slot i = Some (GetFinalError metric holder).
Proof.
  intros Hmake Hops.
  apply MakeCalcer_Ok in Hmake as (_ & _ & Hg0 & Hp0 & _).
  apply perform_all_frame in Hops.
  pose proof (grouped_frame _ _ _ Hops Hg0) as Hg.
  pose proof (plots_shaped_frame _ _ Hops Hp0) as Hp.
  destruct (GetMetricsScore_spec metrics c Hg Hp) as (score & Hrun & Hshape & _).
  destruct (scores_at_original_slots metrics c Hg Hp)
    as (score' & Hrun' & Hcells).
  assert (score' = score) as -> by congruence.
  exists score. split; [done|]. split.
  { apply (f_equal length) in Hshape.
    by rewrite length_map, length_replicate in Hshape. }
  split; [|done].
  apply Forall_forall. intros row Hrow.
  assert (length row ∈ map length score) as Hin.
  { change (map length) with (fmap (M := list) (length (A := double))).
    by apply list_elem_of_fmap_2. }
  rewrite Hshape in Hin. by apply elem_of_replicate in Hin as [? _].
Qed.

(** C10: construction establishes the shape of the two plot tables (one row
    per metric of the group, one cell per checkpoint), every operation keeps
    it, and so the score matrix always exists with one row per supplied
    metric and one column per checkpoint; before any chunk is processed its
    cells are the finalizations of the empty accumulator. *)
Theorem plot_tables_keep_their_shape fuel metrics tmpDirExists first last_ step
  processIterationStep c0 :
  MakeCalcer fuel metrics tmpDirExists first last_ step processIterationStep
  = Some (Ok c0) ->
  plots_shaped c0
  /\ (forall ops c,
        result (perform_all ops c0) = Ok c ->
        plots_shaped c
        /\ exists score,
             GetMetricsScore c = Ok score
             /\ map length score
                = replicate (length metrics) (length (Iterations c0)))
  /\ exists score0,
       GetMetricsScore c0 = Ok score0
       /\ forall slot metric i,
            metrics !! slot = Some metric -> (i < length (Iterations c0))%nat ->
            cell score0 slot i = Some (GetFinalError metric holder_default).
Proof.
  intros Hmake.
  pose proof (MakeCalcer_Ok _ _ _ _ _ _ _ _ Hmake)
    as (_ & _ & Hg0 & Hp0 & Hadd0 & Hnon0 & _).
  split; [done|]. split.
  - intros ops c Hops. apply perform_all_frame in Hops.
    pose proof (plots_shaped_frame _ _ Hops Hp0) as Hp.
    split; [done|].
    destruct (GetMetricsScore_spec metrics c (grouped_frame _ _ _ Hops Hg0) Hp)
      as (score & Hrun & Hshape & _).
    exists score. by rewrite <- (fr_Iterations _ _ Hops).
  - destruct (scores_at_original_slots metrics c0 Hg0 Hp0)
      as (score & Hrun & Hcells).
    exists score. split; [done|].
    intros slot metric i Hslot Hi.
    destruct (Hcells slot metric i Hslot Hi) as (j & holder & Hj & Hcell).
    rewrite Hcell. do 2 f_equal.
    assert (forall n (plots : list (list TMetricHolder)),
              plots = replicate n (replicate (length (Iterations c0))
                                     holder_default) ->
              cell plots j i = Some holder -> holder = holder_default) as Hdef.
    { intros n plots -> Hc. unfold cell in Hc.
      destruct (replicate n _ !! j) as [row|] eqn:Hrow; [|done].
      apply lookup_replicate in Hrow as [-> _]. simpl in Hc.
      by apply lookup_replicate in Hc as [-> _]. }
    destruct (IsAdditiveMetric metric); destruct Hj as [_ Hj].
    + eapply Hdef; [exact Hadd0 | exact Hj].
    + eapply Hdef; [exact Hnon0 | exact Hj].
Qed.

(** ** Baseline seeding *)

(** C8: with baseline seeding enabled on a dataset of several parts, a
    baseline on part 0 and on every other part seeds the matrix with the
    concatenated baselines, no baseline on any part gives the zero matrix,
    and a part that disagrees with part 0 raises a configuration error before
    the Applier is called. *)
Theorem baseline_presence_must_agree part0 rest :
  Forall (baseline_rows ApproxDimension) (part0 :: rest) ->
  let parts := part0 :: rest in
  let init := InitApproxBuffer ApproxDimension parts true [] in
  (has_baseline part0 = true ->
   (forall p, p ∈ rest -> has_baseline p = true) ->
   init = Ok (baseline_matrix ApproxDimension parts))
  /\ (has_baseline part0 = false ->
      (forall p, p ∈ rest -> has_baseline p = false) ->
      init = Ok (zero_matrix ApproxDimension (GetDocCount parts)))
  /\ ((exists p, p ∈ rest /\ has_baseline p <> has_baseline part0) ->
      init = Fail ConfigurationError
      /\ forall c,
           ComputeNonAdditiveMetricsOnParts parts c
           = Traced [] (Fail ConfigurationError)).
Proof.
  intros Hrows parts init. subst init parts.
  rewrite InitApproxBuffer_spec by done.
  assert (forall b, (forall p, p ∈ rest -> has_baseline p = b) ->
                    has_baseline part0 = b ->
                    forallb (fun p => eqb (has_baseline p) (has_baseline part0))
                      rest = true) as Hsame.
  { intros b Hall H0. apply forallb_forall. intros p Hp.
    apply list_elem_of_In in Hp. rewrite (Hall p Hp), H0. by destruct b. }
  split; [|split].
  - intros H0 Hall. by rewrite (Hsame true Hall H0), H0.
  - intros H0 Hall. by rewrite (Hsame false Hall H0), H0.
  - intros (p & Hp & Hne).
    assert (forallb (fun p => eqb (has_baseline p) (has_baseline part0)) rest
            = false) as Hdiff.
    { apply not_true_is_false. intros Hall. rewrite forallb_forall in Hall.
      apply list_elem_of_In in Hp. specialize (Hall p Hp).
      by apply eqb_prop in Hall. }
    rewrite Hdiff. split; [done|]. intros c.
    unfold ComputeNonAdditiveMetricsOnParts.
    rewrite InitApproxBuffer_spec by done. by rewrite Hdiff.
Qed.

(** ** A pass from checkpoint slot 0 *)

Lemma GetApproxFileName_CurApproxBuffer i c p c' :
  GetApproxFileName i c = Ok (p, c') -> CurApproxBuffer c' = CurApproxBuffer c.
Proof.
  unfold GetApproxFileName. intros H. inv_ok; subst;
    by destruct (TmpDirExists (Scratch c)).
Qed.

(** Either consumer of a checkpoint matrix accepts it. *)
Lemma consumer_accepts (isAdditive : bool) k (m : list (list double)) n
  target weights groupInfos c :
  (0 < ApproxDimension)%nat -> shaped ApproxDimension n m ->
  Z.of_nat n < 2 ^ 32 ->
  plots_shaped c -> (k < length (Iterations c))%nat ->
  (isAdditive = false -> Z.of_nat k < 2 ^ 32 - 1) ->
  exists c',
    (if isAdditive
     then ComputeAdditiveMetric m target weights groupInfos k c
     else SaveApproxToFile k m c) = Ok c'
    /\ frame c c' /\ CurApproxBuffer c' = CurApproxBuffer c.
Proof.
  intros Hdim Hm Hn [Hpa _] Hk Hslot. destruct isAdditive.
  - destruct (ComputeAdditiveMetric_spec m target weights groupInfos k c Hpa Hk)
      as (plots' & Hrun & Hshape & _).
    eexists. split; [done|]. split; [|done].
    by eapply ComputeAdditiveMetric_frame.
  - destruct (SaveApproxToFile_spec k m ApproxDimension n c (Hslot eq_refl)
                Hdim Hm Hn)
      as (p & c1 & Hname & Hrun).
    eexists. split; [done|]. split.
    + by eapply SaveApproxToFile_frame.
    + simpl. by eapply GetApproxFileName_CurApproxBuffer.
Qed.

Lemma trees_app b m e : b <= m <= e -> trees b m ++ trees m e = trees b e.
Proof.
  intros H. unfold trees.
  replace (Z.to_nat (e - b)) with (Z.to_nat (m - b) + Z.to_nat (e - m))%nat
    by lia.
  rewrite seq_app, map_app. f_equal.
  pose proof (fmap_add_seq (Z.to_nat (m - b)) 0 (Z.to_nat (e - m))) as Hs.
  rewrite Nat.add_0_r in Hs. rewrite Nat.add_0_l, <- Hs.
  change (fmap (M := list) ?f) with (map f). rewrite map_map.
  apply map_ext. intros i. lia.
Qed.

Lemma range_ends its k :
  Forall (fun it => 0 <= it < 2 ^ 32 - 1) its -> (k < length its)%nat ->
  range_end its k = nth k its 0 + 1 /\ 0 <= nth k its 0.
Proof.
  intros Hb Hk. destruct (lookup_lt_is_Some_2 its k Hk) as [x Hx].
  rewrite Forall_lookup in Hb. specialize (Hb k x Hx).
  unfold range_end. rewrite (nth_lookup_Some _ _ 0 _ Hx).
  split; [apply wrap32_small|]; lia.
Qed.

Lemma range_begins its k :
  Forall (fun it => 0 <= it < 2 ^ 32 - 1) its -> (k <= length its)%nat ->
  range_begin its k = match k with
                      | O => 0
                      | S k' => nth k' its 0 + 1
                      end.
Proof.
  intros Hb Hk. destruct k as [|k]; [done|].
  apply (range_ends its k Hb). lia.
Qed.

Lemma ranges_tile its n :
  Forall (fun it => 0 <= it < 2 ^ 32 - 1) its -> strictly_increasing its ->
  (n <= length its)%nat ->
  flat_map (fun k => trees (range_begin its k) (range_end its k)) (seq 0 n)
  = trees 0 (range_begin its n).
Proof.
  intros Hb Hinc. induction n as [|n IH]; intros Hn; [done|].
  rewrite seq_S, flat_map_app, IH by lia. simpl. rewrite app_nil_r.
  change (wrap32 (nth n its 0 + 1)) with (range_end its n).
  apply trees_app.
  destruct (range_ends its n Hb ltac:(lia)) as [-> Hn0].
  rewrite range_begins by (done || lia).
  destruct n as [|n]; [lia|].
  destruct (range_ends its n Hb ltac:(lia)) as [_ Hn1].
  destruct (lookup_lt_is_Some_2 its n ltac:(lia)) as [x Hx].
  destruct (lookup_lt_is_Some_2 its (S n) ltac:(lia)) as [y Hy].
  pose proof (Hinc n (S n) x y ltac:(lia) Hx Hy).
  rewrite (nth_lookup_Some _ _ 0 _ Hx), (nth_lookup_Some _ _ 0 _ Hy) in *.
  lia.
Qed.

Lemma ProceedDataSet_from_slot_0 d n (isAdditive : bool) c :
  (0 < ApproxDimension)%nat -> chunk_ok d ->
  Forall (fun row => row = []) (CurApproxBuffer c) ->
  plots_shaped c -> (n <= length (Iterations c))%nat ->
  (isAdditive = false -> Z.of_nat n < 2 ^ 32) ->
  exists c',
    result (ProceedDataSet d 0 n isAdditive c) = Ok c'
    /\ frame c c'
    /\ Forall (fun row => row = []) (CurApproxBuffer c')
    /\ trace (ProceedDataSet d 0 n isAdditive c)
       = pass_events (ObjectsData d) (Iterations c) (initial_matrix d) n.
Proof.
  intros Hdim Hok Hbuf Hp Hn Hui32.
  destruct (ProceedDataSet_pass (fun _ c1 => frame c c1) d n isAdditive c)
    as (c' & Hrun & HJ & Htrace); try done.
  - intros k c1 Hk F Hits. cbn zeta.
    match goal with |- context [ComputeAdditiveMetric ?m _ _ _ _ ?c2] =>
      destruct (consumer_accepts isAdditive k m (GetObjectCount d)
                  (GetTarget d) (GetWeights d) (GetGroupInfo d) c2)
        as (c3 & Hc & F3 & Hcur); try done
    end.
    + by apply shaped_running.
    + apply Hok.
    + eapply plots_shaped_frame; [|exact Hp].
      etransitivity; [exact F|]. auto with frame.
    + simpl. rewrite Hits. lia.
    + intros Hna. specialize (Hui32 Hna). lia.
    + exists c3. split; [done|]. split; [|split; [|done]].
      * etransitivity; [exact F|]. etransitivity; [|exact F3].
        auto with frame.
      * rewrite (fr_Iterations _ _ F3). simpl. done.
  - eexists. split; [exact Hrun|]. split; [|split; [|done]].
    + etransitivity; [exact HJ|]. auto with frame.
    + simpl. unfold ClearApproxBuffer. apply Forall_forall.
      intros row Hrow. apply list_elem_of_In, in_map_iff in Hrow as (? & <- & _).
      done.
Qed.

(** C3 (as amended): a pass from checkpoint slot 0 over a chunk, up to a
    slot [n] (a [ui32]), calls the Applier once per checkpoint, over the
    trees from the previous checkpoint's ensemble size + 1 (0 for the first
    checkpoint) to this checkpoint's ensemble size + 1, both modulo 2^32, and
    adds each delta element-wise into the running matrix. When the
    checkpoints are below 2^32 - 1 the ends of the ranges are the checkpoints
    + 1 themselves, and when they are strictly increasing as well the ranges
    tile the trees from 0 to the last checkpoint without gap or overlap. *)
Theorem pass_from_slot_0_tiles_the_trees d n (isAdditive : bool) c :
  (0 < ApproxDimension)%nat -> chunk_ok d ->
  Forall (fun row => row = []) (CurApproxBuffer c) ->
  plots_shaped c -> (n <= length (Iterations c))%nat ->
  Z.of_nat n < 2 ^ 32 ->
  let its := Iterations c in
  let objects := ObjectsData d in
  let init := initial_matrix d in
  (exists c', result (ProceedDataSet d 0 n isAdditive c) = Ok c')
  /\ trace (ProceedDataSet d 0 n isAdditive c)
     = flat_map (fun k => [EvApply 0 (range_begin its k) (range_end its k);
                           EvApprox k (running objects its init (S k))])
         (seq 0 n)
  /\ (forall k, (k < n)%nat ->
        range_begin its k = match k with
                            | O => 0
                            | S k' => wrap32 (nth k' its 0 + 1)
                            end
        /\ range_end its k = wrap32 (nth k its 0 + 1)
        /\ running objects its init (S k)
           = zip_with (zip_with dadd) (running objects its init k)
               (ApplyModelMulti objects (range_begin its k) (range_end its k)))
  /\ (Forall (fun it => 0 <= it < 2 ^ 32 - 1) its ->
      (forall k, (k < n)%nat ->
         range_begin its k = match k with
                             | O => 0
                             | S k' => nth k' its 0 + 1
                             end
         /\ range_end its k = nth k its 0 + 1)
      /\ (strictly_increasing its ->
          flat_map (fun k => trees (range_begin its k) (range_end its k))
            (seq 0 n)
          = trees 0 (range_begin its n))).
Proof.
  intros Hdim Hok Hbuf Hp Hn Hui32 its objects init.
  subst its objects init.
  destruct (ProceedDataSet_from_slot_0 d n isAdditive c Hdim Hok Hbuf Hp Hn
              (fun _ => Hui32)) as (c' & Hrun & _ & _ & Htrace).
  split; [by exists c'|]. split; [exact Htrace|]. split.
  - intros k Hk. split; [by destruct k|]. split; done.
  - intros Hb. split.
    + intros k Hk. split; [apply range_begins; (done || lia)|].
      apply range_ends; (done || lia).
    + intros Hinc. by apply ranges_tile.
Qed.

(** ** Edge cases of a pass *)

(** Over an empty chunk every checkpoint matrix has empty rows only. *)
Lemma empty_chunk_gives_empty_rows d n (isAdditive : bool) c :
  (0 < ApproxDimension)%nat -> chunk_ok d -> GetObjectCount d = 0%nat ->
  Forall (fun row => row = []) (CurApproxBuffer c) ->
  plots_shaped c -> (n <= length (Iterations c))%nat ->
  (isAdditive = false -> Z.of_nat n < 2 ^ 32) ->
  checkpoint_matrices (trace (ProceedDataSet d 0 n isAdditive c))
  = map (fun k => (k, replicate ApproxDimension [])) (seq 0 n).
Proof.
  intros Hdim Hok Hempty Hbuf Hp Hn Hui32.
  destruct (ProceedDataSet_from_slot_0 d n isAdditive c Hdim Hok Hbuf Hp Hn
              Hui32) as (c' & _ & _ & _ & ->).
  assert (forall k, running (ObjectsData d) (Iterations c) (initial_matrix d) k
                    = replicate ApproxDimension []) as Hrows.
  { intros k. pose proof (shaped_running d (Iterations c) k Hok) as Hs.
    rewrite Hempty in Hs. unfold shaped in Hs.
    apply list_eq_same_length with ApproxDimension.
    - by rewrite length_replicate.
    - apply (f_equal length) in Hs.
      rewrite length_map, length_replicate in Hs. exact Hs.
    - intros i x y Hi Hx Hy. apply lookup_replicate in Hy as [-> _].
      apply (f_equal (fun l => l !! i)) in Hs.
      change (map length) with (fmap (M := list) (length (A := double))) in Hs.
      rewrite list_lookup_fmap, Hx, lookup_replicate_2 in Hs by done.
      simpl in Hs. injection Hs as Hs. by destruct x. }
  unfold pass_events, checkpoint_matrices. generalize (seq 0 n) as slots.
  induction slots as [|k0 slots IH]; [done|].
  cbn [flat_map]. rewrite flat_map_app, IH, (Hrows (S k0)). done.
Qed.

(** With an output dimension of zero the delta matrix has no row: the first
    [Append] of a pass indexes it out of range, after the Applier has run. *)
Lemma zero_dimension_pass d n (isAdditive : bool) c iteration :
  ApproxDimension = 0%nat ->
  Iterations c !! 0%nat = Some iteration ->
  ApplyModelMulti (ObjectsData d) 0 (wrap32 (iteration + 1)) = [] ->
  ProceedDataSet d 0 (S n) isAdditive c
  = Traced [EvApply 0 0 (wrap32 (iteration + 1))] (Fail UndefinedBehaviour).
Proof.
  intros Hdim Hit Happly. unfold ProceedDataSet. cbn [Nat.eqb].
  assert (InitApproxBuffer ApproxDimension [d] true (CurApproxBuffer c)
          = Ok []) as ->.
  { unfold InitApproxBuffer. rewrite Hdim. done. }
  rewrite !lift_bind.
  cbn [Nat.sub seq for_each_traced].
  change (Iterations (set_CurApproxBuffer [] c)) with (Iterations c).
  rewrite (at_Some _ _ _ Hit), lift_bind. cbn [NextApproxBuffer set_NextApproxBuffer].
  rewrite Happly.
  reflexivity.
Qed.

(** ** Snapshot round trip *)

(** [resize] keeps the names that are there and adds unnamed slots. *)
Lemma resize_lookup_Some {A} n (l : list (option A)) i q :
  resize n None l !! i = Some (Some q) -> l !! i = Some (Some q).
Proof.
  unfold resize. intros H. apply lookup_app_Some in H as [H|[_ H]].
  - by apply lookup_take_Some in H as [H _].
  - by apply lookup_replicate in H as [? _].
Qed.

Lemma GetApproxFileName_unnamed idx c p c1 :
  snapshot_unnamed idx c -> GetApproxFileName idx c = Ok (p, c1) ->
  p = idx
  /\ Files (Scratch c1) !! p = None
  /\ ApproxFiles (NonAdditiveMetricsData c1) !! idx = Some (Some p)
  /\ Target (NonAdditiveMetricsData c1) = Target (NonAdditiveMetricsData c).
Proof.
  unfold snapshot_unnamed, GetApproxFileName. intros Hun H.
  set (files := if (_ <? _)%nat then _ else _) in *.
  assert (files !! idx = Some None \/ exists q, files !! idx = Some (Some q))
    as [Hf|[q Hf]].
  { destruct (files !! idx) as [[q|]|] eqn:E; eauto.
    apply bind_Ok in H as (? & H & _). apply at_Ok in H. congruence. }
  - rewrite (at_Some _ _ _ Hf) in H. simpl in H.
    apply bind_Ok in H as (files' & Hset & H). injection H as <- <-.
    apply set_at_Ok in Hset as [-> Hlen].
    split; [done|]. split; [|split; [|by destruct (TmpDirExists (Scratch c))]].
    + destruct (TmpDirExists (Scratch c)); simpl; apply lookup_delete_eq.
    + destruct (TmpDirExists (Scratch c)); simpl;
        by rewrite list_lookup_insert_eq.
  - exfalso. subst files.
    destruct (_ <? _)%nat; [apply resize_lookup_Some in Hf|]; by eapply Hun.
Qed.

Lemma GetApproxFileName_named idx c p :
  ApproxFiles (NonAdditiveMetricsData c) !! idx = Some (Some p) ->
  exists c', GetApproxFileName idx c = Ok (p, c')
             /\ Scratch c' = Scratch c
             /\ Target (NonAdditiveMetricsData c')
                = Target (NonAdditiveMetricsData c).
Proof.
  intros Hname. unfold GetApproxFileName.
  assert (idx < length (ApproxFiles (NonAdditiveMetricsData c)))%nat as Hlen
    by (by eapply lookup_lt_Some).
  set (files := if (_ <? _)%nat then _ else _).
  assert (files !! idx = Some (Some p)) as Hf.
  { subst files.
    destruct (Nat.ltb_spec (length (ApproxFiles (NonAdditiveMetricsData c)))
                (ui32_of_size (idx + 1))) as [Hlt|Hge]; [|done].
    unfold resize. rewrite lookup_app_l by (rewrite length_take; lia).
    by rewrite lookup_take_lt by lia. }
  rewrite (at_Some _ _ _ Hf). simpl. eauto.
Qed.

(** C4 (as amended): persisting a prediction matrix of at least one output
    dimension into the snapshot file of a slot (below 2^32 - 1) that has no
    snapshot yet, document by document as a row of doubles across the output
    dimensions, and reloading it with the same document count and output
    dimension gives back the matrix. *)
Theorem snapshot_round_trip idx (approx : list (list double)) n c :
  codec_lossless ->
  Z.of_nat idx < 2 ^ 32 - 1 ->
  (0 < ApproxDimension)%nat -> Z.of_nat ApproxDimension < 2 ^ 31 ->
  shaped ApproxDimension n approx -> Z.of_nat n < 2 ^ 32 ->
  Forall (Forall is_double) approx ->
  length (Target (NonAdditiveMetricsData c)) = n ->
  snapshot_unnamed idx c ->
  exists c' c'' p,
    SaveApproxToFile idx approx c = Ok c'
    /\ Files (Scratch c') !! p
       = Some (flat_map (fun i => SaveLine (map (fun row => default dzero (row !! i))
                                              approx))
                 (seq 0 n))
    /\ LoadApprox idx c' = Ok (approx, c'').
Proof.
  intros Hcodec Hidx Hdim Hint Ha Hn Hval Htarget Hun.
  destruct (SaveApproxToFile_spec idx approx ApproxDimension n c Hidx Hdim Ha Hn)
    as (p & c1 & Hname & Hsave).
  destruct (GetApproxFileName_unnamed idx c p c1 Hun Hname)
    as (Hp & Hfresh & Hnamed & Htgt).
  rewrite Hfresh in Hsave. simpl in Hsave.
  eexists.
  match type of Hsave with _ = Ok ?c' =>
    destruct (GetApproxFileName_named idx c' p) as (c'' & Hname' & Hs' & Ht')
  end; [done|].
  exists c'', p. split; [exact Hsave|]. split.
  { simpl. by rewrite lookup_insert_eq. }
  unfold LoadApprox. rewrite Hname'. simpl.
  rewrite Hs'. simpl. rewrite lookup_insert_eq.
  rewrite Ht'. simpl. rewrite Htgt, Htarget, ui32_of_size_small by done.
  pose proof (Load_serialized approx
                (replicate ApproxDimension (replicate n dzero))
                ApproxDimension n [] Hcodec Hint Ha Hval) as Hload.
  rewrite app_nil_r in Hload. rewrite Hload; [done|].
  unfold shaped.
  change (map length) with (fmap (M := list) (length (A := double))).
  by rewrite fmap_replicate, length_replicate.
Qed.

(** ** Chunks of a partitioned dataset *)

Lemma hcat_lookup dim (ms : list (list (list double))) r :
  hcat dim ms !! r
  = if decide (r < dim)%nat
    then Some (flat_map (fun m => default [] (m !! r)) ms) else None.
Proof.
  unfold hcat.
  exact (map_seq_lookup (fun r => flat_map (fun m => default [] (m !! r)) ms)
           dim r).
Qed.

Lemma shaped_row dim n (m : list (list double)) r :
  shaped dim n m -> (r < dim)%nat -> length (default [] (m !! r)) = n.
Proof.
  intros Hs Hr. destruct (shape_lookup m dim n r Hs Hr) as (row & -> & Hl).
  done.
Qed.

Lemma madd_lookup (x y : list (list double)) r :
  default [] (madd x y !! r)
  = zip_with dadd (default [] (x !! r)) (default [] (y !! r)).
Proof.
  unfold madd. rewrite lookup_zip_with.
  destruct (x !! r) as [xr|]; simpl; [|done].
  destruct (y !! r) as [yr|]; simpl; [done|].
  by destruct xr.
Qed.

(** The element-wise sum of matrices laid side by side. *)
Lemma madd_hcat {A} dim (n : A -> nat) (f g : A -> list (list double)) parts :
  (forall p, p ∈ parts -> shaped dim (n p) (f p) /\ shaped dim (n p) (g p)) ->
  madd (hcat dim (map f parts)) (hcat dim (map g parts))
  = hcat dim (map (fun p => madd (f p) (g p)) parts).
Proof.
  intros Hs. apply list_eq. intros r.
  unfold madd at 1. rewrite lookup_zip_with, !hcat_lookup.
  case_decide as Hr; [|done]. simpl. f_equal.
  induction parts as [|p parts IH]; [done|].
  simpl. destruct (Hs p ltac:(left)) as [Hf Hg].
  rewrite zip_with_app.
  - rewrite madd_lookup. f_equal. apply IH.
    intros q Hq. apply Hs. by right.
  - by rewrite (shaped_row dim (n p) (f p)), (shaped_row dim (n p) (g p)).
Qed.

Lemma seeded_row_single p r :
  seeded_row [p] r = map double_of_float (default [] (GetBaseline p !! r)).
Proof. unfold seeded_row. simpl. by rewrite app_nil_r. Qed.

Lemma initial_matrix_lookup d r :
  (r < ApproxDimension)%nat ->
  default [] (initial_matrix d !! r)
  = if has_baseline d
    then map double_of_float (default [] (GetBaseline d !! r))
    else replicate (GetObjectCount d) dzero.
Proof.
  intros Hr. unfold initial_matrix. destruct (has_baseline d).
  - unfold baseline_matrix. rewrite map_seq_lookup, decide_True by done.
    simpl. apply seeded_row_single.
  - unfold zero_matrix. by rewrite lookup_replicate_2.
Qed.

Lemma initial_matrix_partition whole parts :
  partition_of whole parts ->
  initial_matrix whole = hcat ApproxDimension (map initial_matrix parts).
Proof.
  intros [Hobj _ _ Hhas Hbase].
  assert (length (initial_matrix whole) = ApproxDimension) as Hlen.
  { unfold initial_matrix, baseline_matrix, zero_matrix.
    destruct (has_baseline whole).
    - by rewrite length_map, length_seq.
    - by rewrite length_replicate. }
  apply list_eq. intros r. rewrite hcat_lookup. case_decide as Hr.
  2:{ apply lookup_ge_None_2. lia. }
  destruct (lookup_lt_is_Some_2 (initial_matrix whole) r ltac:(lia)) as [row Hrow].
  rewrite Hrow. f_equal.
  pose proof (initial_matrix_lookup whole r Hr) as Hw. rewrite Hrow in Hw.
  simpl in Hw. rewrite Hw. clear Hrow Hw row.
  rewrite flat_map_concat_map, map_map, <- flat_map_concat_map.
  destruct (has_baseline whole) eqn:Hb.
  - rewrite Hbase. clear Hbase Hobj.
    induction Hhas as [|p parts Hp Hhas IH]; [done|].
    simpl. rewrite map_app, IH. f_equal.
    by rewrite initial_matrix_lookup, Hp.
  - unfold GetObjectCount at 1. rewrite Hobj. clear Hbase Hobj.
    induction Hhas as [|p parts Hp Hhas IH]; [done|].
    simpl. rewrite length_app, replicate_add, IH. f_equal.
    by rewrite initial_matrix_lookup, Hp.
Qed.

Lemma running_partition whole parts its k :
  partition_of whole parts -> applier_by_document whole parts ->
  Forall chunk_ok parts ->
  running (ObjectsData whole) its (initial_matrix whole) k
  = hcat ApproxDimension
      (map (fun p => running (ObjectsData p) its (initial_matrix p) k) parts).
Proof.
  intros Hpart Happ Hok. induction k as [|k IH].
  - simpl. by apply initial_matrix_partition.
  - cbn [running]. rewrite IH, Happ.
    apply (madd_hcat ApproxDimension GetObjectCount
             (fun p => running (ObjectsData p) its (initial_matrix p) k)
             (fun p => ApplyModelMulti (ObjectsData p) (range_begin its k)
                         (range_end its k))).
    intros p Hp. rewrite Forall_forall in Hok. specialize (Hok p Hp).
    split; [by apply shaped_running | apply Hok].
Qed.

(** One chunk fed for the additive metrics merges one evaluation into every
    cell of the additive plot table. *)
Lemma additive_pass_cells d c :
  (0 < ApproxDimension)%nat -> chunk_ok d ->
  Forall (fun row => row = []) (CurApproxBuffer c) -> plots_shaped c ->
  exists c',
    result (ProceedDataSetForAdditiveMetrics d c) = Ok c'
    /\ frame c c'
    /\ Forall (fun row => row = []) (CurApproxBuffer c')
    /\ NonAdditiveMetricPlots c' = NonAdditiveMetricPlots c
    /\ forall j i,
         cell (AdditiveMetricPlots c') j i
         = holder ← cell (AdditiveMetricPlots c) j i;
           metric ← AdditiveMetrics c !! j;
           Some (holder_Add holder (pass_eval (Iterations c) metric d i)).
Proof.
  intros Hdim Hok Hbuf Hp. unfold ProceedDataSetForAdditiveMetrics.
  destruct (ProceedDataSet_pass
    (fun k c1 =>
       frame c c1
       /\ NonAdditiveMetricPlots c1 = NonAdditiveMetricPlots c
       /\ forall j i,
            cell (AdditiveMetricPlots c1) j i
            = if decide (i < k)%nat
              then holder ← cell (AdditiveMetricPlots c) j i;
                   metric ← AdditiveMetrics c !! j;
                   Some (holder_Add holder
                           (pass_eval (Iterations c) metric d i))
              else cell (AdditiveMetricPlots c) j i)
    d (length (Iterations c)) true c)
    as (c' & Hrun & (F & Hnon & Hcells) & _); try done.
  - intros k c1 Hk (F & Hnon & Hcells) Hits. cbn zeta.
    match goal with |- context [ComputeAdditiveMetric ?m _ _ _ _ ?c2] =>
      set (c2' := c2);
      destruct (ComputeAdditiveMetric_spec m (GetTarget d) (GetWeights d)
                  (GetGroupInfo d) k c2') as (plots' & Hc & Hshape & Hnew)
    end.
    + simpl. rewrite (fr_AdditiveMetricPlots _ _ F), (fr_AdditiveMetrics _ _ F),
        Hits. apply Hp.
    + simpl. rewrite Hits. lia.
    + eexists. split; [exact Hc|]. simpl.
      split; [|split; [done|done]].
      split; [|split; [done|]].
      * etransitivity; [exact F|].
        constructor; simpl; (done || by rewrite Hshape).
      * intros j i. rewrite Hnew. simpl.
        rewrite (fr_AdditiveMetrics _ _ F).
        destruct (decide (i = k)) as [->|Hne].
        -- rewrite decide_True by lia. rewrite Hcells, decide_False by lia.
           destruct (cell (AdditiveMetricPlots c) j k) as [h|]; simpl;
             [|by destruct (AdditiveMetrics c !! j)].
           destruct (AdditiveMetrics c !! j); done.
        -- rewrite Hcells. repeat case_decide; try done; lia.
  - eexists. split; [exact Hrun|]. simpl.
    split; [|split; [|split; [done|]]].
    + etransitivity; [exact F|]. auto with frame.
    + unfold ClearApproxBuffer. apply Forall_forall.
      intros row Hrow. apply list_elem_of_In, in_map_iff in Hrow as (? & <- & _).
      done.
    + intros j i. rewrite Hcells. case_decide as Hi; [done|].
      destruct Hp as [Hpa _].
      destruct (cell (AdditiveMetricPlots c) j i) as [h|] eqn:Hcell; [|done].
      exfalso. unfold cell in Hcell.
      destruct (AdditiveMetricPlots c !! j) as [row|] eqn:Hrow; [|done].
      simpl in Hcell. apply lookup_lt_Some in Hcell.
      assert (map length (AdditiveMetricPlots c) !! j = Some (length row)) as Hl.
      { change (map length) with (fmap (M := list) (length (A := TMetricHolder))).
        by rewrite list_lookup_fmap, Hrow. }
      rewrite Hpa in Hl. apply lookup_replicate in Hl as [Hl _]. lia.
Qed.

Lemma fold_left_merge_permutation (merges merges' : list TMetricHolder) :
  (forall a b, holder_Add a b = holder_Add b a) ->
  (forall a b c, holder_Add a (holder_Add b c) = holder_Add (holder_Add a b) c) ->
  Permutation merges merges' ->
  forall h, fold_left holder_Add merges h = fold_left holder_Add merges' h.
Proof.
  intros Hcomm Hassoc Hperm.
  induction Hperm as [|x l l' _ IH|x y l|l l' l'' _ IH1 _ IH2]; intros h; simpl.
  - done.
  - apply IH.
  - f_equal. rewrite <- !Hassoc. f_equal. apply Hcomm.
  - by rewrite IH1, IH2.
Qed.

Lemma fold_left_merge_assoc (merges : list TMetricHolder) :
  (forall a b c, holder_Add a (holder_Add b c) = holder_Add (holder_Add a b) c) ->
  forall h e0,
    holder_Add h (fold_left holder_Add merges e0)
    = fold_left holder_Add merges (holder_Add h e0).
Proof.
  intros Hassoc. induction merges as [|e merges IH]; intros h e0; simpl; [done|].
  by rewrite IH, Hassoc.
Qed.

Lemma process_additive_cons d chunks c c1 :
  result (ProceedDataSetForAdditiveMetrics d c) = Ok c1 ->
  result (process_additive (d :: chunks) c)
  = result (process_additive chunks c1).
Proof.
  intros H. unfold process_additive, perform_all. simpl.
  unfold mbind, traced_bind. by rewrite H.
Qed.

(** The chunks fed one after the other merge their evaluations, in order,
    into every cell of the additive plot table. *)
Lemma process_additive_cells chunks : forall c,
  (0 < ApproxDimension)%nat -> Forall chunk_ok chunks ->
  Forall (fun row => row = []) (CurApproxBuffer c) -> plots_shaped c ->
  exists c',
    result (process_additive chunks c) = Ok c'
    /\ frame c c'
    /\ NonAdditiveMetricPlots c' = NonAdditiveMetricPlots c
    /\ forall j i metric,
         AdditiveMetrics c !! j = Some metric ->
         cell (AdditiveMetricPlots c') j i
         = (fun h => fold_left holder_Add
                       (map (fun d => pass_eval (Iterations c) metric d i)
                          chunks) h)
           <$> cell (AdditiveMetricPlots c) j i.
Proof.
  induction chunks as [|d chunks IH]; intros c Hdim Hok Hbuf Hp.
  - exists c. split; [done|]. split; [done|]. split; [done|].
    intros j i metric _. simpl. by destruct (cell _ j i).
  - apply Forall_cons in Hok as [Hd Hok].
    destruct (additive_pass_cells d c Hdim Hd Hbuf Hp)
      as (c1 & Hrun1 & F1 & Hbuf1 & Hnon1 & Hcells1).
    destruct (IH c1 Hdim Hok Hbuf1 (plots_shaped_frame _ _ F1 Hp))
      as (c' & Hrun & F & Hnon & Hcells).
    exists c'. split; [by rewrite (process_additive_cons _ _ _ _ Hrun1)|].
    split; [by etransitivity|]. split; [congruence|].
    intros j i metric Hmetric.
    rewrite (Hcells j i metric) by (by rewrite (fr_AdditiveMetrics _ _ F1)).
    rewrite Hcells1, Hmetric, (fr_Iterations _ _ F1). simpl.
    by destruct (cell (AdditiveMetricPlots c) j i).
Qed.

Lemma cell_ge {A} (t : list (list A)) r c :
  (length t <= r)%nat -> cell t r c = None.
Proof. intros H. unfold cell. by rewrite lookup_ge_None_2. Qed.

Lemma GetMetricsScore_same c1 c2 :
  frame c1 c2 ->
  AdditiveMetricPlots c2 = AdditiveMetricPlots c1 ->
  NonAdditiveMetricPlots c2 = NonAdditiveMetricPlots c1 ->
  GetMetricsScore c2 = GetMetricsScore c1.
Proof.
  intros F Ha Hn. unfold GetMetricsScore.
  by rewrite Ha, Hn, (fr_Iterations _ _ F), (fr_AdditiveMetrics _ _ F),
    (fr_NonAdditiveMetrics _ _ F), (fr_AdditiveMetricsIndices _ _ F),
    (fr_NonAdditiveMetricsIndices _ _ F).
Qed.

(** Two runs from the same calcer whose additive cells received the same
    merges have the same scores. *)
Lemma same_merges_same_score c c1 c2
  (merge1 merge2 : IMetric -> nat -> TMetricHolder -> TMetricHolder) :
  frame c c1 -> frame c c2 ->
  NonAdditiveMetricPlots c1 = NonAdditiveMetricPlots c ->
  NonAdditiveMetricPlots c2 = NonAdditiveMetricPlots c ->
  (forall j i metric, AdditiveMetrics c !! j = Some metric ->
     cell (AdditiveMetricPlots c1) j i
     = merge1 metric i <$> cell (AdditiveMetricPlots c) j i) ->
  (forall j i metric, AdditiveMetrics c !! j = Some metric ->
     cell (AdditiveMetricPlots c2) j i
     = merge2 metric i <$> cell (AdditiveMetricPlots c) j i) ->
  (forall metric i h, metric ∈ AdditiveMetrics c ->
     merge1 metric i h = merge2 metric i h) ->
  plots_shaped c ->
  GetMetricsScore c2 = GetMetricsScore c1.
Proof.
  intros F1 F2 Hn1 Hn2 Hc1 Hc2 Hsame [Hpa _].
  assert (frame c1 c2) as F12.
  { destruct F1, F2. constructor; congruence. }
  apply GetMetricsScore_same; [done| |congruence].
  apply table_eq.
  - by rewrite (fr_AdditiveMetricPlots _ _ F12).
  - intros j i.
    destruct (AdditiveMetrics c !! j) as [metric|] eqn:Hmetric.
    + rewrite (Hc1 j i metric Hmetric), (Hc2 j i metric Hmetric).
      destruct (cell (AdditiveMetricPlots c) j i) as [h|]; [|done].
      simpl. f_equal. symmetry. apply Hsame.
      by eapply list_elem_of_lookup_2.
    + apply lookup_ge_None in Hmetric.
      assert (length (AdditiveMetricPlots c) = length (AdditiveMetrics c)) as Hl.
      { apply (f_equal length) in Hpa.
        by rewrite length_map, length_replicate in Hpa. }
      assert (forall c', frame c c' ->
                length (AdditiveMetricPlots c') = length (AdditiveMetrics c))
        as Hl'.
      { intros c' F'. rewrite <- Hl.
        pose proof (fr_AdditiveMetricPlots _ _ F') as Hm.
        apply (f_equal length) in Hm. by rewrite !length_map in Hm. }
      rewrite !cell_ge; [done|rewrite (Hl' c1 F1); lia|rewrite (Hl' c2 F2); lia].
Qed.

(** C5: when the merge of accumulators is associative and commutative, the
    score matrix after the chunks of a partitioned dataset have been
    processed does not depend on the order of the chunks, and equals the
    score matrix after the whole dataset has been processed as one chunk. *)
Theorem chunk_order_does_not_change_the_scores fuel metrics tmpDirExists first
  last_ step processIterationStep c0 parts :
  (forall a b, holder_Add a b = holder_Add b a) ->
  (forall a b c, holder_Add a (holder_Add b c) = holder_Add (holder_Add a b) c) ->
  MakeCalcer fuel metrics tmpDirExists first last_ step processIterationStep
  = Some (Ok c0) ->
  (0 < ApproxDimension)%nat -> Forall chunk_ok parts ->
  exists c1,
    result (process_additive parts c0) = Ok c1
    /\ (forall parts',
          Permutation parts parts' ->
          exists c2, result (process_additive parts' c0) = Ok c2
                     /\ GetMetricsScore c2 = GetMetricsScore c1)
    /\ (forall whole,
          parts <> [] -> chunk_ok whole -> partition_of whole parts ->
          applier_by_document whole parts ->
          (forall metric, metric ∈ metrics -> IsAdditiveMetric metric = true ->
             additive_over metric whole parts) ->
          exists c3, result (process_additive [whole] c0) = Ok c3
                     /\ GetMetricsScore c3 = GetMetricsScore c1).
Proof.
  intros Hcomm Hassoc Hmake Hdim Hok.
  apply MakeCalcer_Ok in Hmake as (_ & _ & Hg & Hp & _ & _ & Hbuf).
  destruct (process_additive_cells parts c0 Hdim Hok Hbuf Hp)
    as (c1 & Hrun1 & F1 & Hn1 & Hc1).
  exists c1. split; [done|]. split.
  - intros parts' Hperm.
    assert (Forall chunk_ok parts') as Hok'.
    { rewrite Forall_forall in *. intros p Hp'. apply Hok. by rewrite Hperm. }
    destruct (process_additive_cells parts' c0 Hdim Hok' Hbuf Hp)
      as (c2 & Hrun2 & F2 & Hn2 & Hc2).
    exists c2. split; [done|].
    apply (same_merges_same_score c0 c1 c2
             (fun metric i h =>
                fold_left holder_Add
                  (map (fun d => pass_eval (Iterations c0) metric d i) parts) h)
             (fun metric i h =>
                fold_left holder_Add
                  (map (fun d => pass_eval (Iterations c0) metric d i) parts') h));
      try done.
    intros metric i h _. simpl.
    apply fold_left_merge_permutation; [done|done|].
    by apply Permutation_map.
  - intros whole Hne Hwhole Hpart Happ Hadd.
    destruct (process_additive_cells [whole] c0 Hdim ltac:(by constructor)
                Hbuf Hp) as (c3 & Hrun3 & F3 & Hn3 & Hc3).
    exists c3. split; [done|].
    apply (same_merges_same_score c0 c1 c3
             (fun metric i h =>
                fold_left holder_Add
                  (map (fun d => pass_eval (Iterations c0) metric d i) parts) h)
             (fun metric i h =>
                fold_left holder_Add
                  (map (fun d => pass_eval (Iterations c0) metric d i) [whole])
                  h));
      try done.
    intros metric i h Hin. simpl.
    destruct parts as [|p0 rest]; [done|]. simpl.
    rewrite <- fold_left_merge_assoc by done. f_equal.
    destruct Hg as (Hg1 & _). rewrite Hg1 in Hin.
    apply list_elem_of_In, filter_In in Hin as [Hin Hadditive].
    apply list_elem_of_In in Hin.
    specialize (Hadd metric Hin Hadditive
                  (fun p => running (ObjectsData p) (Iterations c0)
                              (initial_matrix p) (S i))).
    cbn beta iota in Hadd. unfold pass_eval.
    rewrite (running_partition whole (p0 :: rest)) by done.
    symmetry. apply Hadd.
    intros p Hp'. apply (shaped_running p (Iterations c0) (S i)).
    rewrite Forall_forall in Hok. by apply Hok.
Qed.

(** * Further properties of the code *)

(** ** Document counts and offsets of dataset parts *)

Lemma ui32_of_size_mod n : Z.of_nat (ui32_of_size n) = Z.of_nat n mod 2 ^ 32.
Proof.
  unfold ui32_of_size, wrap32. rewrite Z2Nat.id; [done|].
  apply Z.mod_pos_bound. lia.
Qed.

Lemma GetDocCount_loop parts acc :
  Z.of_nat acc < 2 ^ 32 ->
  Z.of_nat (fold_left (fun answer datasetPart =>
                         ui32_of_size (answer + GetObjectCount datasetPart))
              parts acc)
  = (Z.of_nat acc + Z.of_nat (sum_list (map GetObjectCount parts))) mod 2 ^ 32.
Proof.
  revert acc. induction parts as [|part parts IH]; intros acc Hacc; simpl.
  - rewrite Z.add_0_r, Z.mod_small; lia.
  - rewrite IH.
    + rewrite ui32_of_size_mod, Zplus_mod_idemp_l. f_equal. lia.
    + rewrite ui32_of_size_mod. apply Z.mod_pos_bound. lia.
Qed.

(** X1: [GetDocCount] is the sum of the parts' document counts modulo
    2^32. *)
Theorem document_count_is_sum_mod_2_32 parts :
  Z.of_nat (GetDocCount parts)
  = Z.of_nat (sum_list (map GetObjectCount parts)) mod 2 ^ 32.
Proof. unfold GetDocCount. by rewrite GetDocCount_loop. Qed.

Lemma GetStartDocIdx_loop parts : forall result start,
  Z.of_nat (start + sum_list (map GetObjectCount parts)) < 2 ^ 32 ->
  fold_left
    (fun '(result, start) datasetPart =>
       (result ++ [start], ui32_of_size (start + GetObjectCount datasetPart)))
    parts (result, start)
  = (result ++ map (fun p => (start + documents_before parts p)%nat)
                 (seq 0 (length parts)),
     (start + sum_list (map GetObjectCount parts))%nat).
Proof.
  induction parts as [|part parts IH]; intros result start Hfit; simpl.
  - by rewrite app_nil_r, Nat.add_0_r.
  - simpl in Hfit. rewrite ui32_of_size_small by lia.
    rewrite IH by lia. f_equal; [|lia].
    rewrite <- app_assoc. f_equal. simpl. f_equal.
    + unfold documents_before. simpl. lia.
    + rewrite <- seq_shift, map_map. apply map_ext. intros p.
      unfold documents_before. simpl. lia.
Qed.

Lemma sum_list_snoc (l : list nat) x : sum_list (l ++ [x]) = (sum_list l + x)%nat.
Proof. induction l as [|y l IH]; simpl; lia. Qed.

Lemma GetStartDocIdx_prefix parts :
  Z.of_nat (sum_list (map GetObjectCount parts)) < 2 ^ 32 ->
  GetStartDocIdx parts = map (documents_before parts) (seq 0 (length parts)).
Proof. intros Hfit. unfold GetStartDocIdx. by rewrite GetStartDocIdx_loop. Qed.

Lemma GetDocCount_small parts :
  Z.of_nat (sum_list (map GetObjectCount parts)) < 2 ^ 32 ->
  GetDocCount parts = sum_list (map GetObjectCount parts).
Proof.
  intros Hfit. apply Nat2Z.inj. unfold GetDocCount.
  rewrite GetDocCount_loop by done. apply Z.mod_small. lia.
Qed.

(** X2: when the documents of all parts number less than 2^32,
    [GetStartDocIdx] gives every part the number of documents of the parts
    before it: one offset per part, the first is 0, and the segments
    [offset, offset + count) follow one another up to [GetDocCount]. *)
Theorem start_offsets_are_prefix_sums parts :
  Z.of_nat (sum_list (map GetObjectCount parts)) < 2 ^ 32 ->
  GetStartDocIdx parts = map (documents_before parts) (seq 0 (length parts))
  /\ documents_before parts 0 = 0%nat
  /\ GetDocCount parts = documents_before parts (length parts)
  /\ forall p part,
       parts !! p = Some part ->
       documents_before parts (S p)
       = (documents_before parts p + GetObjectCount part)%nat.
Proof.
  intros Hfit. split; [by apply GetStartDocIdx_prefix|].
  split; [done|]. split.
  - unfold documents_before. rewrite firstn_all. by apply GetDocCount_small.
  - intros p part Hp. unfold documents_before.
    rewrite (take_S_r _ _ _ Hp), map_app. cbn [map].
    by rewrite sum_list_snoc.
Qed.

Lemma concat_lookup_part {A} (ls : list (list A)) : forall p l i,
  ls !! p = Some l -> (i < length l)%nat ->
  concat ls !! (sum_list (map length (take p ls)) + i)%nat = l !! i.
Proof.
  induction ls as [|l0 ls IH]; intros p l i Hp Hi.
  - by rewrite lookup_nil in Hp.
  - destruct p as [|p]; simpl in *.
    + injection Hp as ->. by rewrite lookup_app_l.
    + rewrite lookup_app_r by lia.
      replace (length l0 + sum_list (map length (take p ls)) + i - length l0)%nat
        with (sum_list (map length (take p ls)) + i)%nat by lia.
      by apply IH.
Qed.

(** X3: the concatenated targets and weights of the parts line up with
    the offsets of [GetStartDocIdx]: the target and the weight of document
    [i] of part [p] stand at position offset(p) + i. *)
Theorem targets_and_weights_line_up parts p part i :
  Z.of_nat (sum_list (map GetObjectCount parts)) < 2 ^ 32 ->
  Forall labelled parts ->
  parts !! p = Some part -> (i < GetObjectCount part)%nat ->
  exists start,
    GetStartDocIdx parts !! p = Some start
    /\ BuildTargets parts !! (start + i)%nat = GetTarget part !! i
    /\ BuildWeights parts !! (start + i)%nat = GetWeights part !! i.
Proof.
  intros Hfit Hlab Hp Hi.
  pose proof (GetStartDocIdx_prefix parts Hfit) as Hstart.
  exists (documents_before parts p).
  assert (p < length parts)%nat as Hlt by by eapply lookup_lt_Some.
  split.
  - rewrite Hstart.
    change (map ?f) with (fmap (M := list) f).
    rewrite list_lookup_fmap, lookup_seq_lt by done. done.
  - assert (Forall labelled (take p parts)) as Hlab'.
    { by apply Forall_take. }
    assert (labelled part) as [Ht Hw].
    { rewrite Forall_forall in Hlab. apply Hlab.
      by eapply list_elem_of_lookup_2. }
    assert (documents_before parts p
            = sum_list (map length (take p (map GetTarget parts)))
            /\ documents_before parts p
               = sum_list (map length (take p (map GetWeights parts))))
      as [Et Ew].
    { unfold documents_before.
      change (map ?f) with (fmap (M := list) f).
      rewrite <- !fmap_take, <- !list_fmap_compose.
      split; f_equal; apply Forall_fmap_ext_1;
        (eapply Forall_impl; [exact Hlab'|]); by intros q [? ?]. }
    unfold BuildTargets, BuildWeights. split.
    + rewrite Et. apply concat_lookup_part; [|lia].
      change (map ?f) with (fmap (M := list) f).
      by rewrite list_lookup_fmap, Hp.
    + rewrite Ew. apply concat_lookup_part; [|lia].
      change (map ?f) with (fmap (M := list) f).
      by rewrite list_lookup_fmap, Hp.
Qed.

(** ** Bounds of [Append] *)

(** A loop fails with [e] when its body fails with [e] on some element
    whatever the state, and fails with nothing else; [P] is kept by the
    body. *)
Lemma for_each_fails {A St} (P : St -> Prop) (e : error) (l : list A)
  (body : St -> A -> outcome St) x :
  x ∈ l ->
  (forall s y s', P s -> body s y = Ok s' -> P s') ->
  (forall s y e', P s -> body s y = Fail e' -> e' = e) ->
  (forall s, P s -> body s x = Fail e) ->
  forall s, P s -> for_each l body s = Fail e.
Proof.
  intros Hx Hkeep Honly Hfail.
  induction l as [|y l IH]; intros s Hs; [by apply elem_of_nil in Hx|].
  simpl. destruct (body s y) as [s'|e'] eqn:Hy; simpl.
  - apply elem_of_cons in Hx as [->|Hx].
    + rewrite Hfail in Hy by done. discriminate.
    + apply IH; [done|]. by eapply Hkeep.
  - f_equal. by eapply Honly.
Qed.

Lemma for_each_keeps {A St} (P : St -> Prop) (l : list A)
  (body : St -> A -> outcome St) :
  (forall s y s', P s -> body s y = Ok s' -> P s') ->
  forall s s', P s -> for_each l body s = Ok s' -> P s'.
Proof.
  intros Hkeep. induction l as [|y l IH]; intros s s' Hs H; simpl in H.
  - by injection H as <-.
  - apply bind_Ok in H as (s1 & H1 & H). eapply IH; [|exact H].
    by eapply Hkeep.
Qed.

Lemma for_each_only_fails {A St} (e : error) (l : list A)
  (body : St -> A -> outcome St) :
  (forall s y e', body s y = Fail e' -> e' = e) ->
  forall s e', for_each l body s = Fail e' -> e' = e.
Proof.
  intros Honly. induction l as [|y l IH]; intros s e' H; simpl in H; [done|].
  destruct (body s y) as [s1|e1] eqn:E; simpl in H.
  - by eapply IH.
  - injection H as <-. by eapply Honly.
Qed.

Lemma at_None {A} (v : list A) i :
  (length v <= i)%nat -> at_ v i = Fail UndefinedBehaviour.
Proof. intros H. unfold at_. by rewrite lookup_ge_None_2. Qed.

Lemma at_Fail {A} (v : list A) i e : at_ v i = Fail e -> e = UndefinedBehaviour.
Proof. unfold at_. destruct (v !! i); congruence. Qed.

Lemma set_at_Fail {A} (v : list A) i x e :
  set_at v i x = Fail e -> e = UndefinedBehaviour.
Proof. unfold set_at. destruct (v !! i); congruence. Qed.

Lemma bind_Fail {A B} (m : outcome A) (f : A -> outcome B) e :
  m ≫= f = Fail e -> m = Fail e \/ exists a, m = Ok a /\ f a = Fail e.
Proof.
  destruct m as [a|e0]; simpl; intros H.
  - right. by exists a.
  - left. by injection H as ->.
Qed.

(** Takes a failed run of indexing code apart: every failure is an
    out-of-range index. *)
Ltac inv_fail :=
  repeat match goal with
    | H : Ok _ = Fail _ |- _ => discriminate H
    | H : at_ _ _ = Fail _ |- _ => apply at_Fail in H
    | H : set_at _ _ _ = Fail _ |- _ => apply set_at_Fail in H
    | H : _ ≫= _ = Fail _ |- _ => apply bind_Fail in H as [H|(? & _ & H)]
    end.

(** X4: [Append] adds the delta into the columns [start, start + n) of the
    destination, cell by cell, and changes no other cell and no length. *)
Theorem append_adds_into_window approx dst start dim n N :
  (0 < dim)%nat -> shaped dim n approx -> shaped dim N dst ->
  (start + n <= N)%nat -> Z.of_nat (start + n) < 2 ^ 31 ->
  exists dst',
    Append approx dst start = Ok dst'
    /\ shaped dim N dst'
    /\ forall r c,
         cell dst' r c
         = if decide (start <= c < start + n)%nat
           then x ← cell dst r c; v ← cell approx r (c - start);
                Some (dadd x v)
           else cell dst r c.
Proof.
  intros Hdim Ha Hd Hfit Hint.
  apply (Append_cells approx dst start dim n N); try done.
  change (2 ^ 31) with 2147483648 in Hint.
  change (2 ^ 32) with 4294967296. lia.
Qed.

(** X5: [Append] does not check the destination: when the delta has
    documents and the destination rows are shorter than [start + n], the
    write runs past their end. *)
Theorem append_past_the_end approx dst start dim n N :
  (0 < dim)%nat -> shaped dim n approx -> (0 < n)%nat ->
  Z.of_nat n < 2 ^ 31 -> shaped dim N dst -> (N < start + n)%nat ->
  Append approx dst start = Fail UndefinedBehaviour.
Proof.
  intros Hdim Ha Hpos Hn Hd Hshort. unfold Append.
  destruct (shape_lookup approx dim n 0 Ha Hdim) as (row0 & Hrow0 & Hl0).
  rewrite (at_Some _ _ _ Hrow0). simpl.
  rewrite Hl0, ui32_of_size_small
    by (change (2 ^ 31) with 2147483648 in Hn;
        change (2 ^ 32) with 4294967296; lia).
  rewrite (shaped_length _ _ _ Ha).
  set (inner := fun (d : nat) (dst : list (list double)) (i : nat) =>
         arow ← at_ approx d; v ← at_ arow i; drow ← at_ dst d;
         x ← at_ drow (start + i); drow' ← set_at drow (start + i) (dadd x v);
         set_at dst d drow').
  assert (forall d s i s', shaped dim N s -> inner d s i = Ok s' ->
                           shaped dim N s') as Hkeep.
  { intros d s i s' Hs H. unfold inner in H. inv_ok. subst.
    unfold shaped in *. rewrite <- Hs.
    eapply map_length_insert; [done|]. by rewrite length_insert. }
  assert (forall d s i e, inner d s i = Fail e -> e = UndefinedBehaviour)
    as Honly.
  { intros d s i e H. unfold inner in H. by inv_fail. }
  apply (for_each_fails (shaped dim N) UndefinedBehaviour _ _ 0%nat);
    [apply elem_of_seq; lia| | | |done].
  - intros s d. apply for_each_keeps. intros s1 i s2. apply Hkeep.
  - intros s d e _. apply for_each_only_fails. intros s1 i e1. apply Honly.
  - intros s Hs.
    apply (for_each_fails (shaped dim N) UndefinedBehaviour _ _ (N - start)%nat);
      [apply elem_of_seq; lia|by eauto|by eauto| |done].
    intros s1 Hs1. unfold inner.
    destruct (shape_lookup s1 dim N 0 Hs1 Hdim) as (drow & Hdrow & Hdl).
    destruct (at_ approx 0) as [arow|e] eqn:E1; simpl; [|by inv_fail; subst].
    destruct (at_ arow (N - start)) as [v|e] eqn:E2; simpl; [|by inv_fail; subst].
    rewrite (at_Some _ _ _ Hdrow). simpl.
    by rewrite (at_None drow) by lia.
Qed.

(** ** The two metric evaluators *)

(** X6: [ComputeAdditiveMetric] merges one evaluation of every additive
    metric into its cell at the slot: the other cells of the additive plots
    and all other members of the calcer stay as they are. *)
Theorem additive_evaluation_merges_into_slot approx target weights
  queriesInfo idx c :
  plots_shaped c -> (idx < length (Iterations c))%nat ->
  exists plots',
    ComputeAdditiveMetric approx target weights queriesInfo idx c
    = Ok (set_AdditiveMetricPlots plots' c)
    /\ forall j i,
         cell plots' j i
         = if decide (i = idx)
           then metric ← AdditiveMetrics c !! j;
                holder ← cell (AdditiveMetricPlots c) j idx;
                Some (holder_Add holder
                        (metric_eval metric approx target weights queriesInfo))
           else cell (AdditiveMetricPlots c) j i.
Proof.
  intros [Hshape _] Hidx.
  destruct (ComputeAdditiveMetric_spec approx target weights queriesInfo idx c
              Hshape Hidx) as (plots' & Hrun & _ & Hcells).
  by exists plots'.
Qed.

(** X7: the slot of [ComputeAdditiveMetric] is not checked: with an
    additive metric and a slot past the last checkpoint the plot line is
    indexed out of range. *)
Theorem additive_slot_out_of_range approx target weights queriesInfo idx c :
  plots_shaped c -> (0 < length (AdditiveMetrics c))%nat ->
  (length (Iterations c) <= idx)%nat ->
  ComputeAdditiveMetric approx target weights queriesInfo idx c
  = Fail UndefinedBehaviour.
Proof.
  intros [Hshape _] Hpos Hidx. unfold ComputeAdditiveMetric.
  destruct (AdditiveMetrics c) as [|metric metrics] eqn:Em;
    [simpl in Hpos; lia|].
  cbn [length seq for_each].
  rewrite Em. unfold at_ at 1. cbn [lookup list_lookup]. simpl.
  rewrite metric_eval_Ok. simpl.
  destruct (shape_lookup (AdditiveMetricPlots c) _ _ 0 Hshape ltac:(simpl; lia))
    as (plot & Hplot & Hlen).
  rewrite (at_Some _ _ _ Hplot). simpl.
  by rewrite (at_None plot idx) by lia.
Qed.

(** [EvalNonAdditiveMetrics] assigns one evaluation of every non-additive
    metric to its cell at the slot, and touches nothing else. *)
Lemma EvalNonAdditiveMetrics_spec approx target weights idx c :
  map length (NonAdditiveMetricPlots c)
  = replicate (length (NonAdditiveMetrics c)) (length (Iterations c)) ->
  (idx < length (Iterations c))%nat ->
  exists plots',
    EvalNonAdditiveMetrics approx target weights idx c
    = Ok (set_NonAdditiveMetricPlots plots' c)
    /\ map length plots' = map length (NonAdditiveMetricPlots c)
    /\ forall j i,
         cell plots' j i
         = if decide (i = idx /\ j < length (NonAdditiveMetrics c))%nat
           then metric ← NonAdditiveMetrics c !! j;
                Some (Eval metric approx target weights [] 0
                        (int_of_size (length target)))
           else cell (NonAdditiveMetricPlots c) j i.
Proof.
  intros Hshape Hidx. unfold EvalNonAdditiveMetrics.
  remember (NonAdditiveMetricPlots c) as plots eqn:Eplots.
  remember (NonAdditiveMetrics c) as metrics eqn:Emetrics.
  remember (length (Iterations c)) as cols eqn:Ecols.
  destruct (for_each_seq_inv
    (fun k s =>
       exists plots',
         s = set_NonAdditiveMetricPlots plots' c
         /\ map length plots' = map length plots
         /\ forall j i,
              cell plots' j i
              = if decide (i = idx /\ j < k)%nat
                then metric ← metrics !! j;
                     Some (Eval metric approx target weights [] 0
                             (int_of_size (length target)))
                else cell plots j i)
    (fun c metricId =>
       metric ← at_ (NonAdditiveMetrics c) metricId;
       plot ← at_ (NonAdditiveMetricPlots c) metricId;
       plot' ← set_at plot idx
                 (Eval metric approx target weights [] 0
                    (int_of_size (length target)));
       plots' ← set_at (NonAdditiveMetricPlots c) metricId plot';
       Ok (set_NonAdditiveMetricPlots plots' c))
    (length metrics) c) as (c' & Hrun & plots' & -> & Hs & Hc).
  - exists plots. split; [subst plots; by destruct c|]. split; [done|].
    intros j i. by rewrite decide_False by lia.
  - intros k s Hk (plots1 & -> & Hs1 & Hc1). simpl.
    rewrite <- Emetrics.
    destruct (lookup_lt_is_Some_2 metrics k Hk) as [metric Hmetric].
    rewrite (at_Some _ _ _ Hmetric). simpl.
    assert (map length plots1 = replicate (length metrics) cols) as Hs1'
      by congruence.
    destruct (shape_lookup plots1 _ _ k Hs1' Hk) as (plot & Hplot & Hlen).
    rewrite (at_Some _ _ _ Hplot). simpl.
    rewrite set_at_Some by lia. simpl.
    rewrite set_at_Some by (by eapply lookup_lt_Some).
    eexists. split; [done|]. eexists. split; [done|]. split.
    + rewrite <- Hs1. eapply map_length_insert; [done|]. by rewrite length_insert.
    + intros j i. rewrite (cell_insert plots1 k plot idx) by (done || lia).
      case_decide as Hd.
      * destruct Hd as [-> ->]. rewrite decide_True by lia.
        by rewrite Hmetric.
      * rewrite Hc1. repeat case_decide; try done; lia.
  - exists plots'. split; [done|]. split; [done|]. done.
Qed.

Lemma set_NonAdditiveMetricPlots_same c :
  set_NonAdditiveMetricPlots (NonAdditiveMetricPlots c) c = c.
Proof. by destruct c. Qed.

(** X8: [EvalNonAdditiveMetrics] assigns, it does not merge: the cell of
    every non-additive metric at the slot becomes the evaluation on the
    given predictions, whatever it held before, so evaluating the same
    predictions again changes nothing. *)
Theorem non_additive_evaluation_overwrites approx target weights idx c :
  plots_shaped c -> (idx < length (Iterations c))%nat ->
  exists plots',
    EvalNonAdditiveMetrics approx target weights idx c
    = Ok (set_NonAdditiveMetricPlots plots' c)
    /\ (forall j metric,
          NonAdditiveMetrics c !! j = Some metric ->
          cell plots' j idx
          = Some (Eval metric approx target weights [] 0
                    (int_of_size (length target))))
    /\ (forall j i, i <> idx ->
          cell plots' j i = cell (NonAdditiveMetricPlots c) j i)
    /\ EvalNonAdditiveMetrics approx target weights idx
         (set_NonAdditiveMetricPlots plots' c)
       = Ok (set_NonAdditiveMetricPlots plots' c).
Proof.
  intros [_ Hshape] Hidx.
  destruct (EvalNonAdditiveMetrics_spec approx target weights idx c Hshape Hidx)
    as (plots' & Hrun & Hs & Hcells).
  exists plots'. split; [done|]. split; [|split].
  - intros j metric Hj. rewrite Hcells, decide_True, Hj; [done|].
    split; [done|]. by eapply lookup_lt_Some.
  - intros j i Hi. rewrite Hcells, decide_False; [done|]. tauto.
  - set (c' := set_NonAdditiveMetricPlots plots' c).
    destruct (EvalNonAdditiveMetrics_spec approx target weights idx c')
      as (plots'' & Hrun' & Hs' & Hcells'); [simpl; congruence|done|].
    rewrite Hrun'. f_equal.
    assert (plots'' = plots') as ->; [|by destruct c].
    apply table_eq; [done|]. intros j i. rewrite Hcells'. simpl.
    case_decide as Hd; [|done]. by rewrite Hcells, decide_True.
Qed.

(** ** The snapshot store *)

Lemma GetApproxFileName_named_eq idx c p :
  ApproxFiles (NonAdditiveMetricsData c) !! idx = Some (Some p) ->
  GetApproxFileName idx c = Ok (p, c).
Proof.
  intros Hname. unfold GetApproxFileName.
  assert (idx < length (ApproxFiles (NonAdditiveMetricsData c)))%nat as Hlt
    by by eapply lookup_lt_Some.
  pose proof (ui32_of_size_le (idx + 1)) as Hle.
  destruct (Nat.ltb_spec (length (ApproxFiles (NonAdditiveMetricsData c)))
              (ui32_of_size (idx + 1))) as [?|_]; [lia|].
  rewrite (at_Some _ _ _ Hname). simpl. do 2 f_equal.
  destruct c as [? ? ? ? ? ? ? ? ? ? ? ? ? ? data ? ? ?]. simpl.
  by destruct data.
Qed.

Lemma GetApproxFileName_names idx c p c1 :
  GetApproxFileName idx c = Ok (p, c1) ->
  ApproxFiles (NonAdditiveMetricsData c1) !! idx = Some (Some p).
Proof.
  unfold GetApproxFileName.
  set (files := if (_ <? _)%nat then _ else _).
  intros H. apply bind_Ok in H as (name & Hat & H). apply at_Ok in Hat.
  destruct name as [q|].
  - injection H as <- <-. done.
  - apply bind_Ok in H as (files' & Hset & H). injection H as <- <-.
    apply set_at_Ok in Hset as [-> Hlen].
    destruct (TmpDirExists (Scratch c)); simpl;
      by rewrite list_lookup_insert_eq.
Qed.

(** X9: the name of a snapshot is stable: once [GetApproxFileName] has
    answered for a slot (below 2^32 - 1, so that the slot + 1 is a [ui32]),
    asking again gives the same path and changes nothing. *)
Theorem snapshot_name_is_stable idx c p c1 :
  Z.of_nat idx < 2 ^ 32 - 1 ->
  GetApproxFileName idx c = Ok (p, c1) ->
  GetApproxFileName idx c1 = Ok (p, c1).
Proof.
  intros _ H. apply GetApproxFileName_named_eq.
  by eapply GetApproxFileName_names.
Qed.

Lemma DeleteApprox_result idx c :
  Z.of_nat idx < 2 ^ 32 - 1 ->
  exists p c1,
    GetApproxFileName idx c = Ok (p, c1)
    /\ DeleteApprox idx c
       = Ok (set_Scratch (set_Files (delete p (Files (Scratch c1)))
                            (Scratch c1)) c1).
Proof.
  intros Hidx.
  destruct (GetApproxFileName_total idx c Hidx) as (p & c1 & Hname).
  exists p, c1. split; [done|]. unfold DeleteApprox. by rewrite Hname.
Qed.

(** X10: [DeleteApprox] succeeds in every state of the calcer, for every
    slot below 2^32 - 1; after it the snapshot of the slot cannot be loaded
    (the file is gone), and deleting once more changes nothing. *)
Theorem deleted_snapshot_is_gone idx c :
  Z.of_nat idx < 2 ^ 32 - 1 ->
  exists c1,
    DeleteApprox idx c = Ok c1
    /\ LoadApprox idx c1 = Fail ResourceError
    /\ DeleteApprox idx c1 = Ok c1.
Proof.
  intros Hidx.
  destruct (DeleteApprox_result idx c Hidx) as (p & c1 & Hname & Hdel).
  eexists. split; [exact Hdel|].
  apply GetApproxFileName_names in Hname.
  match goal with |- LoadApprox _ ?c2 = _ /\ _ =>
    assert (GetApproxFileName idx c2 = Ok (p, c2)) as Hname2
      by by apply GetApproxFileName_named_eq
  end.
  split.
  - unfold LoadApprox. rewrite Hname2. simpl. by rewrite lookup_delete_eq.
  - unfold DeleteApprox. rewrite Hname2. simpl.
    rewrite delete_delete_eq. done.
Qed.

(** X11: a slot (below 2^32 - 1) that was never given a snapshot cannot be
    loaded: naming it leaves no file under its path, and opening the missing
    file fails. *)
Theorem unsaved_snapshot_cannot_be_loaded idx c :
  Z.of_nat idx < 2 ^ 32 - 1 ->
  snapshot_unnamed idx c -> LoadApprox idx c = Fail ResourceError.
Proof.
  intros Hidx Hun.
  destruct (GetApproxFileName_total idx c Hidx) as (p & c1 & Hname).
  destruct (GetApproxFileName_unnamed idx c p c1 Hun Hname)
    as (_ & Hfresh & _ & _).
  unfold LoadApprox. rewrite Hname. simpl. by rewrite Hfresh.
Qed.

Lemma hcat_pair_lookup dim (a b : list (list double)) n1 n2 r :
  shaped dim n1 a -> shaped dim n2 b -> (r < dim)%nat ->
  exists ra rb,
    a !! r = Some ra /\ b !! r = Some rb /\ length ra = n1 /\ length rb = n2
    /\ hcat dim [a; b] !! r = Some (ra ++ rb).
Proof.
  intros Ha Hb Hr.
  destruct (shape_lookup a dim n1 r Ha Hr) as (ra & Hra & Hla).
  destruct (shape_lookup b dim n2 r Hb Hr) as (rb & Hrb & Hlb).
  exists ra, rb. repeat (split; [done|]).
  rewrite hcat_lookup, decide_True by done. simpl.
  by rewrite Hra, Hrb, app_nil_r.
Qed.

Lemma shaped_hcat_pair dim (a b : list (list double)) n1 n2 :
  shaped dim n1 a -> shaped dim n2 b ->
  shaped dim (n1 + n2) (hcat dim [a; b]).
Proof.
  intros Ha Hb. unfold shaped. apply list_eq. intros r.
  change (map length) with (fmap (M := list) (length (A := double))).
  rewrite list_lookup_fmap.
  destruct (decide (r < dim)%nat) as [Hr|Hr].
  - destruct (hcat_pair_lookup dim a b n1 n2 r Ha Hb Hr)
      as (ra & rb & _ & _ & Hla & Hlb & ->).
    rewrite lookup_replicate_2 by done. simpl. by rewrite length_app, Hla, Hlb.
  - rewrite hcat_lookup, decide_False by done. simpl. symmetry.
    apply lookup_replicate_None. lia.
Qed.

Lemma document_line_hcat_pair dim (a b : list (list double)) n1 n2 i :
  shaped dim n1 a -> shaped dim n2 b ->
  document_line (hcat dim [a; b]) i
  = if decide (i < n1)%nat then document_line a i
    else document_line b (i - n1).
Proof.
  intros Ha Hb. unfold document_line. apply list_eq. intros r.
  change (map ?f) with (fmap (M := list) f).
  destruct (decide (r < dim)%nat) as [Hr|Hr].
  - destruct (hcat_pair_lookup dim a b n1 n2 r Ha Hb Hr)
      as (ra & rb & Hra & Hrb & Hla & Hlb & Hh).
    rewrite list_lookup_fmap, Hh. simpl. case_decide as Hi.
    + rewrite list_lookup_fmap, Hra. simpl. by rewrite lookup_app_l by lia.
    + rewrite list_lookup_fmap, Hrb. simpl.
      by rewrite lookup_app_r, Hla by lia.
  - rewrite list_lookup_fmap, hcat_lookup, decide_False by done. simpl.
    symmetry. case_decide; rewrite list_lookup_fmap.
    + rewrite (lookup_ge_None_2 a); [done|]. rewrite (shaped_length _ _ _ Ha). lia.
    + rewrite (lookup_ge_None_2 b); [done|]. rewrite (shaped_length _ _ _ Hb). lia.
Qed.

Lemma serialized_hcat_pair dim (a b : list (list double)) n1 n2 :
  shaped dim n1 a -> shaped dim n2 b ->
  serialized (hcat dim [a; b]) (n1 + n2) = serialized a n1 ++ serialized b n2.
Proof.
  intros Ha Hb.
  assert (forall k, (k <= n1)%nat ->
            serialized (hcat dim [a; b]) k = serialized a k) as Hleft.
  { induction k as [|k IH]; intros Hk; [done|].
    rewrite !serialized_S, IH by lia. f_equal.
    by rewrite (document_line_hcat_pair dim a b n1 n2), decide_True
      by (done || lia). }
  assert (forall k, (k <= n2)%nat ->
            serialized (hcat dim [a; b]) (n1 + k)
            = serialized a n1 ++ serialized b k) as Hright.
  { induction k as [|k IH]; intros Hk.
    - rewrite Nat.add_0_r, Hleft by lia. unfold serialized at 2. simpl.
      by rewrite app_nil_r.
    - rewrite Nat.add_succ_r, !serialized_S, IH, app_assoc by lia. f_equal.
      rewrite (document_line_hcat_pair dim a b n1 n2), decide_False
        by (done || lia).
      do 2 f_equal. lia. }
  by apply Hright.
Qed.

Lemma Forall_doubles_hcat_pair dim (a b : list (list double)) :
  Forall (Forall is_double) a -> Forall (Forall is_double) b ->
  Forall (Forall is_double) (hcat dim [a; b]).
Proof.
  intros Ha Hb. apply Forall_forall. intros row Hrow.
  apply list_elem_of_lookup in Hrow as [r Hr].
  rewrite hcat_lookup in Hr. case_decide; [|done]. injection Hr as <-.
  simpl. rewrite app_nil_r. apply Forall_app. split.
  - destruct (a !! r) as [ra|] eqn:E; simpl; [|done].
    rewrite Forall_forall in Ha. apply Ha. by eapply list_elem_of_lookup_2.
  - destruct (b !! r) as [rb|] eqn:E; simpl; [|done].
    rewrite Forall_forall in Hb. apply Hb. by eapply list_elem_of_lookup_2.
Qed.

Lemma shaped_zero_matrix dim n :
  shaped dim n (replicate dim (replicate n dzero)).
Proof.
  unfold shaped.
  change (map length) with (fmap (M := list) (length (A := double))).
  by rewrite fmap_replicate, length_replicate.
Qed.

(** X12: the snapshots of successive chunks concatenate: after the matrices
    of two chunks were saved to the same slot, one after the other, the
    snapshot that [LoadApprox] reads for the collected targets of both chunks
    is the two matrices side by side. *)
Theorem snapshots_of_chunks_concatenate idx (a b : list (list double)) n1 n2
  c :
  codec_lossless -> Z.of_nat idx < 2 ^ 32 - 1 ->
  (0 < ApproxDimension)%nat -> Z.of_nat ApproxDimension < 2 ^ 31 ->
  shaped ApproxDimension n1 a -> shaped ApproxDimension n2 b ->
  Z.of_nat (n1 + n2) < 2 ^ 32 ->
  Forall (Forall is_double) a -> Forall (Forall is_double) b ->
  length (Target (NonAdditiveMetricsData c)) = (n1 + n2)%nat ->
  snapshot_unnamed idx c ->
  exists c1 c2,
    SaveApproxToFile idx a c = Ok c1
    /\ SaveApproxToFile idx b c1 = Ok c2
    /\ LoadApprox idx c2 = Ok (hcat ApproxDimension [a; b], c2).
Proof.
  intros Hcodec Hidx Hdim Hint Ha Hb Hn Hva Hvb Htarget Hun.
  destruct (SaveApproxToFile_spec idx a ApproxDimension n1 c Hidx Hdim Ha
              ltac:(lia))
    as (p & c0 & Hname & Hsave).
  destruct (GetApproxFileName_unnamed idx c p c0 Hun Hname)
    as (_ & Hfresh & Hnamed & Htgt).
  rewrite Hfresh in Hsave. simpl in Hsave.
  match type of Hsave with _ = Ok ?x => set (c1 := x) in * end.
  assert (GetApproxFileName idx c1 = Ok (p, c1)) as Hname1
    by by apply GetApproxFileName_named_eq.
  destruct (SaveApproxToFile_spec idx b ApproxDimension n2 c1 Hidx Hdim Hb
              ltac:(lia))
    as (p' & c1' & Hname1' & Hsave2).
  rewrite Hname1 in Hname1'. injection Hname1' as <- <-.
  assert (Files (Scratch c1) !! p = Some (serialized a n1)) as Hfile.
  { subst c1. simpl. by rewrite lookup_insert_eq. }
  rewrite Hfile in Hsave2. simpl in Hsave2.
  match type of Hsave2 with _ = Ok ?x => set (c2 := x) in * end.
  exists c1, c2. split; [exact Hsave|]. split; [exact Hsave2|].
  assert (GetApproxFileName idx c2 = Ok (p, c2)) as Hname2
    by by apply GetApproxFileName_named_eq.
  unfold LoadApprox. rewrite Hname2. simpl.
  rewrite lookup_insert_eq. rewrite Htgt, Htarget, ui32_of_size_small by done.
  rewrite <- (serialized_hcat_pair ApproxDimension a b n1 n2) by done.
  pose proof (Load_serialized (hcat ApproxDimension [a; b])
                (replicate ApproxDimension (replicate (n1 + n2)%nat dzero))
                ApproxDimension (n1 + n2) [] Hcodec Hint) as Hload.
  rewrite app_nil_r in Hload. rewrite Hload; [done| | |].
  - by apply shaped_hcat_pair.
  - by apply Forall_doubles_hcat_pair.
  - apply shaped_zero_matrix.
Qed.

(** X13: the static [Load] consumes exactly the lines of its documents: from
    a stream that holds the snapshot of one chunk followed by that of the
    next, two loads give the first matrix and then the second, and leave
    what follows in the stream. *)
Theorem stream_is_read_chunk_by_chunk (a b out1 out2 : list (list double))
  dim n1 n2 rest :
  codec_lossless -> Z.of_nat dim < 2 ^ 31 ->
  shaped dim n1 a -> shaped dim n2 b ->
  Forall (Forall is_double) a -> Forall (Forall is_double) b ->
  shaped dim n1 out1 -> shaped dim n2 out2 ->
  Load n1 (serialized a n1 ++ serialized b n2 ++ rest) out1
  = Ok (a, serialized b n2 ++ rest)
  /\ Load n2 (serialized b n2 ++ rest) out2 = Ok (b, rest).
Proof.
  intros Hcodec Hdim Ha Hb Hva Hvb Ho1 Ho2.
  split; by eapply Load_serialized.
Qed.

(** ** What the operations keep *)

Section Preserved.

(** A preorder on calcers that the writes of an operation respect is
    respected by the operation. *)
Variable R : TMetricsPlotCalcer -> TMetricsPlotCalcer -> Prop.
Context `{!Reflexive R, !Transitive R}.

Hypothesis R_CurApproxBuffer : forall v c, R c (set_CurApproxBuffer v c).
Hypothesis R_NextApproxBuffer : forall v c, R c (set_NextApproxBuffer v c).
Hypothesis R_LastApproxes : forall v c, R c (set_LastApproxes v c).
Hypothesis R_AdditiveMetricPlots :
  forall v c, R c (set_AdditiveMetricPlots v c).
Hypothesis R_NonAdditiveMetricPlots :
  forall v c, R c (set_NonAdditiveMetricPlots v c).
Hypothesis R_ProcessedIterationsCount :
  forall v c, R c (set_ProcessedIterationsCount v c).
Hypothesis R_Target_Weights :
  forall t w c,
    R c (set_NonAdditiveMetricsData
           (set_Target_Weights t w (NonAdditiveMetricsData c)) c).
Hypothesis R_GetApproxFileName :
  forall i c p c', GetApproxFileName i c = Ok (p, c') -> R c c'.
Hypothesis R_Files :
  forall v c, R c (set_Scratch (set_Files v (Scratch c)) c).

#[local] Instance related_on_refl {St} (proj : St -> TMetricsPlotCalcer) :
  Reflexive (related_on R proj).
Proof. intros s. unfold related_on. reflexivity. Qed.

#[local] Instance related_on_trans {St} (proj : St -> TMetricsPlotCalcer) :
  Transitive (related_on R proj).
Proof. intros s1 s2 s3. unfold related_on. apply transitivity. Qed.

Lemma SaveApproxToFile_preserves i approx c c' :
  SaveApproxToFile i approx c = Ok c' -> R c c'.
Proof.
  unfold SaveApproxToFile. intros H. inv_ok. subst.
  etransitivity; [by eapply R_GetApproxFileName|]. apply R_Files.
Qed.

Lemma LoadApprox_preserves i c m c' : LoadApprox i c = Ok (m, c') -> R c c'.
Proof.
  unfold LoadApprox. intros H. inv_ok. subst. by eapply R_GetApproxFileName.
Qed.

Lemma DeleteApprox_preserves i c c' : DeleteApprox i c = Ok c' -> R c c'.
Proof.
  unfold DeleteApprox. intros H. inv_ok. subst.
  etransitivity; [by eapply R_GetApproxFileName|]. apply R_Files.
Qed.

Lemma ComputeAdditiveMetric_preserves approx target weights queriesInfo i c c' :
  ComputeAdditiveMetric approx target weights queriesInfo i c = Ok c' ->
  R c c'.
Proof.
  unfold ComputeAdditiveMetric.
  apply (for_each_rel R). intros s x s' _ H.
  inv_ok; subst; apply R_AdditiveMetricPlots.
Qed.

Lemma EvalNonAdditiveMetrics_preserves approx target weights i c c' :
  EvalNonAdditiveMetrics approx target weights i c = Ok c' -> R c c'.
Proof.
  unfold EvalNonAdditiveMetrics.
  apply (for_each_rel R). intros s x s' _ H.
  inv_ok; subst; apply R_NonAdditiveMetricPlots.
Qed.

Lemma ComputeNonAdditiveMetrics_preserves b e c c' :
  ComputeNonAdditiveMetrics b e c = Ok c' -> R c c'.
Proof.
  unfold ComputeNonAdditiveMetrics.
  apply (for_each_rel R). intros s x s' _ H. inv_ok.
  - etransitivity; [by eapply LoadApprox_preserves|].
    etransitivity; [by eapply EvalNonAdditiveMetrics_preserves|].
    by eapply DeleteApprox_preserves.
  - subst. etransitivity; [by eapply LoadApprox_preserves|].
    by eapply EvalNonAdditiveMetrics_preserves.
Qed.

Lemma FinishProceedDataSetForNonAdditiveMetrics_preserves c c' :
  FinishProceedDataSetForNonAdditiveMetrics c = Ok c' -> R c c'.
Proof.
  unfold FinishProceedDataSetForNonAdditiveMetrics. intros H.
  apply bind_Ok in H as (c1 & H1 & H).
  apply ComputeNonAdditiveMetrics_preserves in H1.
  etransitivity; [exact H1|].
  etransitivity; [apply (R_ProcessedIterationsCount (WindowEnd c))|].
  destruct (AreAllIterationsProcessed _).
  - by eapply DeleteApprox_preserves.
  - inv_ok. subst.
    etransitivity; [by eapply R_GetApproxFileName|]. apply R_LastApproxes.
Qed.

Lemma ComputeNonAdditiveMetricsOnParts_preserves parts c c' :
  result (ComputeNonAdditiveMetricsOnParts parts c) = Ok c' -> R c c'.
Proof.
  unfold ComputeNonAdditiveMetricsOnParts. intros H.
  apply traced_bind_Ok in H as (cur & _ & H).
  apply traced_bind_Ok in H as ([[end_ cur'] c2] & H2 & H).
  injection H as <-.
  apply (for_each_traced_rel (related_on R snd)) in H2; [done|].
  intros [[b1 a1] s] x [[b2 a2] s'] _ Hb. unfold related_on. simpl.
  apply traced_bind_Ok in Hb as (it & _ & Hb).
  apply traced_bind_Ok in Hb as ([a3 s3] & Hparts & Hb).
  apply traced_bind_Ok in Hb as (? & _ & Hb).
  apply traced_bind_Ok in Hb as (s4 & Hs & Hb).
  injection Hb as _ _ <-.
  unfold lift in Hs. simpl in Hs.
  apply EvalNonAdditiveMetrics_preserves in Hs.
  etransitivity; [|exact Hs].
  apply (for_each_traced_rel (related_on R snd)) in Hparts; [done|].
  intros [a5 s5] y [a6 s6] _ Hp. unfold related_on. simpl.
  apply traced_bind_Ok in Hp as (part & _ & Hp).
  apply traced_bind_Ok in Hp as (? & _ & Hp).
  apply traced_bind_Ok in Hp as (start & _ & Hp).
  apply traced_bind_Ok in Hp as (a7 & _ & Hp).
  injection Hp as _ <-. apply R_NextApproxBuffer.
Qed.

Lemma ProceedDataSet_additive_preserves d e c c' :
  result (ProceedDataSet d 0 e true c) = Ok c' -> R c c'.
Proof.
  unfold ProceedDataSet. cbn [Nat.eqb]. intros H.
  apply traced_bind_Ok in H as (cur & _ & H).
  apply traced_bind_Ok in H as ([begin_ c1] & H1 & H).
  apply traced_bind_Ok in H as ([end_ c2] & H2 & H).
  injection H as <-.
  unfold lift in H1. simpl in H1. injection H1 as _ <-.
  assert (R (set_CurApproxBuffer cur c) c2) as F2.
  { apply (for_each_traced_rel (related_on R snd)) in H2; [done|].
    intros [b1 s] x [b2 s'] _ Hb. unfold related_on. simpl.
    apply traced_bind_Ok in Hb as (it & _ & Hb).
    apply traced_bind_Ok in Hb as (? & _ & Hb).
    apply traced_bind_Ok in Hb as (cur' & _ & Hb).
    apply traced_bind_Ok in Hb as (? & _ & Hb).
    apply traced_bind_Ok in Hb as (s1 & Hs & Hb).
    injection Hb as _ <-.
    unfold lift in Hs. simpl in Hs.
    apply ComputeAdditiveMetric_preserves in Hs.
    etransitivity; [|exact Hs].
    etransitivity; [apply R_NextApproxBuffer|apply R_CurApproxBuffer]. }
  etransitivity; [apply R_CurApproxBuffer|].
  etransitivity; [exact F2|].
  etransitivity; [apply R_CurApproxBuffer|apply R_NextApproxBuffer].
Qed.

Lemma ProceedDataSet_snapshots_preserves d b e c c' :
  result (ProceedDataSet d b e false c) = Ok c' -> R c c'.
Proof.
  unfold ProceedDataSet. intros H.
  apply traced_bind_Ok in H as (cur & _ & H).
  apply traced_bind_Ok in H as ([begin_ c1] & H1 & H).
  apply traced_bind_Ok in H as ([end_ c2] & H2 & H).
  injection H as <-.
  assert (R c c1) as F1.
  { unfold lift in H1. simpl in H1. inv_ok; subst;
      first [ apply R_CurApproxBuffer
            | etransitivity; [apply R_CurApproxBuffer|];
              etransitivity; [apply R_CurApproxBuffer|apply R_LastApproxes] ]. }
  assert (R c1 c2) as F2.
  { apply (for_each_traced_rel (related_on R snd)) in H2; [done|].
    intros [b1 s] x [b2 s'] _ Hb. unfold related_on. simpl.
    apply traced_bind_Ok in Hb as (it & _ & Hb).
    apply traced_bind_Ok in Hb as (? & _ & Hb).
    apply traced_bind_Ok in Hb as (cur' & _ & Hb).
    apply traced_bind_Ok in Hb as (? & _ & Hb).
    apply traced_bind_Ok in Hb as (s1 & Hs & Hb).
    injection Hb as _ <-.
    unfold lift in Hs. simpl in Hs.
    apply SaveApproxToFile_preserves in Hs.
    etransitivity; [|exact Hs].
    etransitivity; [apply R_NextApproxBuffer|apply R_CurApproxBuffer]. }
  etransitivity; [exact F1|]. etransitivity; [exact F2|].
  etransitivity; [apply R_CurApproxBuffer|apply R_NextApproxBuffer].
Qed.

Lemma ProceedDataSetForNonAdditiveMetrics_preserves d c c' :
  result (ProceedDataSetForNonAdditiveMetrics d c) = Ok c' -> R c c'.
Proof.
  unfold ProceedDataSetForNonAdditiveMetrics. intros H.
  apply ProceedDataSet_snapshots_preserves in H.
  etransitivity; [|exact H].
  destruct (ProcessedIterationsCount c =? 0); [|reflexivity].
  apply R_Target_Weights.
Qed.

End Preserved.

#[local] Instance keeps_refl {X} (f : TMetricsPlotCalcer -> X) :
  Reflexive (keeps f).
Proof. by intros c. Qed.

#[local] Instance keeps_trans {X} (f : TMetricsPlotCalcer -> X) :
  Transitive (keeps f).
Proof. intros c1 c2 c3. unfold keeps. congruence. Qed.

#[local] Instance keeps_invariant_refl J : Reflexive (keeps_invariant J).
Proof. intros c. unfold keeps_invariant. auto. Qed.

#[local] Instance keeps_invariant_trans J : Transitive (keeps_invariant J).
Proof. intros c1 c2 c3. unfold keeps_invariant. auto. Qed.

(** [GetApproxFileName] writes the snapshot names, the scratch directory and
    its flag only. *)
Lemma GetApproxFileName_keeps {X} (f : TMetricsPlotCalcer -> X) i c p c' :
  (forall v c, f (set_NonAdditiveMetricsData v c) = f c) ->
  (forall v c, f (set_Scratch v c) = f c) ->
  (forall v c, f (set_DeleteTmpDirOnExitFlag v c) = f c) ->
  GetApproxFileName i c = Ok (p, c') -> keeps f c c'.
Proof.
  intros Hd Hs Hf. unfold GetApproxFileName, keeps. intros H. inv_ok; subst;
    destruct (TmpDirExists (Scratch c)); by rewrite ?Hd, ?Hs, ?Hf.
Qed.

(** X14: the pass for the additive metrics has no part in the non-additive
    side: it leaves the non-additive plots, the collected targets and
    snapshot names, the scratch directory and its flag, the window counter
    and the resume stream as they are. *)
Theorem additive_pass_keeps_the_non_additive_side d c c' :
  result (ProceedDataSetForAdditiveMetrics d c) = Ok c' ->
  NonAdditiveMetricPlots c' = NonAdditiveMetricPlots c
  /\ NonAdditiveMetricsData c' = NonAdditiveMetricsData c
  /\ Scratch c' = Scratch c
  /\ ProcessedIterationsCount c' = ProcessedIterationsCount c
  /\ LastApproxes c' = LastApproxes c
  /\ DeleteTmpDirOnExitFlag c' = DeleteTmpDirOnExitFlag c.
Proof.
  intros H. unfold ProceedDataSetForAdditiveMetrics in H.
  apply (ProceedDataSet_additive_preserves (keeps non_additive_side)) in H;
    [|done..].
  unfold keeps, non_additive_side in H. by injection H.
Qed.

(** X15: the operations for the non-additive metrics leave the plots of the
    additive metrics as they are. *)
Theorem non_additive_operations_keep_the_additive_plots c op c' :
  (forall d, op <> OpProceedDataSetForAdditiveMetrics d) ->
  result (perform c op) = Ok c' ->
  AdditiveMetricPlots c' = AdditiveMetricPlots c.
Proof.
  intros Hop H.
  assert (forall i c p c', GetApproxFileName i c = Ok (p, c') ->
                           keeps AdditiveMetricPlots c c') as Hname.
  { intros i c0 p c1. by apply GetApproxFileName_keeps. }
  destruct op as [d|d| |parts]; simpl in H.
  - by destruct (Hop d).
  - by apply (ProceedDataSetForNonAdditiveMetrics_preserves
                (keeps AdditiveMetricPlots)) in H.
  - by apply (FinishProceedDataSetForNonAdditiveMetrics_preserves
                (keeps AdditiveMetricPlots)) in H.
  - by apply (ComputeNonAdditiveMetricsOnParts_preserves
                (keeps AdditiveMetricPlots)) in H.
Qed.

Lemma for_each_traced_keeps {A St} (P : St -> Prop) (l : list A)
  (body : St -> A -> traced St) :
  (forall s y s', P s -> result (body s y) = Ok s' -> P s') ->
  forall s s', P s -> result (for_each_traced l body s) = Ok s' -> P s'.
Proof.
  intros Hkeep. induction l as [|y l IH]; intros s s' Hs H; simpl in H.
  - by injection H as <-.
  - apply traced_bind_Ok in H as (s1 & H1 & H). eapply IH; [|exact H].
    by eapply Hkeep.
Qed.

Lemma ClearApproxBuffer_cleared m :
  Forall (fun row : list double => row = []) (ClearApproxBuffer m).
Proof.
  unfold ClearApproxBuffer. apply Forall_forall. intros row Hrow.
  by apply list_elem_of_In, in_map_iff in Hrow as (? & <- & _).
Qed.

(** [ProceedDataSet] ends by clearing both buffers. *)
Lemma ProceedDataSet_clears d b e (isAdditive : bool) c c' :
  result (ProceedDataSet d b e isAdditive c) = Ok c' ->
  Forall (fun row => row = []) (CurApproxBuffer c')
  /\ Forall (fun row => row = []) (NextApproxBuffer c').
Proof.
  unfold ProceedDataSet. intros H.
  apply traced_bind_Ok in H as (cur & _ & H).
  apply traced_bind_Ok in H as ([begin_ c1] & _ & H).
  apply traced_bind_Ok in H as ([end_ c2] & _ & H).
  injection H as <-. simpl. split; apply ClearApproxBuffer_cleared.
Qed.

(** Every operation leaves the running buffer with empty rows only. *)
Lemma perform_clears_buffer s op s' :
  Forall (fun row => row = []) (CurApproxBuffer s) ->
  result (perform s op) = Ok s' ->
  Forall (fun row => row = []) (CurApproxBuffer s').
Proof.
  assert (forall i c p c', GetApproxFileName i c = Ok (p, c') ->
                           keeps CurApproxBuffer c c') as Hname.
  { intros i c0 p c1. by apply GetApproxFileName_keeps. }
  intros Hs H. destruct op as [d|d| |parts]; simpl in H.
  - by apply ProceedDataSet_clears in H as [? _].
  - by apply ProceedDataSet_clears in H as [? _].
  - apply (FinishProceedDataSetForNonAdditiveMetrics_preserves
             (keeps CurApproxBuffer)) in H; [|done..].
    unfold keeps in H. by rewrite H.
  - apply (ComputeNonAdditiveMetricsOnParts_preserves
             (keeps CurApproxBuffer)) in H; [|done..].
    unfold keeps in H. by rewrite H.
Qed.

(** X16: between the operations of a calcer the running buffer holds only
    empty rows: the constructor leaves it empty, every pass clears it at
    its end, and no other operation writes it. So every pass from checkpoint
    slot 0 starts from the baseline or from zeros. *)
Theorem running_buffer_is_empty_between_operations fuel metrics tmpDirExists
  first last_ step processIterationStep c ops c' :
  MakeCalcer fuel metrics tmpDirExists first last_ step processIterationStep
  = Some (Ok c) ->
  result (perform_all ops c) = Ok c' ->
  Forall (fun row => row = []) (CurApproxBuffer c').
Proof.
  intros Hmade. apply MakeCalcer_Ok in Hmade as (_ & _ & _ & _ & _ & _ & H0).
  revert c' . revert c H0. unfold perform_all.
  induction ops as [|op ops IH]; intros c H0 c' H; simpl in H.
  - by injection H as <-.
  - apply traced_bind_Ok in H as (c1 & H1 & H).
    apply (IH c1); [|exact H]. by apply (perform_clears_buffer c op).
Qed.

Lemma MakeCalcer_scratch fuel metrics tmpDirExists first last_ step pis c :
  MakeCalcer fuel metrics tmpDirExists first last_ step pis = Some (Ok c) ->
  TmpDirExists (Scratch c) = tmpDirExists
  /\ Files (Scratch c) = ∅
  /\ DeleteTmpDirOnExitFlag c = false
  /\ NonAdditiveMetricsData c
     = {| ApproxFiles := []; Target := []; Weights := [] |}
  /\ ProcessedIterationsCount c = 0
  /\ ProcessedIterationsStep c = pis
  /\ LastApproxes c = None.
Proof.
  unfold MakeCalcer. intros H.
  destruct (EnsureCorrectParams first last_ step); [|by injection H].
  destruct (BuildIterations fuel first last_ step) as [[its|]|];
    [|by injection H|done].
  simpl in H. destruct (ClassifyMetrics metrics) as [[[[? ?] ?] ?]|];
    [|by injection H].
  simpl in H. by injection H as <-.
Qed.

Lemma GetApproxFileName_directory_flag tmpDirExists i c p c' :
  GetApproxFileName i c = Ok (p, c') ->
  keeps_invariant (directory_flag_marks_own tmpDirExists) c c'.
Proof.
  unfold GetApproxFileName, keeps_invariant, directory_flag_marks_own.
  intros H [Hflag Hdir]. inv_ok; subst;
    destruct tmpDirExists;
    try (specialize (Hdir eq_refl));
    destruct (TmpDirExists (Scratch c)) eqn:E; simpl in *;
    rewrite ?E; try split; (done || congruence).
Qed.

(** X17: [DeleteTmpDirOnExitFlag], unset in a new calcer, marks the scratch
    directory as the calcer's own: after any operations of a constructed
    calcer it is set exactly when the directory did not exist at construction
    and the calcer has created it since; a directory that existed beforehand
    is never marked. *)
Theorem directory_flag_marks_the_calcers_own_directory fuel metrics
  tmpDirExists first last_ step processIterationStep c ops c' :
  MakeCalcer fuel metrics tmpDirExists first last_ step processIterationStep
  = Some (Ok c) ->
  result (perform_all ops c) = Ok c' ->
  DeleteTmpDirOnExitFlag c' = negb tmpDirExists && TmpDirExists (Scratch c')
  /\ (tmpDirExists = true -> TmpDirExists (Scratch c') = true).
Proof.
  intros Hmade Hops.
  apply MakeCalcer_scratch in Hmade as (Hdir & _ & Hflag & _).
  pose (R := keeps_invariant (directory_flag_marks_own tmpDirExists)).
  assert (forall i c p c', GetApproxFileName i c = Ok (p, c') -> R c c')
    as Hname by apply GetApproxFileName_directory_flag.
  unfold keeps_invariant, directory_flag_marks_own in R.
  assert (R c c') as HR.
  { apply (for_each_traced_rel R) in Hops; [done|].
    intros s op s' _ H. destruct op as [d|d| |parts]; simpl in H.
    - apply (ProceedDataSet_additive_preserves R) in H;
        [done|first [exact Hname | intros; unfold R; simpl; done]..].
    - apply (ProceedDataSetForNonAdditiveMetrics_preserves R) in H;
        [done|first [exact Hname | intros; unfold R; simpl; done]..].
    - apply (FinishProceedDataSetForNonAdditiveMetrics_preserves R) in H;
        [done|first [exact Hname | intros; unfold R; simpl; done]..].
    - apply (ComputeNonAdditiveMetricsOnParts_preserves R) in H;
        [done|first [exact Hname | intros; unfold R; simpl; done]..]. }
  apply HR. split.
  - rewrite Hflag, Hdir. by destruct tmpDirExists.
  - intros ->. exact Hdir.
Qed.

(** ** A chunk fed for the additive metrics *)

(** X18: whatever operations a constructed calcer has performed, feeding a
    chunk for the additive metrics succeeds, and merges into the cell of
    every additive metric at every checkpoint the metric's evaluation on the
    chunk's predictions at that checkpoint; the non-additive plots and the
    checkpoints are as before. *)
Theorem additive_chunk_merges_into_every_cell fuel metrics tmpDirExists first
  last_ step processIterationStep c0 ops c d :
  MakeCalcer fuel metrics tmpDirExists first last_ step processIterationStep
  = Some (Ok c0) ->
  result (perform_all ops c0) = Ok c ->
  (0 < ApproxDimension)%nat -> chunk_ok d ->
  exists c',
    result (ProceedDataSetForAdditiveMetrics d c) = Ok c'
    /\ Iterations c' = Iterations c
    /\ NonAdditiveMetricPlots c' = NonAdditiveMetricPlots c
    /\ forall j i metric,
         AdditiveMetrics c !! j = Some metric ->
         (i < length (Iterations c))%nat ->
         exists holder,
           cell (AdditiveMetricPlots c) j i = Some holder
           /\ cell (AdditiveMetricPlots c') j i
              = Some (holder_Add holder (pass_eval (Iterations c) metric d i)).
Proof.
  intros Hmade Hops Hdim Hd.
  pose proof (perform_all_frame _ _ _ Hops) as Hfr.
  apply MakeCalcer_Ok in Hmade as (_ & _ & _ & Hshape & _ & _ & H0).
  assert (Forall (fun row => row = []) (CurApproxBuffer c)) as Hbuf.
  { revert Hops. apply (for_each_traced_keeps
      (fun c => Forall (fun row => row = []) (CurApproxBuffer c))); [|exact H0].
    intros s op s' Hs H. by apply (perform_clears_buffer s op). }
  pose proof (plots_shaped_frame _ _ Hfr Hshape) as Hp.
  destruct (additive_pass_cells d c Hdim Hd Hbuf Hp)
    as (c' & Hrun & Hfr' & _ & Hnon & Hcells).
  exists c'. split; [exact Hrun|]. split; [apply Hfr'|]. split; [exact Hnon|].
  intros j i metric Hj Hi. specialize (Hcells j i). rewrite Hj in Hcells.
  destruct Hp as [Hpa _].
  destruct (cell (AdditiveMetricPlots c) j i) as [holder|] eqn:Hc.
  - exists holder. split; [done|]. exact Hcells.
  - exfalso. unfold cell in Hc.
    apply lookup_lt_Some in Hj.
    destruct (shape_lookup (AdditiveMetricPlots c) _ _ j Hpa) as (row & Hrow & Hlen);
      [lia|].
    rewrite Hrow in Hc. simpl in Hc. apply lookup_ge_None in Hc. lia.
Qed.

(** ** The window of the non-additive pass *)

Lemma GetApproxFileName_keeps_targets i c p c' :
  GetApproxFileName i c = Ok (p, c') ->
  keeps (fun c => (Target (NonAdditiveMetricsData c),
                   Weights (NonAdditiveMetricsData c))) c c'.
Proof.
  unfold GetApproxFileName, keeps. intros H. inv_ok; subst;
    by destruct (TmpDirExists (Scratch c)).
Qed.

(** X19: the targets and weights of a chunk are collected only while no
    window has been finished: in the first window every chunk fed for the
    non-additive metrics appends its targets and weights to the collected
    ones, in later windows the collected ones do not change; the pass itself
    never moves the window counter. *)
Theorem targets_are_collected_in_the_first_window d c c' :
  result (ProceedDataSetForNonAdditiveMetrics d c) = Ok c' ->
  Target (NonAdditiveMetricsData c')
  = (if ProcessedIterationsCount c =? 0
     then Target (NonAdditiveMetricsData c) ++ GetTarget d
     else Target (NonAdditiveMetricsData c))
  /\ Weights (NonAdditiveMetricsData c')
     = (if ProcessedIterationsCount c =? 0
        then Weights (NonAdditiveMetricsData c) ++ GetWeights d
        else Weights (NonAdditiveMetricsData c))
  /\ ProcessedIterationsCount c' = ProcessedIterationsCount c.
Proof.
  unfold ProceedDataSetForNonAdditiveMetrics. intros H.
  apply (ProceedDataSet_snapshots_preserves
           (keeps (fun c => (Target (NonAdditiveMetricsData c),
                             Weights (NonAdditiveMetricsData c),
                             ProcessedIterationsCount c)))) in H;
    [|try done..].
  - unfold keeps in H. injection H as -> -> ->.
    by destruct (ProcessedIterationsCount c =? 0).
  - intros i c0 p c1 Hname. pose proof Hname as Hname'.
    apply GetApproxFileName_keeps_targets in Hname.
    apply (GetApproxFileName_keeps ProcessedIterationsCount) in Hname';
      [|done..].
    unfold keeps in *. congruence.
Qed.

(** X20: finishing a window moves the window counter to the end of the
    window, the smaller of counter + window size and the number of
    checkpoints: never past the last checkpoint. *)
Theorem finished_window_moves_the_counter c c' :
  0 <= ProcessedIterationsCount c -> 0 <= ProcessedIterationsStep c ->
  ProcessedIterationsCount c + ProcessedIterationsStep c < 2 ^ 32 ->
  Z.of_nat (length (Iterations c)) < 2 ^ 32 ->
  FinishProceedDataSetForNonAdditiveMetrics c = Ok c' ->
  ProcessedIterationsCount c'
  = Z.min (ProcessedIterationsCount c + ProcessedIterationsStep c)
      (Z.of_nat (length (Iterations c)))
  /\ Iterations c' = Iterations c.
Proof.
  intros Hc Hs Hfit Hn H. split.
  - unfold FinishProceedDataSetForNonAdditiveMetrics in H.
    apply bind_Ok in H as (c1 & _ & H).
    assert (forall i c p c', GetApproxFileName i c = Ok (p, c') ->
                             keeps ProcessedIterationsCount c c') as Hname.
    { intros i c0 p c2. by apply GetApproxFileName_keeps. }
    assert (ProcessedIterationsCount c' = WindowEnd c) as ->.
    { destruct (AreAllIterationsProcessed _).
      - by apply (DeleteApprox_preserves (keeps ProcessedIterationsCount))
          in H.
      - inv_ok. subst. simpl.
        match goal with Hn : GetApproxFileName _ _ = _ |- _ =>
          by apply Hname in Hn end. }
    unfold WindowEnd. by rewrite !wrap32_small by lia.
  - apply FinishProceedDataSetForNonAdditiveMetrics_frame in H. apply H.
Qed.

(** ** The checkpoint planner and the factory *)

Lemma planned_checkpoints_single_step first last_ :
  first < last_ ->
  planned_checkpoints first last_ (last_ - first)
  = if last_ - first =? 1 then [first] else [first; last_ - 1].
Proof.
  intros Hfl. unfold planned_checkpoints, stepped_count.
  replace ((last_ - first + (last_ - first) - 1) / (last_ - first)) with 1.
  - change (Z.to_nat 1) with 1%nat. unfold stepped. simpl.
    rewrite Z.add_0_r.
    destruct (Z.eqb_spec (last_ - first) 1) as [E|E].
    + rewrite decide_True; [done|]. f_equal. lia.
    + rewrite decide_False; [done|]. intros [= ?]. lia.
  - apply Z.div_unique with (last_ - first - 1); lia.
Qed.

(** X21: [CreateMetricCalcer] clamps its range by the tree count and its
    period by the range, and the calcer it makes has the checkpoints of the
    clamped range: they start at [begin], end at the last tree of the range
    and increase; a period that is not shorter than the range leaves the two
    end points (one checkpoint for a range of one tree). *)
Theorem factory_plans_the_clamped_range treeCount begin_ end_ evalPeriod
  processedIterationsStep tmpDirExists metrics :
  0 <= begin_ -> 0 <= end_ < 2 ^ 31 -> 0 < treeCount < 2 ^ 31 ->
  1 <= evalPeriod < 2 ^ 31 ->
  forallb supported metrics = true ->
  let last_ := if end_ =? 0 then treeCount else Z.min end_ treeCount in
  let step := if evalPeriod >? last_ - begin_ then last_ - begin_
              else evalPeriod in
  begin_ < last_ ->
  exists fuel c,
    CreateMetricCalcer fuel treeCount begin_ end_ evalPeriod
      processedIterationsStep tmpDirExists metrics = Some (Ok c)
    /\ Iterations c = planned_checkpoints begin_ last_ step
    /\ Iterations c !! 0%nat = Some begin_
    /\ last (Iterations c) = Some (last_ - 1)
    /\ strictly_increasing (Iterations c)
    /\ (last_ - begin_ <= evalPeriod ->
        Iterations c
        = if last_ - begin_ =? 1 then [begin_] else [begin_; last_ - 1]).
Proof.
  intros Hb He Ht Hp Hsup last_ step Hlt.
  destruct (CreateMetricCalcer_counter_fits treeCount begin_ end_ evalPeriod
              Hb He Ht Hp Hlt) as (Wb & Wl & Ws & Hstep & Hfit).
  fold last_ in Wl, Ws, Hstep, Hfit. fold step in Ws, Hstep, Hfit.
  assert (last_ < 2 ^ 32) as Hl32.
  { change (2 ^ 31) with 2147483648 in *. change (2 ^ 32) with 4294967296.
    subst last_. destruct (end_ =? 0); lia. }
  exists (S (stepped_count begin_ last_ step)).
  unfold CreateMetricCalcer. fold last_. fold step. rewrite Wb, Wl, Ws.
  unfold MakeCalcer, EnsureCorrectParams.
  destruct (Z.ltb_spec begin_ last_) as [_|?]; [|lia].
  destruct (Z.ltb_spec 0 step) as [_|?]; [|lia]. cbn [andb].
  rewrite (BuildIterations_planned begin_ last_ step) by (done || lia).
  rewrite ClassifyMetrics_spec, Hsup. simpl.
  eexists. split; [done|]. simpl.
  destruct (planned_checkpoints_shape begin_ last_ step Hlt ltac:(lia))
    as (Hinc & Hhd & Hlast).
  repeat (split; [done|]).
  intros Hlong.
  assert (step = last_ - begin_) as ->.
  { subst step. destruct (Z.gtb_spec evalPeriod (last_ - begin_)); lia. }
  by apply planned_checkpoints_single_step.
Qed.

Lemma planned_checkpoints_length first last_ step :
  first < last_ -> 0 < step ->
  Z.of_nat (length (planned_checkpoints first last_ step))
  = (last_ - 1 - first) / step + 1
    + (if (last_ - 1 - first) mod step =? 0 then 0 else 1).
Proof.
  intros Hfl Hs. unfold planned_checkpoints.
  assert (0 <= (last_ - 1 - first) / step) as Hq by (apply Z.div_pos; lia).
  assert (Z.of_nat (stepped_count first last_ step)
          = (last_ - 1 - first) / step + 1) as Hcount.
  { unfold stepped_count.
    replace (last_ - first + step - 1) with (last_ - 1 - first + 1 * step)
      by lia.
    rewrite Z.div_add by lia.
    rewrite Z2Nat.id; [done|]. lia. }
  destruct (stepped_count first last_ step) as [|n] eqn:En; [lia|].
  rewrite last_stepped.
  pose proof (Z.div_mod (last_ - 1 - first) step ltac:(lia)) as Hdm.
  pose proof (Z.mod_pos_bound (last_ - 1 - first) step Hs) as Hmb.
  assert (Z.of_nat n = (last_ - 1 - first) / step) as Hn by lia.
  destruct (Z.eqb_spec ((last_ - 1 - first) mod step) 0) as [E|E].
  - rewrite decide_True.
    + rewrite stepped_length. lia.
    + f_equal. rewrite Hn. nia.
  - rewrite decide_False.
    + rewrite length_app, stepped_length. simpl. lia.
    + intros [= Hx]. apply E. rewrite Hn in Hx. nia.
Qed.

(** X22: the number of checkpoints, and so of columns of the score matrix:
    one for every whole step from [first] up to [last - 1], and one more for
    [last - 1] itself when it lies past the last whole step. *)
Theorem checkpoint_count first last_ step fuel its :
  0 <= first -> first < last_ -> last_ < 2 ^ 32 -> 1 <= step ->
  counter_fits first last_ step ->
  BuildIterations fuel first last_ step = Some (Ok its) ->
  Z.of_nat (length its)
  = (last_ - 1 - first) / step + 1
    + (if (last_ - 1 - first) mod step =? 0 then 0 else 1).
Proof.
  intros H0 Hfl Hl Hs Hfit Hits.
  pose proof (BuildIterations_planned first last_ step
                (S (stepped_count first last_ step))
                H0 Hfl Hl ltac:(lia) Hfit ltac:(lia)) as Hp.
  pose proof (BuildIterations_agree _ _ _ _ _ _ _ Hits Hp) as Ha.
  injection Ha as ->. apply planned_checkpoints_length; lia.
Qed.

Lemma IterationsLoop_runs_on first last_ step :
  (forall k : nat, wrap32 (first + Z.of_nat k * step) < last_) ->
  forall fuel (k : nat) acc,
    IterationsLoop fuel last_ step (wrap32 (first + Z.of_nat k * step)) acc
    = None.
Proof.
  intros Hbelow. induction fuel as [|fuel IH]; intros k acc; [done|].
  simpl. destruct (Z.ltb_spec (wrap32 (first + Z.of_nat k * step)) last_)
    as [_|Hge]; [|specialize (Hbelow k); lia].
  replace (wrap32 (wrap32 (first + Z.of_nat k * step) + step))
    with (wrap32 (first + Z.of_nat (S k) * step)); [apply IH|].
  unfold wrap32. rewrite Zplus_mod_idemp_l. f_equal. lia.
Qed.

(** X23: the checkpoint loop of the constructor need not end: when every
    value that the wrapping 32-bit counter takes lies below [last], the loop
    is still running after any number of steps. *)
Theorem checkpoint_loop_need_not_end first last_ step :
  0 <= first < 2 ^ 32 ->
  (forall k : nat, wrap32 (first + Z.of_nat k * step) < last_) ->
  forall fuel, BuildIterations fuel first last_ step = None.
Proof.
  intros Hfirst Hbelow fuel. unfold BuildIterations.
  pose proof (IterationsLoop_runs_on first last_ step Hbelow fuel 0 []) as H.
  rewrite Z.mul_0_l, Z.add_0_r, wrap32_small in H by done.
  by rewrite H.
Qed.

(** ** Reporting the scores *)

Lemma int_of_size_small n :
  Z.of_nat n < 2 ^ 31 -> Z.to_nat (int_of_size n) = n.
Proof.
  intros H. unfold int_of_size, int_of_ui32.
  change (2 ^ 31) with 2147483648 in *. change (2 ^ 32) with 4294967296.
  rewrite Z.mod_small by lia. lia.
Qed.

(** One of the two loops of [AssembleMetrics], for the group of the metrics
    that satisfy [p]. *)
Lemma AssembleMetrics_loop (p : IMetric -> bool) (supplied : list IMetric)
  (ms : list (option IMetric)) :
  length ms = length supplied ->
  exists ms',
    for_each (seq 0 (length (List.filter p supplied)))
      (fun metrics metricId =>
         slot ← at_ (slots_from 0 p supplied) metricId;
         metric ← at_ (List.filter p supplied) metricId;
         set_at metrics slot (Some metric))
      ms = Ok ms'
    /\ length ms' = length supplied
    /\ forall slot,
         ms' !! slot
         = if decide (slot ∈ slots_from 0 p supplied)
           then Some <$> supplied !! slot else ms !! slot.
Proof.
  intros Hlen.
  set (indices := slots_from 0 p supplied).
  set (group := List.filter p supplied).
  assert (length indices = length group) as Hli by apply slots_from_length.
  destruct (for_each_seq_inv
    (fun k (s : list (option IMetric)) =>
       length s = length supplied
       /\ forall slot,
            s !! slot
            = if decide (slot ∈ take k indices)
              then Some <$> supplied !! slot else ms !! slot)
    (fun metrics metricId =>
       slot ← at_ indices metricId;
       metric ← at_ group metricId;
       set_at metrics slot (Some metric))
    (length group) ms) as (ms' & Hrun & Hl & Hcells).
  - split; [done|]. intros slot. rewrite take_0, decide_False; [done|].
    apply not_elem_of_nil.
  - intros k s Hk (Hl & Hcells).
    destruct (lookup_lt_is_Some_2 indices k ltac:(lia)) as [slot Hslot].
    destruct (slots_from_filter 0 p supplied k slot Hslot)
      as (Hrange & Hgroup & metric & Hmetric & _).
    rewrite Nat.sub_0_r in Hgroup, Hmetric.
    rewrite (at_Some _ _ _ Hslot). simpl.
    fold group in Hgroup. rewrite Hmetric in Hgroup.
    rewrite (at_Some _ _ _ Hgroup). simpl.
    rewrite set_at_Some by lia. eexists. split; [done|].
    split; [by rewrite length_insert|].
    intros slot'. rewrite (take_S_r _ _ _ Hslot).
    destruct (decide (slot' = slot)) as [->|Hne].
    + rewrite list_lookup_insert_eq by lia.
      rewrite decide_True by (apply elem_of_app; right; apply list_elem_of_singleton; done).
      by rewrite Hmetric.
    + rewrite list_lookup_insert_ne by done. rewrite Hcells.
      destruct (decide (slot' ∈ take k indices)) as [Hin|Hnin].
      * rewrite decide_True; [done|]. apply elem_of_app. by left.
      * rewrite decide_False; [done|]. intros Hin.
        apply elem_of_app in Hin as [?|Hin]; [done|].
        by apply list_elem_of_singleton in Hin.
  - exists ms'. split; [exact Hrun|]. split; [done|].
    intros slot. by rewrite Hcells, take_ge by lia.
Qed.

Lemma AssembleMetrics_spec metrics c :
  grouped metrics c -> AssembleMetrics c = Ok (map Some metrics).
Proof.
  intros Hg.
  destruct (grouped_slots metrics c Hg) as (_ & _ & Hrows & Hnd & Hin).
  destruct Hg as (Ea & Eai & En & Eni).
  unfold AssembleMetrics. rewrite Hrows, Ea, Eai, En, Eni.
  destruct (AssembleMetrics_loop IsAdditiveMetric metrics
              (replicate (length metrics) None))
    as (ms1 & -> & Hl1 & Hc1); [by rewrite length_replicate|]. simpl.
  destruct (AssembleMetrics_loop NonAdditive metrics ms1 Hl1)
    as (ms2 & -> & Hl2 & Hc2).
  f_equal. apply list_eq. intros slot.
  change (map Some metrics) with (Some <$> metrics).
  rewrite list_lookup_fmap, Hc2. case_decide as Hn; [done|].
  rewrite Hc1. case_decide as Ha; [done|].
  destruct (decide (slot < length metrics)%nat) as [Hlt|Hge].
  - apply Hin in Hlt. rewrite Eai, Eni in Hlt.
    apply elem_of_app in Hlt as [?|?]; done.
  - rewrite (lookup_ge_None_2 metrics) by lia. simpl.
    apply lookup_ge_None_2. rewrite length_replicate. lia.
Qed.

(** X24: [SaveResult] puts the metrics back in the order in which they were
    supplied, whatever their groups: the vector it assembles from the two
    groups and their slots is the supplied list, with no null pointer
    left. *)
Theorem saved_metrics_are_the_supplied_ones fuel metrics tmpDirExists first
  last_ step processIterationStep c ops c' :
  MakeCalcer fuel metrics tmpDirExists first last_ step processIterationStep
  = Some (Ok c) ->
  result (perform_all ops c) = Ok c' ->
  AssembleMetrics c' = Ok (map Some metrics).
Proof.
  intros Hmade Hops.
  apply MakeCalcer_Ok in Hmade as (_ & _ & Hg & _).
  apply perform_all_frame in Hops.
  apply AssembleMetrics_spec. by eapply grouped_frame.
Qed.

Lemma SaveResult_spec TDescription (GetDescription : IMetric -> TDescription)
  metrics c :
  grouped metrics c -> plots_shaped c -> metrics <> [] ->
  Z.of_nat (length metrics) < 2 ^ 31 ->
  Z.of_nat (length (Iterations c)) < 2 ^ 31 ->
  exists score,
    GetMetricsScore c = Ok score
    /\ SaveResult TDescription GetDescription c
       = Ok (score_records TDescription GetDescription metrics score
               (length (Iterations c))).
Proof.
  intros Hg Hp Hne Hrows Hcols.
  destruct (GetMetricsScore_spec metrics c Hg Hp) as (score & Hscore & Hshape & _).
  exists score. split; [done|].
  unfold SaveResult. rewrite (AssembleMetrics_spec metrics c Hg). simpl.
  rewrite Hscore. simpl.
  set (rows := length metrics) in *. set (cols := length (Iterations c)) in *.
  assert (0 < rows)%nat as Hpos.
  { subst rows. destruct metrics; [done|simpl; lia]. }
  destruct (shape_lookup score rows cols 0 Hshape Hpos) as (row0 & Hrow0 & Hl0).
  rewrite (at_Some _ _ _ Hrow0). simpl.
  assert (length score = rows) as Hls.
  { apply (f_equal length) in Hshape.
    by rewrite length_map, length_replicate in Hshape. }
  rewrite Hl0, Hls, !int_of_size_small by done.
  destruct (for_each_seq_inv
    (fun k (logged : list (list (TDescription * double))) =>
       logged = score_records TDescription GetDescription metrics score k)
    (fun logged iteration =>
       record ←
         for_each (seq 0 rows)
           (fun record metricIdx =>
              pointer ← at_ (map Some metrics) metricIdx;
              metric ← match pointer with
                       | Some metric => Ok metric
                       | None => Fail UndefinedBehaviour
                       end;
              row ← at_ score metricIdx;
              value ← at_ row iteration;
              Ok (record ++ [(GetDescription metric, value)]))
           [];
       Ok (logged ++ [record]))
    cols []) as (logged & Hrun & ->); [done| |exact Hrun].
  intros i logged Hi ->.
  destruct (for_each_seq_inv
    (fun m (record : list (TDescription * double)) =>
       record
       = zip_with (fun metric row =>
                     (GetDescription metric, default dzero (row !! i)))
           (take m metrics) (take m score))
    (fun record metricIdx =>
       pointer ← at_ (map Some metrics) metricIdx;
       metric ← match pointer with
                | Some metric => Ok metric
                | None => Fail UndefinedBehaviour
                end;
       row ← at_ score metricIdx;
       value ← at_ row i;
       Ok (record ++ [(GetDescription metric, value)]))
    rows []) as (record & Hrec & ->); [done| |].
  - intros m record Hm ->.
    destruct (lookup_lt_is_Some_2 metrics m Hm) as [metric Hmetric].
    destruct (shape_lookup score rows cols m Hshape Hm) as (row & Hrow & Hlr).
    destruct (lookup_lt_is_Some_2 row i ltac:(lia)) as [v Hv].
    assert (map Some metrics !! m = Some (Some metric)) as Hptr.
    { change (map Some metrics) with (Some <$> metrics).
      by rewrite list_lookup_fmap, Hmetric. }
    rewrite (at_Some _ _ _ Hptr). simpl.
    rewrite (at_Some _ _ _ Hrow). simpl.
    rewrite (at_Some _ _ _ Hv). simpl.
    eexists. split; [done|].
    rewrite (take_S_r _ _ _ Hmetric), (take_S_r _ _ _ Hrow).
    rewrite zip_with_app by (rewrite !length_take; lia).
    simpl. by rewrite Hv.
  - rewrite Hrec. simpl. eexists. split; [done|].
    unfold score_records. rewrite seq_S, map_app. simpl.
    by rewrite !take_ge by lia.
Qed.

(** X25: [SaveResult] reports the score matrix checkpoint by checkpoint: one
    record per checkpoint, in the order of the checkpoints, and in each
    record every supplied metric, in the order in which the metrics were
    supplied, under its description and with its score at the checkpoint. *)
Theorem saved_result_lists_scores_by_checkpoint TDescription
  (GetDescription : IMetric -> TDescription) fuel metrics tmpDirExists
  first last_ step processIterationStep c ops c' :
  MakeCalcer fuel metrics tmpDirExists first last_ step processIterationStep
  = Some (Ok c) ->
  result (perform_all ops c) = Ok c' ->
  metrics <> [] -> Z.of_nat (length metrics) < 2 ^ 31 ->
  Z.of_nat (length (Iterations c)) < 2 ^ 31 ->
  exists score,
    GetMetricsScore c' = Ok score
    /\ SaveResult TDescription GetDescription c'
       = Ok (score_records TDescription GetDescription metrics score
               (length (Iterations c))).
Proof.
  intros Hmade Hops Hne Hrows Hcols.
  apply MakeCalcer_Ok in Hmade as (_ & _ & Hg & Hp & _).
  apply perform_all_frame in Hops.
  rewrite <- (fr_Iterations _ _ Hops) in *.
  apply SaveResult_spec; try done.
  - by eapply grouped_frame.
  - by eapply plots_shaped_frame.
Qed.

(** X26: [SaveResult] takes the number of checkpoints from row 0 of the
    score matrix without a check: for a calcer that was made without
    metrics the score matrix has no row and the access is out of range. *)
Theorem saved_result_needs_a_metric TDescription
  (GetDescription : IMetric -> TDescription) fuel tmpDirExists first last_ step
  processIterationStep c ops c' :
  MakeCalcer fuel [] tmpDirExists first last_ step processIterationStep
  = Some (Ok c) ->
  result (perform_all ops c) = Ok c' ->
  GetMetricsScore c' = Ok []
  /\ SaveResult TDescription GetDescription c' = Fail UndefinedBehaviour.
Proof.
  intros Hmade Hops.
  apply MakeCalcer_Ok in Hmade as (_ & _ & Hg & Hp & _).
  apply perform_all_frame in Hops.
  assert (grouped [] c') as Hg' by by eapply grouped_frame.
  assert (plots_shaped c') as Hp' by by eapply plots_shaped_frame.
  destruct (GetMetricsScore_spec [] c' Hg' Hp') as (score & Hscore & Hshape & _).
  simpl in Hshape. destruct score; [|done].
  split; [done|].
  unfold SaveResult. rewrite (AssembleMetrics_spec [] c' Hg'). simpl.
  by rewrite Hscore.
Qed.

(** ** The non-additive metrics on a dataset of parts *)

Lemma hcat_cell_part {A} dim (n : A -> nat) (f : A -> list (list double))
  (parts : list A) p part r i :
  (forall q, q ∈ parts -> shaped dim (n q) (f q)) ->
  parts !! p = Some part -> (r < dim)%nat -> (i < n part)%nat ->
  cell (hcat dim (map f parts)) r (sum_list (map n (take p parts)) + i)
  = cell (f part) r i.
Proof.
  intros Hs Hp Hr Hi. unfold cell. rewrite hcat_lookup, decide_True by done.
  simpl. rewrite flat_map_concat_map, map_map.
  assert (map n (take p parts)
          = map length (take p (map (fun q => default [] (f q !! r)) parts)))
    as ->.
  { change (map ?g) with (fmap (M := list) g).
    rewrite <- fmap_take, <- list_fmap_compose.
    apply Forall_fmap_ext_1, Forall_forall. intros q Hq. simpl.
    symmetry. apply (shaped_row dim); [|done]. apply Hs.
    by apply (subseteq_take p parts). }
  assert (length (default [] (f part !! r)) = n part) as Hl.
  { apply (shaped_row dim); [|done]. apply Hs. by eapply list_elem_of_lookup_2. }
  rewrite (concat_lookup_part _ p (default [] (f part !! r))).
  - destruct (shape_lookup (f part) dim (n part) r) as (row & -> & _);
      [|done..]. apply Hs. by eapply list_elem_of_lookup_2.
  - change (map ?g) with (fmap (M := list) g).
    by rewrite list_lookup_fmap, Hp.
  - lia.
Qed.

Lemma shaped_hcat {A} dim (n : A -> nat) (f : A -> list (list double))
  (parts : list A) :
  (forall q, q ∈ parts -> shaped dim (n q) (f q)) ->
  shaped dim (sum_list (map n parts)) (hcat dim (map f parts)).
Proof.
  intros Hs. unfold shaped. apply list_eq. intros r.
  change (map length) with (fmap (M := list) (length (A := double))).
  rewrite list_lookup_fmap, hcat_lookup. case_decide as Hr; simpl.
  - rewrite lookup_replicate_2 by done. f_equal.
    induction parts as [|q parts IH]; [done|]. simpl.
    rewrite length_app, IH.
    + f_equal. apply (shaped_row dim); [|done]. apply Hs. left.
    + intros q' Hq'. apply Hs. by right.
  - symmetry. apply lookup_replicate_None. lia.
Qed.

Lemma chunk_ok_baseline_rows d :
  chunk_ok d -> baseline_rows ApproxDimension d.
Proof.
  intros Hok Hb. pose proof (ok_baseline _ Hok Hb) as H.
  apply (f_equal length) in H. by rewrite length_map, length_replicate in H.
Qed.

(** The matrix that [InitApproxBuffer] makes for the parts is the initial
    matrices of the parts side by side. *)
Lemma InitApproxBuffer_parts part0 rest :
  Forall chunk_ok (part0 :: rest) ->
  Forall (fun p => has_baseline p = has_baseline part0) rest ->
  Z.of_nat (sum_list (map GetObjectCount (part0 :: rest))) < 2 ^ 32 ->
  InitApproxBuffer ApproxDimension (part0 :: rest) true []
  = Ok (parts_running (part0 :: rest) [] 0).
Proof.
  intros Hok Hsame Hfit.
  rewrite InitApproxBuffer_spec; [|done|].
  2:{ eapply Forall_impl; [exact Hok|]. apply chunk_ok_baseline_rows. }
  assert (forallb (fun p => eqb (has_baseline p) (has_baseline part0)) rest
          = true) as ->.
  { apply forallb_forall. intros p Hp. rewrite Forall_forall in Hsame.
    rewrite (Hsame p); [by destruct (has_baseline part0)|].
    by apply list_elem_of_In. }
  assert (Forall (fun p => has_baseline p = has_baseline part0) (part0 :: rest))
    as Hsame' by by constructor.
  set (parts := part0 :: rest) in *.
  unfold parts_running. cbn [running].
  destruct (has_baseline part0) eqn:Hb; cbn match; f_equal;
    apply list_eq; intros r; rewrite hcat_lookup;
    rewrite flat_map_concat_map, map_map, <- flat_map_concat_map.
  - unfold baseline_matrix. rewrite map_seq_lookup. case_decide as Hr; [|done].
    f_equal. unfold seeded_row. clear Hok Hfit.
    induction Hsame' as [|p ps Hp _ IH]; [done|]. simpl. rewrite IH. f_equal.
    by rewrite initial_matrix_lookup, Hp.
  - rewrite GetDocCount_small by done. unfold zero_matrix.
    case_decide as Hr; [|apply lookup_replicate_None; lia].
    rewrite lookup_replicate_2 by done. f_equal. clear Hok Hfit.
    induction Hsame' as [|p ps Hp _ IH]; [done|]. simpl.
    rewrite replicate_add, IH. f_equal.
    by rewrite initial_matrix_lookup, Hp.
Qed.

Lemma set_NextApproxBuffer_same c :
  c = set_NextApproxBuffer (NextApproxBuffer c) c.
Proof. by destruct c. Qed.

(** The loop over the parts at one checkpoint adds the deltas of the parts,
    side by side, into the matrix of the whole dataset. *)
Lemma parts_loop parts b e (cur : list (list double)) (c : TMetricsPlotCalcer) :
  (0 < ApproxDimension)%nat -> Forall chunk_ok parts ->
  Z.of_nat (sum_list (map GetObjectCount parts)) < 2 ^ 32 ->
  shaped ApproxDimension (sum_list (map GetObjectCount parts)) cur ->
  let run :=
    for_each_traced (seq 0 (length parts))
      (fun '(curApprox, c) poolPartIdx =>
         datasetPart ← lift (at_ parts poolPartIdx);
         _ ← emit (EvApply poolPartIdx b e);
         let c := set_NextApproxBuffer
                    (ApplyModelMulti (ObjectsData datasetPart) b e) c in
         start ← lift (at_ (GetStartDocIdx parts) poolPartIdx);
         curApprox ← lift (Append (NextApproxBuffer c) curApprox start);
         mret (curApprox, c))
      (cur, c) in
  exists v,
    result run
    = Ok (madd cur
            (hcat ApproxDimension
               (map (fun p => ApplyModelMulti (ObjectsData p) b e) parts)),
          set_NextApproxBuffer v c)
    /\ trace run = map (fun p => EvApply p b e) (seq 0 (length parts)).
Proof.
  intros Hdim Hok Hfit Hcur run.
  set (N := sum_list (map GetObjectCount parts)) in *.
  set (D := hcat ApproxDimension
              (map (fun p => ApplyModelMulti (ObjectsData p) b e) parts)).
  assert (forall q, q ∈ parts ->
            shaped ApproxDimension (GetObjectCount q)
              (ApplyModelMulti (ObjectsData q) b e)) as Hdelta.
  { intros q Hq. rewrite Forall_forall in Hok. apply (Hok q Hq). }
  assert (shaped ApproxDimension N D) as HD.
  { apply (shaped_hcat ApproxDimension GetObjectCount
             (fun p => ApplyModelMulti (ObjectsData p) b e)). exact Hdelta. }
  pose proof (GetStartDocIdx_prefix parts Hfit) as Hstart.
  assert (forall m, (m <= length parts)%nat ->
            (documents_before parts m <= N)%nat) as Hbefore.
  { intros m Hm. unfold documents_before, N.
    rewrite <- (take_drop m parts) at 2. rewrite map_app.
    clear. generalize (map GetObjectCount (take m parts)) as l.
    induction l; simpl; lia. }
  subst run.
  match goal with |- context [for_each_traced _ ?body ?s0] =>
    destruct (for_each_traced_seq_inv
      (fun m (s : list (list double) * TMetricsPlotCalcer) t =>
         shaped ApproxDimension N s.1
         /\ (forall r col,
               cell s.1 r col
               = if decide (col < documents_before parts m)%nat
                 then x ← cell cur r col; v ← cell D r col; Some (dadd x v)
                 else cell cur r col)
         /\ (exists v, s.2 = set_NextApproxBuffer v c)
         /\ t = map (fun p => EvApply p b e) (seq 0 m))
      body (length parts) s0) as ([cur' c'] & Hrun & Hs & Hcells & [v Hv] & Ht)
  end.
  - cbn [fst snd]. split; [done|]. split; [|split; [|done]].
    + intros r col. by rewrite decide_False by (unfold documents_before; simpl; lia).
    + exists (NextApproxBuffer c). apply set_NextApproxBuffer_same.
  - intros m [cur_m c_m] t Hm (Hs & Hcells & [v Hv] & ->). cbn [fst snd] in *.
    subst c_m.
    destruct (lookup_lt_is_Some_2 parts m Hm) as [part Hpart].
    rewrite (at_Some _ _ _ Hpart), lift_bind.
    unfold mbind at 1, traced_bind at 1. cbn [emit result trace].
    assert (GetStartDocIdx parts !! m = Some (documents_before parts m))
      as Hstart_m.
    { rewrite Hstart. by rewrite map_seq_lookup, decide_True. }
    rewrite (at_Some _ _ _ Hstart_m), lift_bind.
    cbn [NextApproxBuffer set_NextApproxBuffer].
    assert (part ∈ parts) as Hin by by eapply list_elem_of_lookup_2.
    assert (documents_before parts (S m)
            = (documents_before parts m + GetObjectCount part)%nat) as HS.
    { unfold documents_before. rewrite (take_S_r _ _ _ Hpart), map_app.
      cbn [map]. by rewrite sum_list_snoc. }
    pose proof (Hbefore (S m) ltac:(lia)) as Hle. rewrite HS in Hle.
    destruct (Append_cells (ApplyModelMulti (ObjectsData part) b e) cur_m
                (documents_before parts m) ApproxDimension
                (GetObjectCount part) N Hdim (Hdelta part Hin))
      as (dst' & Happ & Hs' & Hcells'); [lia|done|done|].
    rewrite Happ, lift_bind. cbn [mret traced_ret result trace fst snd].
    eexists. split; [done|]. cbn [fst snd].
    split; [done|]. split; [|split].
    + intros r col. rewrite Hcells', HS.
      destruct (decide (documents_before parts m <= col
                        < documents_before parts m + GetObjectCount part)%nat)
        as [Hw|Hw].
      * rewrite decide_True by lia. rewrite Hcells, decide_False by lia.
        destruct (decide (r < ApproxDimension)%nat) as [Hr|Hr].
        -- assert (cell D r col
                   = cell (ApplyModelMulti (ObjectsData part) b e) r
                       (col - documents_before parts m)) as ->; [|done].
           replace col with (documents_before parts m
                             + (col - documents_before parts m))%nat at 1
             by lia.
           apply (hcat_cell_part ApproxDimension GetObjectCount
                    (fun p => ApplyModelMulti (ObjectsData p) b e)
                    parts m part r); (done || lia).
        -- assert (cell cur r col = None) as ->; [|done].
           unfold cell. rewrite (lookup_ge_None_2 cur); [done|].
           rewrite (shaped_length _ _ _ Hcur). lia.
      * rewrite Hcells. repeat case_decide; (done || lia).
    + eexists. reflexivity.
    + rewrite seq_S, map_app. simpl. by rewrite ?app_nil_r.
  - cbn [fst snd] in *. subst c'. exists v. split; [|done].
    rewrite Hrun. do 2 f_equal. apply table_eq.
    + rewrite Hs. symmetry. by apply shaped_madd.
    + intros r col. rewrite Hcells, cell_madd.
      unfold documents_before. rewrite take_ge by lia. fold N.
      case_decide as Hc; [done|].
      assert (cell cur r col = None) as ->; [|done].
      unfold cell. destruct (cur !! r) as [row|] eqn:Hrow; simpl; [|done].
      apply lookup_ge_None_2.
      assert (r < ApproxDimension)%nat as Hr.
      { apply lookup_lt_Some in Hrow. by rewrite (shaped_length _ _ _ Hcur) in Hrow. }
      destruct (shape_lookup cur _ _ r Hcur Hr) as (row' & Hrow' & Hl).
      assert (row' = row) as -> by congruence. lia.
Qed.

Lemma int_range_end its k :
  Forall (fun it => 0 <= it < 2 ^ 31 - 1) its -> (k < length its)%nat ->
  int_of_ui32 (wrap32 (nth k its 0 + 1)) = range_end its k.
Proof.
  intros Hb Hk. destruct (lookup_lt_is_Some_2 its k Hk) as [x Hx].
  rewrite Forall_lookup in Hb. specialize (Hb k x Hx).
  unfold range_end, int_of_ui32, wrap32.
  rewrite (nth_lookup_Some _ _ 0 _ Hx).
  change (2 ^ 31) with 2147483648 in *. change (2 ^ 32) with 4294967296.
  rewrite (Z.mod_small (x + 1)) by lia. rewrite Z.mod_small by lia. lia.
Qed.

Lemma shaped_parts_running parts its k :
  Forall chunk_ok parts ->
  shaped ApproxDimension (sum_list (map GetObjectCount parts))
    (parts_running parts its k).
Proof.
  intros Hok. unfold parts_running.
  apply (shaped_hcat ApproxDimension GetObjectCount
           (fun p => running (ObjectsData p) its (initial_matrix p) k)).
  intros q Hq. apply shaped_running. rewrite Forall_forall in Hok. by apply Hok.
Qed.

Lemma parts_running_S parts its k :
  Forall chunk_ok parts ->
  madd (parts_running parts its k)
    (hcat ApproxDimension
       (map (fun p => ApplyModelMulti (ObjectsData p) (range_begin its k)
                        (range_end its k)) parts))
  = parts_running parts its (S k).
Proof.
  intros Hok. unfold parts_running. cbn [running].
  apply (madd_hcat ApproxDimension GetObjectCount
           (fun p => running (ObjectsData p) its (initial_matrix p) k)
           (fun p => ApplyModelMulti (ObjectsData p) (range_begin its k)
                       (range_end its k))).
  intros p Hp. rewrite Forall_forall in Hok. specialize (Hok p Hp).
  split; [by apply shaped_running | apply Hok].
Qed.

Lemma parts_events_S parts its n :
  parts_events parts its (S n)
  = parts_events parts its n
    ++ map (fun p => EvApply p (range_begin its n) (range_end its n))
         (seq 0 (length parts))
    ++ [EvApprox n (parts_running parts its (S n))].
Proof.
  unfold parts_events. rewrite seq_S, flat_map_app. simpl.
  by rewrite app_nil_r.
Qed.

Lemma parts_running_0 parts its :
  parts_running parts its 0 = parts_running parts [] 0.
Proof. done. Qed.

Lemma ComputeNonAdditiveMetricsOnParts_spec part0 rest c :
  (0 < ApproxDimension)%nat ->
  Forall chunk_ok (part0 :: rest) ->
  Forall (fun p => has_baseline p = has_baseline part0) rest ->
  Z.of_nat (sum_list (map GetObjectCount (part0 :: rest))) < 2 ^ 31 ->
  Forall (fun it => 0 <= it < 2 ^ 31 - 1) (Iterations c) ->
  plots_shaped c ->
  let parts := part0 :: rest in
  let its := Iterations c in
  exists c',
    result (ComputeNonAdditiveMetricsOnParts parts c) = Ok c'
    /\ trace (ComputeNonAdditiveMetricsOnParts parts c)
       = parts_events parts its (length its)
    /\ forall j metric k,
         NonAdditiveMetrics c !! j = Some metric -> (k < length its)%nat ->
         cell (NonAdditiveMetricPlots c') j k
         = Some (non_additive_eval metric (parts_running parts its (S k))
                   (BuildTargets parts) (BuildWeights parts)).
Proof.
  intros Hdim Hok Hsame Hfit Hits [_ Hshape].
  assert (Z.of_nat (sum_list (map GetObjectCount (part0 :: rest))) < 2 ^ 32)
    as Hfit32.
  { change (2 ^ 31) with 2147483648 in Hfit.
    change (2 ^ 32) with 4294967296. lia. }
  intros parts its.
  unfold ComputeNonAdditiveMetricsOnParts.
  change (InitApproxBuffer ApproxDimension parts true [])
    with (InitApproxBuffer ApproxDimension (part0 :: rest) true []).
  rewrite (InitApproxBuffer_parts part0 rest Hok Hsame Hfit32), lift_bind.
  fold parts. rewrite <- (parts_running_0 parts its).
  set (targets := BuildTargets parts). set (weights := BuildWeights parts).
  set (metrics := NonAdditiveMetrics c) in *.
  match goal with |- context [for_each_traced _ ?body ?s0] =>
    destruct (for_each_traced_seq_inv
      (fun k (s : Z * list (list double) * TMetricsPlotCalcer) t =>
         s.1.1 = range_begin its k
         /\ s.1.2 = parts_running parts its k
         /\ Iterations s.2 = its
         /\ NonAdditiveMetrics s.2 = metrics
         /\ map length (NonAdditiveMetricPlots s.2)
            = map length (NonAdditiveMetricPlots c)
         /\ (forall j metric i,
               metrics !! j = Some metric -> (i < k)%nat ->
               cell (NonAdditiveMetricPlots s.2) j i
               = Some (non_additive_eval metric (parts_running parts its (S i))
                         targets weights))
         /\ t = parts_events parts its k)
      body (length its) s0)
      as ([[b cur] c'] & Hrun & Hb & Hcur & Hits' & Hm' & Hs' & Hcells & Ht)
  end.
  - cbn [fst snd]. repeat (split; [done|]). split; [|done].
    intros j metric i _ Hi. lia.
  - intros k [[b cur] c1] t Hk (Hb & Hcur & Hits1 & Hm1 & Hs1 & Hcells1 & ->).
    cbn [fst snd] in *. subst b cur.
    assert (its !! k = Some (nth k its 0)) as Hit.
    { destruct (lookup_lt_is_Some_2 its k ltac:(lia)) as [x Hx].
      by rewrite (nth_lookup_Some _ _ 0 _ Hx). }
    rewrite Hits1, (at_Some _ _ _ Hit), lift_bind. cbn zeta.
    rewrite (int_range_end its k Hits Hk).
    destruct (parts_loop parts (range_begin its k) (range_end its k)
                (parts_running parts its k) c1 Hdim Hok Hfit32
                (shaped_parts_running parts its k Hok))
      as (v & Hinner & Htrace).
    cbn zeta in Hinner, Htrace.
    rewrite (parts_running_S parts its k Hok) in Hinner.
    match goal with |- context [?m ≫= ?f] =>
      destruct (traced_bind_run m f _ Hinner) as [Hres Htr]
    end.
    rewrite Hres, Htr, Htrace. clear Hres Htr.
    destruct (EvalNonAdditiveMetrics_spec (parts_running parts its (S k))
                targets weights k (set_NextApproxBuffer v c1))
      as (plots' & Heval & Hsp & Hcp).
    { cbn [NonAdditiveMetricPlots NonAdditiveMetrics Iterations
           set_NextApproxBuffer]. rewrite Hs1, Hm1, Hits1. exact Hshape. }
    { cbn [Iterations set_NextApproxBuffer]. by rewrite Hits1. }
    unfold mbind at 1, traced_bind at 1. cbn [emit result trace].
    rewrite Heval, lift_bind. cbn [mret traced_ret result trace fst snd].
    cbn [NonAdditiveMetricPlots NonAdditiveMetrics Iterations
         set_NextApproxBuffer] in Hsp, Hcp.
    eexists. split; [done|]. cbn [fst snd].
    split; [done|]. split; [done|]. split; [done|]. split; [done|].
    split; [simpl; by rewrite Hsp|]. split.
    + intros j metric i Hj Hi. cbn [NonAdditiveMetricPlots
        set_NonAdditiveMetricPlots]. rewrite Hcp, Hm1.
      destruct (decide (i = k)) as [->|Hne].
      * rewrite decide_True by (split; [done|by eapply lookup_lt_Some]).
        by rewrite Hj.
      * rewrite decide_False by tauto. apply Hcells1; [done|lia].
    + rewrite parts_events_S. do 2 f_equal.
  - cbn [fst snd] in *.
    destruct (traced_bind_run _ (fun '(_, _, c) => mret c) _ Hrun)
      as [Hres Htr].
    exists c'. split; [exact Hres|]. split.
    + etransitivity; [exact Htr|]. cbn [mret traced_ret trace].
      by rewrite app_nil_r.
    + intros j metric k Hj Hk. by apply Hcells.
Qed.

(** X27: the path for a dataset given as parts evaluates the non-additive
    metrics on the whole dataset: at every checkpoint it calls the Applier
    once per part, over the tree range that a single pass uses, adds the
    deltas into the columns of their parts, and assigns to every
    non-additive metric its evaluation on the running matrices of the parts
    side by side, with the targets and weights of the parts one after the
    other; what the calcer has processed before plays no part. *)
Theorem multi_part_path_evaluates_the_whole_dataset fuel metrics tmpDirExists
  first last_ step processIterationStep c0 ops c part0 rest :
  MakeCalcer fuel metrics tmpDirExists first last_ step processIterationStep
  = Some (Ok c0) ->
  result (perform_all ops c0) = Ok c ->
  (0 < ApproxDimension)%nat ->
  Forall chunk_ok (part0 :: rest) ->
  Forall (fun p => has_baseline p = has_baseline part0) rest ->
  Z.of_nat (sum_list (map GetObjectCount (part0 :: rest))) < 2 ^ 31 ->
  Forall (fun it => 0 <= it < 2 ^ 31 - 1) (Iterations c0) ->
  let parts := part0 :: rest in
  let its := Iterations c0 in
  exists c',
    result (ComputeNonAdditiveMetricsOnParts parts c) = Ok c'
    /\ trace (ComputeNonAdditiveMetricsOnParts parts c)
       = parts_events parts its (length its)
    /\ forall j metric k,
         NonAdditiveMetrics c0 !! j = Some metric -> (k < length its)%nat ->
         cell (NonAdditiveMetricPlots c') j k
         = Some (non_additive_eval metric (parts_running parts its (S k))
                   (BuildTargets parts) (BuildWeights parts)).
Proof.
  intros Hmade Hops Hdim Hok Hsame Hfit Hits parts its.
  apply MakeCalcer_Ok in Hmade as (_ & _ & _ & Hshaped & _).
  apply perform_all_frame in Hops.
  subst its. rewrite <- (fr_Iterations _ _ Hops) in *.
  rewrite <- (fr_NonAdditiveMetrics _ _ Hops).
  apply ComputeNonAdditiveMetricsOnParts_spec; try done.
  by eapply plots_shaped_frame.
Qed.

(** ** The first window of the non-additive pass *)

Lemma resize_lookup_keeps {A} n (l : list (option A)) i q :
  (i < n)%nat -> l !! i = Some (Some q) ->
  resize n None l !! i = Some (Some q).
Proof.
  unfold resize. intros Hi H.
  assert (i < length l)%nat by by eapply lookup_lt_Some.
  rewrite lookup_app_l by (rewrite length_take; lia).
  by rewrite lookup_take_lt.
Qed.

(** [GetApproxFileName] on a slot without a name: the slot gets its path, no
    file is left under it, and the other slots and files stay. *)
Lemma GetApproxFileName_fresh idx c p c1 :
  snapshot_unnamed idx c -> GetApproxFileName idx c = Ok (p, c1) ->
  p = idx
  /\ Files (Scratch c1) = delete idx (Files (Scratch c))
  /\ ApproxFiles (NonAdditiveMetricsData c1) !! idx = Some (Some idx)
  /\ (forall i q, i <> idx ->
        ApproxFiles (NonAdditiveMetricsData c1) !! i = Some (Some q)
        <-> ApproxFiles (NonAdditiveMetricsData c) !! i = Some (Some q)).
Proof.
  intros Hun H.
  destruct (GetApproxFileName_unnamed idx c p c1 Hun H) as (-> & _ & Hnamed & _).
  split; [done|]. split; [|split; [done|]].
  - unfold GetApproxFileName in H.
    set (files := if (_ <? _)%nat then _ else _) in *.
    apply bind_Ok in H as (name & Hat & H). apply at_Ok in Hat.
    destruct name as [q|].
    + exfalso. subst files.
      destruct (_ <? _)%nat; [apply resize_lookup_Some in Hat|];
        by eapply Hun.
    + apply bind_Ok in H as (files' & _ & H). injection H as Hc.
      subst c1. by destruct (TmpDirExists (Scratch c)).
  - intros i q Hne. unfold GetApproxFileName in H.
    set (files := if (_ <? _)%nat then _ else _) in *.
    assert (files !! i = Some (Some q)
            <-> ApproxFiles (NonAdditiveMetricsData c) !! i = Some (Some q))
      as Hfiles.
    { subst files.
      destruct (Nat.ltb_spec (length (ApproxFiles (NonAdditiveMetricsData c)))
                  (ui32_of_size (idx + 1))) as [Hlt|Hge]; [|done].
      split; [apply resize_lookup_Some|].
      intros Hi. apply resize_lookup_keeps; [|done].
      apply lookup_lt_Some in Hi. lia. }
    apply bind_Ok in H as (name & Hat & H). apply at_Ok in Hat.
    destruct name as [q'|].
    + injection H as _ Hc. subst c1. simpl. exact Hfiles.
    + apply bind_Ok in H as (files' & Hset & H). injection H as Hc.
      subst c1. apply set_at_Ok in Hset as [-> _].
      destruct (TmpDirExists (Scratch c)); simpl;
        by rewrite list_lookup_insert_ne.
Qed.

(** Saving the matrix of checkpoint slot [k] stores one more snapshot. *)
Lemma SaveApproxToFile_stores d its k c1 :
  (0 < ApproxDimension)%nat -> chunk_ok d ->
  snapshots_stored d its k (fun _ => True) c1 ->
  Z.of_nat k < 2 ^ 32 - 1 ->
  exists c3,
    SaveApproxToFile k
      (running (ObjectsData d) its (initial_matrix d) (S k)) c1 = Ok c3
    /\ snapshots_stored d its (S k) (fun _ => True) c3
    /\ frame c1 c3
    /\ CurApproxBuffer c3 = CurApproxBuffer c1
    /\ NonAdditiveMetricPlots c3 = NonAdditiveMetricPlots c1
    /\ ProcessedIterationsCount c3 = ProcessedIterationsCount c1.
Proof.
  intros Hdim Hok [Ht Hw Hnamed Hun Hfiles] Hslot.
  set (m := running (ObjectsData d) its (initial_matrix d) (S k)).
  destruct (SaveApproxToFile_spec k m ApproxDimension (GetObjectCount d) c1
              Hslot Hdim (shaped_running d its (S k) Hok) (ok_count _ Hok))
    as (p & c1' & Hname & Hsave).
  destruct (GetApproxFileName_fresh k c1 p c1' (Hun k ltac:(lia)) Hname)
    as (-> & Hf & Hk & Hothers).
  pose proof (GetApproxFileName_keeps_targets _ _ _ _ Hname) as Htw.
  unfold keeps in Htw. injection Htw as Ht' Hw'.
  rewrite Hf, lookup_delete_eq in Hsave. simpl in Hsave.
  eexists. split; [exact Hsave|]. split; [|split; [|split; [|split]]].
  - constructor; simpl.
    + congruence.
    + congruence.
    + intros i Hi. destruct (decide (i = k)) as [->|Hne]; [done|].
      apply Hothers; [done|]. apply Hnamed. lia.
    + intros i Hi q Hq. apply Hothers in Hq; [|lia].
      by eapply (Hun i ltac:(lia)).
    + intros i Hi _. destruct (decide (i = k)) as [->|Hne].
      * by rewrite lookup_insert_eq.
      * rewrite lookup_insert_ne by done. rewrite lookup_delete_ne by done.
        apply Hfiles; [lia|done].
  - exact (SaveApproxToFile_frame k m c1 _ Hsave).
  - simpl. by eapply GetApproxFileName_CurApproxBuffer.
  - simpl. by apply (GetApproxFileName_keeps NonAdditiveMetricPlots) in Hname.
  - simpl. by apply (GetApproxFileName_keeps ProcessedIterationsCount) in Hname.
Qed.

Lemma snapshots_stored_ext d its k (kept kept' : nat -> Prop) c c' :
  NonAdditiveMetricsData c' = NonAdditiveMetricsData c ->
  Scratch c' = Scratch c ->
  (forall i, kept' i -> kept i) ->
  snapshots_stored d its k kept c -> snapshots_stored d its k kept' c'.
Proof.
  intros Hd Hs Hk [Ht Hw Hnamed Hun Hfiles].
  constructor; rewrite ?Hd, ?Hs; try done.
  - intros i Hi q. unfold snapshot_unnamed in Hun. rewrite Hd. by apply Hun.
  - intros i Hi Hkept. apply Hfiles; [done|]. by apply Hk.
Qed.

(** The pass of the first window stores the snapshots of its checkpoint
    slots. *)
Lemma first_window_pass d w c :
  (0 < ApproxDimension)%nat -> chunk_ok d ->
  Forall (fun row => row = []) (CurApproxBuffer c) ->
  (w <= length (Iterations c))%nat -> Z.of_nat w < 2 ^ 32 ->
  snapshots_stored d (Iterations c) 0 (fun _ => True) c ->
  exists c',
    result (ProceedDataSet d 0 w false c) = Ok c'
    /\ snapshots_stored d (Iterations c) w (fun _ => True) c'
    /\ frame c c'
    /\ NonAdditiveMetricPlots c' = NonAdditiveMetricPlots c
    /\ ProcessedIterationsCount c' = ProcessedIterationsCount c.
Proof.
  intros Hdim Hok Hcur Hw Hui32 Hstored.
  destruct (ProceedDataSet_pass
    (fun k c1 =>
       snapshots_stored d (Iterations c) k (fun _ => True) c1
       /\ frame c c1
       /\ NonAdditiveMetricPlots c1 = NonAdditiveMetricPlots c
       /\ ProcessedIterationsCount c1 = ProcessedIterationsCount c)
    d w false c Hdim Hok Hcur Hw)
    as (c' & Hrun & (Hst & Hfr & Hplots & Hcount) & _).
  - split; [|split; [auto with frame|done]].
    by apply (snapshots_stored_ext d _ 0 (fun _ => True) (fun _ => True) c).
  - intros k c1 Hk (Hst & Hfr & Hplots & Hcount) Hits. cbn zeta.
    match goal with |- context [SaveApproxToFile k ?m ?c2] =>
      destruct (SaveApproxToFile_stores d (Iterations c) k c2 Hdim Hok)
        as (c3 & Hsave & Hst3 & Hfr3 & Hcur3 & Hplots3 & Hcount3)
    end.
    + by apply (snapshots_stored_ext d _ k (fun _ => True) (fun _ => True) c1).
    + lia.
    + exists c3. split; [exact Hsave|]. split; [|split; [|done]].
      * split; [done|]. split; [|split].
        -- etransitivity; [exact Hfr|]. etransitivity; [|exact Hfr3].
           auto with frame.
        -- by rewrite Hplots3.
        -- by rewrite Hcount3.
      * rewrite (fr_Iterations _ _ Hfr3). done.
  - eexists. split; [exact Hrun|]. split; [|split; [|done]].
    + by apply (snapshots_stored_ext d _ w (fun _ => True) (fun _ => True) c').
    + etransitivity; [exact Hfr|]. auto with frame.
Qed.

Lemma LoadApprox_stored d its w (kept : nat -> Prop) k c :
  codec_lossless -> Z.of_nat ApproxDimension < 2 ^ 31 ->
  chunk_ok d -> length (GetTarget d) = GetObjectCount d ->
  snapshots_stored d its w kept c -> (k < w)%nat -> kept k ->
  Forall (Forall is_double)
    (running (ObjectsData d) its (initial_matrix d) (S k)) ->
  LoadApprox k c
  = Ok (running (ObjectsData d) its (initial_matrix d) (S k), c).
Proof.
  intros Hcodec Hint Hok Hlab [Ht _ Hnamed _ Hfiles] Hk Hkept Hval.
  unfold LoadApprox.
  rewrite (GetApproxFileName_named_eq k c k (Hnamed k Hk)). simpl.
  rewrite (Hfiles k Hk Hkept), Ht, Hlab.
  rewrite ui32_of_size_small by apply Hok.
  pose proof (Load_serialized
                (running (ObjectsData d) its (initial_matrix d) (S k))
                (replicate ApproxDimension (replicate (GetObjectCount d) dzero))
                ApproxDimension (GetObjectCount d) [] Hcodec Hint
                (shaped_running d its (S k) Hok) Hval
                (shaped_zero_matrix _ _)) as Hload.
  rewrite app_nil_r in Hload. by rewrite Hload.
Qed.

(** [ComputeNonAdditiveMetrics] over the first window evaluates the metrics
    on the stored snapshots and removes all of them but the last. *)
Lemma first_window_compute d w c :
  codec_lossless -> Z.of_nat ApproxDimension < 2 ^ 31 ->
  chunk_ok d -> length (GetTarget d) = GetObjectCount d ->
  plots_shaped c -> (w <= length (Iterations c))%nat ->
  snapshots_stored d (Iterations c) w (fun _ => True) c ->
  (forall k, (k < w)%nat ->
     Forall (Forall is_double)
       (running (ObjectsData d) (Iterations c) (initial_matrix d) (S k))) ->
  exists c',
    ComputeNonAdditiveMetrics 0 w c = Ok c'
    /\ snapshots_stored d (Iterations c) w (fun i => (w <= S i)%nat) c'
    /\ frame c c'
    /\ ProcessedIterationsCount c' = ProcessedIterationsCount c
    /\ forall j metric k,
         NonAdditiveMetrics c !! j = Some metric -> (k < w)%nat ->
         cell (NonAdditiveMetricPlots c') j k
         = Some (non_additive_eval metric
                   (running (ObjectsData d) (Iterations c) (initial_matrix d)
                      (S k))
                   (GetTarget d) (GetWeights d)).
Proof.
  intros Hcodec Hint Hok Hlab [_ Hshape] Hw Hstored Hval.
  unfold ComputeNonAdditiveMetrics. rewrite Nat.sub_0_r.
  set (its := Iterations c) in *. set (metrics := NonAdditiveMetrics c) in *.
  match goal with |- context [for_each _ ?body ?s0] =>
    destruct (for_each_seq_inv
      (fun k s =>
         snapshots_stored d its w (fun i => (k <= S i)%nat) s
         /\ frame c s
         /\ ProcessedIterationsCount s = ProcessedIterationsCount c
         /\ forall j metric i,
              metrics !! j = Some metric -> (i < k)%nat ->
              cell (NonAdditiveMetricPlots s) j i
              = Some (non_additive_eval metric
                        (running (ObjectsData d) its (initial_matrix d) (S i))
                        (GetTarget d) (GetWeights d)))
      body w s0) as (c' & Hrun & Hst & Hfr & Hcount & Hcells)
  end.
  - split; [|split; [reflexivity|split; [done|]]].
    + by apply (snapshots_stored_ext d its w (fun _ => True)
                  (fun i => (0 <= S i)%nat) c).
    + intros j metric i _ Hi. lia.
  - intros k s Hk (Hst & Hfr & Hcount & Hcells).
    set (m := running (ObjectsData d) its (initial_matrix d) (S k)).
    rewrite (LoadApprox_stored d its w _ k s Hcodec Hint Hok Hlab Hst Hk
               ltac:(simpl; lia) (Hval k Hk)).
    fold m. unfold mbind at 1, outcome_bind at 1. cbn beta iota.
    destruct (EvalNonAdditiveMetrics_spec m
                (Target (NonAdditiveMetricsData s))
                (Weights (NonAdditiveMetricsData s)) k s)
      as (plots' & Heval & Hsp & Hcp).
    { rewrite (fr_NonAdditiveMetricPlots _ _ Hfr),
        (fr_NonAdditiveMetrics _ _ Hfr), (fr_Iterations _ _ Hfr).
      exact Hshape. }
    { rewrite (fr_Iterations _ _ Hfr). fold its. lia. }
    rewrite Heval.
    pose proof Hst as [Ht Hwt Hnamed _ _].
    rewrite Ht, Hwt, (fr_NonAdditiveMetrics _ _ Hfr) in Hcp.
    fold metrics in Hcp.
    set (s1 := set_NonAdditiveMetricPlots plots' s) in *.
    assert (snapshots_stored d its w (fun i => (k <= S i)%nat) s1) as Hst1.
    { by apply (snapshots_stored_ext d its w (fun i => (k <= S i)%nat)
                  (fun i => (k <= S i)%nat) s). }
    assert (frame c s1) as Hfr1.
    { etransitivity; [exact Hfr|].
      by eapply EvalNonAdditiveMetrics_frame. }
    assert (forall j metric i,
              metrics !! j = Some metric -> (i < S k)%nat ->
              cell plots' j i
              = Some (non_additive_eval metric
                        (running (ObjectsData d) its (initial_matrix d) (S i))
                        (GetTarget d) (GetWeights d))) as Hcells1.
    { intros j metric i Hj Hi. rewrite Hcp.
      destruct (decide (i = k)) as [->|Hne].
      - rewrite decide_True by (split; [done|by eapply lookup_lt_Some]).
        by rewrite Hj.
      - rewrite decide_False by tauto. apply Hcells; [done|lia]. }
    unfold mbind, outcome_bind.
    destruct k as [|k']; cbn [Nat.eqb negb].
    + exists s1. split; [done|]. split; [|split; [done|split; [done|done]]].
      apply (snapshots_stored_ext d its w (fun i => (0 <= S i)%nat)
               (fun i => (1 <= S i)%nat) s1); (done || (intros; lia)).
    + replace (S k' - 1)%nat with k' by lia.
      assert (GetApproxFileName k' s1 = Ok (k', s1)) as Hname.
      { apply GetApproxFileName_named_eq. apply Hnamed. lia. }
      unfold DeleteApprox. rewrite Hname. simpl.
      eexists. split; [done|]. split; [|split; [|split; [done|done]]].
      * destruct Hst1 as [? ? ? Hun1 Hfiles1]. constructor; simpl; try done.
        intros i Hi Hkept. rewrite lookup_delete_ne by lia.
        apply Hfiles1; [done|lia].
      * etransitivity; [exact Hfr1|]. auto with frame.
  - exists c'. split; [exact Hrun|]. split; [done|]. split; [done|].
    split; [done|]. exact Hcells.
Qed.

Lemma BuildIterations_nonempty fuel first last_ step its :
  BuildIterations fuel first last_ step = Some (Ok its) -> its <> [].
Proof.
  unfold BuildIterations.
  destruct (IterationsLoop fuel last_ step first []) as [l|]; [|done].
  intros [= H]. unfold back in H.
  destruct (last l) as [b|] eqn:Hlast; simpl in H; [|done].
  destruct (negb (b =? wrap32 (last_ - 1))).
  - injection H as <-. by destruct l.
  - injection H as <-. by destruct l.
Qed.

(** The first window of the non-additive path on one chunk, for a calcer that
    has not processed anything for the non-additive metrics yet. *)
Lemma first_window_spec c d :
  codec_lossless ->
  (0 < ApproxDimension)%nat -> Z.of_nat ApproxDimension < 2 ^ 31 ->
  chunk_ok d -> length (GetTarget d) = GetObjectCount d ->
  plots_shaped c ->
  Forall (fun row => row = []) (CurApproxBuffer c) ->
  NonAdditiveMetricsData c
  = {| ApproxFiles := []; Target := []; Weights := [] |} ->
  ProcessedIterationsCount c = 0 ->
  0 < ProcessedIterationsStep c < 2 ^ 32 ->
  (0 < length (Iterations c))%nat ->
  Z.of_nat (length (Iterations c)) < 2 ^ 32 ->
  let its := Iterations c in
  let w := Z.to_nat (Z.min (ProcessedIterationsStep c)
                       (Z.of_nat (length its))) in
  (forall k, (k < w)%nat ->
     Forall (Forall is_double)
       (running (ObjectsData d) its (initial_matrix d) (S k))) ->
  exists c1 c2,
    result (ProceedDataSetForNonAdditiveMetrics d c) = Ok c1
    /\ FinishProceedDataSetForNonAdditiveMetrics c1 = Ok c2
    /\ frame c c2
    /\ AdditiveMetricPlots c2 = AdditiveMetricPlots c
    /\ ProcessedIterationsCount c2 = Z.of_nat w
    /\ forall j metric k,
         NonAdditiveMetrics c !! j = Some metric -> (k < w)%nat ->
         cell (NonAdditiveMetricPlots c2) j k
         = Some (non_additive_eval metric
                   (running (ObjectsData d) its (initial_matrix d) (S k))
                   (GetTarget d) (GetWeights d)).
Proof.
  intros Hcodec Hdim Hint Hok Hlab Hshaped Hcur Hdata Hcount Hstep Hpos Hn
    its w Hval.
  subst its. set (processIterationStep := ProcessedIterationsStep c) in *.
  assert (ProcessedIterationsStep c = processIterationStep) as Hpis by done.
  assert (0 < w <= length (Iterations c))%nat as Hw by (subst w; lia).
  assert (Z.min processIterationStep (Z.of_nat (length (Iterations c)))
          = Z.of_nat w)
    as Hmin by (subst w; lia).
  (* the pass *)
  set (c0 := set_NonAdditiveMetricsData
               (set_Target_Weights
                  (Target (NonAdditiveMetricsData c) ++ GetTarget d)
                  (Weights (NonAdditiveMetricsData c) ++ GetWeights d)
                  (NonAdditiveMetricsData c)) c).
  assert (forall c', frame c c' -> ProcessedIterationsCount c' = 0 ->
                     WindowEnd c' = Z.of_nat w) as Hwindow.
  { intros c' F Hc'. unfold WindowEnd.
    rewrite Hc', (fr_ProcessedIterationsStep _ _ F), (fr_Iterations _ _ F), Hpis.
    rewrite Z.add_0_l, !wrap32_small by lia. exact Hmin. }
  assert (frame c c0) as F0 by (subst c0; auto with frame).
  destruct (first_window_pass d w c0 Hdim Hok Hcur ltac:(simpl; lia))
    as (c1 & Hpass & Hst1 & F1 & Hplots1 & Hcount1).
  { lia. }
  { constructor; simpl; rewrite ?Hdata; simpl; try done.
    - intros i Hi. lia.
    - intros i _ q. unfold snapshot_unnamed. simpl. rewrite Hdata. simpl.
      by rewrite lookup_nil.
    - intros i Hi. lia. }
  assert (result (ProceedDataSetForNonAdditiveMetrics d c) = Ok c1) as Hrun1.
  { unfold ProceedDataSetForNonAdditiveMetrics. rewrite Hcount. cbn [Z.eqb].
    fold c0. rewrite (Hwindow c0 F0 Hcount).
    change (ProcessedIterationsCount c0) with (ProcessedIterationsCount c).
    rewrite Hcount. change (Z.to_nat 0) with 0%nat.
    by rewrite Nat2Z.id. }
  exists c1.
  (* finishing the window *)
  assert (frame c c1) as Fc1 by (etransitivity; [exact F0|exact F1]).
  assert (ProcessedIterationsCount c1 = 0) as Hc1.
  { rewrite Hcount1. exact Hcount. }
  change (Iterations c0) with (Iterations c) in Hst1.
  destruct (first_window_compute d w c1 Hcodec Hint Hok Hlab)
    as (c2 & Hcompute & Hst2 & F2 & Hcount2 & Hcells).
  { by eapply plots_shaped_frame. }
  { rewrite (fr_Iterations _ _ Fc1). lia. }
  { by rewrite (fr_Iterations _ _ Fc1). }
  { rewrite (fr_Iterations _ _ Fc1). exact Hval. }
  rewrite (fr_Iterations _ _ Fc1) in Hst2, Hcells.
  rewrite (fr_NonAdditiveMetrics _ _ Fc1) in Hcells.
  set (c3 := set_ProcessedIterationsCount (Z.of_nat w) c2).
  assert (GetApproxFileName (w - 1) c3 = Ok ((w - 1)%nat, c3)) as Hname.
  { apply GetApproxFileName_named_eq. simpl.
    apply (st_named _ _ _ _ _ Hst2). lia. }
  assert (exists c4,
            FinishProceedDataSetForNonAdditiveMetrics c1 = Ok c4
            /\ ProcessedIterationsCount c4 = Z.of_nat w
            /\ NonAdditiveMetricPlots c4 = NonAdditiveMetricPlots c2)
    as (c4 & Hfinish & Hcount4 & Hplots4).
  { unfold FinishProceedDataSetForNonAdditiveMetrics.
    rewrite (Hwindow c1 Fc1 Hc1), Hc1. change (Z.to_nat 0) with 0%nat.
    rewrite Nat2Z.id, Hcompute. cbn [mbind outcome_bind]. fold c3.
    replace (Z.to_nat (wrap32 (Z.of_nat w - 1))) with (w - 1)%nat
      by (rewrite wrap32_small by lia; lia).
    destruct (AreAllIterationsProcessed c3).
    - unfold DeleteApprox. rewrite Hname. simpl. eexists. by split.
    - rewrite Hname. simpl.
      rewrite (st_files _ _ _ _ _ Hst2 (w - 1)%nat) by lia.
      eexists. by split. }
  exists c4. split; [exact Hrun1|]. split; [exact Hfinish|].
  assert (forall i c p c', GetApproxFileName i c = Ok (p, c') ->
                           keeps AdditiveMetricPlots c c') as Hkeeps.
  { intros i c5 p c6. by apply GetApproxFileName_keeps. }
  split; [|split; [|split; [exact Hcount4|]]].
  - etransitivity; [exact Fc1|].
    by eapply FinishProceedDataSetForNonAdditiveMetrics_frame.
  - apply (FinishProceedDataSetForNonAdditiveMetrics_preserves
             (keeps AdditiveMetricPlots)) in Hfinish; [|done..].
    apply (ProceedDataSetForNonAdditiveMetrics_preserves
             (keeps AdditiveMetricPlots)) in Hrun1; [|done..].
    unfold keeps in *. congruence.
  - intros j metric k Hj Hk. rewrite Hplots4. by apply Hcells.
Qed.

(** X28: the first window of the non-additive path on one chunk: the pass
    stores a snapshot per checkpoint of the window, finishing the window
    reads each snapshot back, assigns to every non-additive metric its
    evaluation on the running matrix of that checkpoint with the targets and
    weights of the chunk, and moves the window counter to the end of the
    window. *)
Theorem first_window_scores_the_non_additive_metrics fuel metrics
  tmpDirExists first last_ step processIterationStep c d :
  MakeCalcer fuel metrics tmpDirExists first last_ step processIterationStep
  = Some (Ok c) ->
  codec_lossless ->
  (0 < ApproxDimension)%nat -> Z.of_nat ApproxDimension < 2 ^ 31 ->
  chunk_ok d -> length (GetTarget d) = GetObjectCount d ->
  0 < processIterationStep < 2 ^ 32 ->
  Z.of_nat (length (Iterations c)) < 2 ^ 32 ->
  let its := Iterations c in
  let w := Z.to_nat (Z.min processIterationStep (Z.of_nat (length its))) in
  (forall k, (k < w)%nat ->
     Forall (Forall is_double)
       (running (ObjectsData d) its (initial_matrix d) (S k))) ->
  exists c1 c2,
    result (ProceedDataSetForNonAdditiveMetrics d c) = Ok c1
    /\ FinishProceedDataSetForNonAdditiveMetrics c1 = Ok c2
    /\ ProcessedIterationsCount c2 = Z.of_nat w
    /\ forall j metric k,
         NonAdditiveMetrics c !! j = Some metric -> (k < w)%nat ->
         cell (NonAdditiveMetricPlots c2) j k
         = Some (non_additive_eval metric
                   (running (ObjectsData d) its (initial_matrix d) (S k))
                   (GetTarget d) (GetWeights d)).
Proof.
  intros Hmade Hcodec Hdim Hint Hok Hlab Hstep Hn its w Hval.
  pose proof (MakeCalcer_scratch _ _ _ _ _ _ _ _ Hmade)
    as (_ & _ & _ & Hdata & Hcount & Hpis & _).
  apply MakeCalcer_Ok in Hmade as (Hbuilt & _ & _ & Hshaped & _ & _ & Hcur).
  apply BuildIterations_nonempty in Hbuilt.
  assert (0 < length (Iterations c))%nat as Hpos.
  { destruct (Iterations c); [done|simpl; lia]. }
  subst its w. rewrite <- Hpis in Hstep, Hval |- *.
  destruct (first_window_spec c d Hcodec Hdim Hint Hok Hlab Hshaped Hcur
              Hdata Hcount Hstep Hpos Hn Hval)
    as (c1 & c2 & Hrun & Hfinish & _ & _ & Hcount2 & Hcells).
  by exists c1, c2.
Qed.

(** ** The two paths for the non-additive metrics *)

Lemma hcat_single dim n (m : list (list double)) :
  shaped dim n m -> hcat dim [m] = m.
Proof.
  intros Hm. apply list_eq. intros r. rewrite hcat_lookup. simpl.
  rewrite app_nil_r. case_decide as Hr.
  - by destruct (shape_lookup m dim n r Hm Hr) as (row & -> & _).
  - symmetry. apply lookup_ge_None_2. rewrite (shaped_length _ _ _ Hm). lia.
Qed.

Lemma cell_outside {A} (t : list (list A)) rows cols r c :
  map length t = replicate rows cols ->
  ~ (r < rows /\ c < cols)%nat -> cell t r c = None.
Proof.
  intros Hs Hout. unfold cell.
  destruct (decide (r < rows)%nat) as [Hr|Hr].
  - destruct (shape_lookup t rows cols r Hs Hr) as (row & -> & Hl). simpl.
    apply lookup_ge_None_2. lia.
  - rewrite lookup_ge_None_2; [done|].
    apply (f_equal length) in Hs.
    rewrite length_map, length_replicate in Hs. lia.
Qed.

(** X29: for a dataset in one part the two paths for the non-additive
    metrics agree: feeding the chunk through snapshots, with one window over
    all checkpoints, and evaluating it in memory as a dataset of one part
    leave the same plots and so the same score matrix. *)
Theorem the_two_non_additive_paths_agree fuel metrics tmpDirExists first last_
  step processIterationStep c d :
  MakeCalcer fuel metrics tmpDirExists first last_ step processIterationStep
  = Some (Ok c) ->
  codec_lossless ->
  (0 < ApproxDimension)%nat -> Z.of_nat ApproxDimension < 2 ^ 31 ->
  chunk_ok d -> length (GetTarget d) = GetObjectCount d ->
  Z.of_nat (GetObjectCount d) < 2 ^ 31 ->
  Forall (fun it => 0 <= it < 2 ^ 31 - 1) (Iterations c) ->
  Z.of_nat (length (Iterations c)) <= processIterationStep < 2 ^ 32 ->
  (forall k, (k < length (Iterations c))%nat ->
     Forall (Forall is_double)
       (running (ObjectsData d) (Iterations c) (initial_matrix d) (S k))) ->
  exists c1 c2 c3,
    result (ProceedDataSetForNonAdditiveMetrics d c) = Ok c1
    /\ FinishProceedDataSetForNonAdditiveMetrics c1 = Ok c2
    /\ result (ComputeNonAdditiveMetricsOnParts [d] c) = Ok c3
    /\ NonAdditiveMetricPlots c2 = NonAdditiveMetricPlots c3
    /\ GetMetricsScore c2 = GetMetricsScore c3.
Proof.
  intros Hmade Hcodec Hdim Hint Hok Hlab Hcount Hits Hstep Hval.
  pose proof (MakeCalcer_scratch _ _ _ _ _ _ _ _ Hmade)
    as (_ & _ & _ & Hdata & Hcount0 & Hpis & _).
  apply MakeCalcer_Ok in Hmade as (Hbuilt & _ & _ & Hshaped & _ & _ & Hcur).
  apply BuildIterations_nonempty in Hbuilt.
  assert (0 < length (Iterations c))%nat as Hpos.
  { destruct (Iterations c); [done|simpl; lia]. }
  assert (Z.to_nat (Z.min (ProcessedIterationsStep c)
                      (Z.of_nat (length (Iterations c))))
          = length (Iterations c)) as Hw by (rewrite Hpis; lia).
  destruct (first_window_spec c d Hcodec Hdim Hint Hok Hlab Hshaped Hcur
              Hdata Hcount0)
    as (c1 & c2 & Hrun & Hfinish & F2 & Ha2 & _ & Hcells2);
    [rewrite Hpis; lia|done|lia| |].
  { cbn zeta. rewrite Hw. exact Hval. }
  cbn zeta in Hcells2. rewrite Hw in Hcells2.
  destruct (ComputeNonAdditiveMetricsOnParts_spec d [] c Hdim)
    as (c3 & Hparts & _ & Hcells3); try done.
  { by constructor. }
  { simpl. lia. }
  cbn zeta in Hcells3.
  pose proof (ComputeNonAdditiveMetricsOnParts_frame _ _ _ Hparts) as F3.
  assert (AdditiveMetricPlots c3 = AdditiveMetricPlots c) as Ha3.
  { by apply (ComputeNonAdditiveMetricsOnParts_preserves
                (keeps AdditiveMetricPlots)) in Hparts. }
  assert (NonAdditiveMetricPlots c2 = NonAdditiveMetricPlots c3) as Hplots.
  { destruct Hshaped as [_ Hshape]. apply table_eq.
    - by rewrite (fr_NonAdditiveMetricPlots _ _ F2),
        (fr_NonAdditiveMetricPlots _ _ F3).
    - intros j k.
      destruct (decide (j < length (NonAdditiveMetrics c)
                        /\ k < length (Iterations c))%nat)
        as [[Hj Hk]|Hout].
      + destruct (lookup_lt_is_Some_2 _ _ Hj) as [metric Hmetric].
        rewrite (Hcells2 j metric k Hmetric Hk),
          (Hcells3 j metric k Hmetric Hk).
        unfold parts_running, BuildTargets, BuildWeights. cbn [map concat].
        rewrite !app_nil_r.
        by rewrite (hcat_single ApproxDimension (GetObjectCount d) _
                      (shaped_running d (Iterations c) (S k) Hok)).
      + rewrite (cell_outside _ _ _ j k
                   (eq_trans (fr_NonAdditiveMetricPlots _ _ F2) Hshape) Hout).
        by rewrite (cell_outside _ _ _ j k
                      (eq_trans (fr_NonAdditiveMetricPlots _ _ F3) Hshape) Hout). }
  exists c1, c2, c3. repeat (split; [done|]).
  unfold GetMetricsScore.
  by rewrite Hplots, Ha2, Ha3,
    (fr_Iterations _ _ F2), (fr_Iterations _ _ F3),
    (fr_AdditiveMetrics _ _ F2), (fr_AdditiveMetrics _ _ F3),
    (fr_NonAdditiveMetrics _ _ F2), (fr_NonAdditiveMetrics _ _ F3),
    (fr_AdditiveMetricsIndices _ _ F2), (fr_AdditiveMetricsIndices _ _ F3),
    (fr_NonAdditiveMetricsIndices _ _ F2),
    (fr_NonAdditiveMetricsIndices _ _ F3).
Qed.

End Calcer.

(** * The serialization is lossless *)

Lemma Z_of_byte_of_Z z : Z_of_byte (byte_of_Z z) = z mod 256.
Proof.
  unfold Z_of_byte, byte_of_Z.
  pose proof (Z.mod_pos_bound z 256 ltac:(lia)) as Hb.
  destruct (Byte.of_N (Z.to_N (z mod 256))) as [b|] eqn:E.
  - simpl. apply Byte.to_of_N in E. rewrite E. lia.
  - apply Byte.of_N_None_iff in E. lia.
Qed.

Lemma le_value_le_bytes n : forall z,
  0 <= z < 256 ^ Z.of_nat n -> le_value (le_bytes n z) = z.
Proof.
  induction n as [|n IH]; intros z Hz.
  - simpl in *. lia.
  - cbn [le_bytes le_value]. rewrite Z_of_byte_of_Z.
    rewrite Nat2Z.inj_succ, Z.pow_succ_r in Hz by lia.
    rewrite IH.
    + pose proof (Z.div_mod z 256 ltac:(lia)). lia.
    + split; [apply Z.div_pos; lia|]. apply Z.div_lt_upper_bound; lia.
Qed.

Lemma le_bytes_length n z : length (le_bytes n z) = n.
Proof. revert z. induction n as [|n IH]; intros z; simpl; [done|]. by rewrite IH. Qed.

Lemma digits2_pos_bounds m :
  2 ^ (Z.pos (digits2_pos m) - 1) <= Z.pos m < 2 ^ Z.pos (digits2_pos m).
Proof.
  induction m as [m IH|m IH|]; cbn [digits2_pos].
  - rewrite Pos2Z.inj_succ.
    replace (Z.succ (Z.pos (digits2_pos m)) - 1) with (Z.succ (Z.pos (digits2_pos m) - 1)) by lia.
    rewrite !Z.pow_succ_r by lia. lia.
  - rewrite Pos2Z.inj_succ.
    replace (Z.succ (Z.pos (digits2_pos m)) - 1) with (Z.succ (Z.pos (digits2_pos m) - 1)) by lia.
    rewrite !Z.pow_succ_r by lia. lia.
  - simpl. lia.
Qed.

Lemma join_bits_fields s e m :
  0 <= e < 2 ^ 11 -> 0 <= m < 2 ^ 52 ->
  (2 ^ 63 <=? join_bits s e m) = s
  /\ (join_bits s e m / 2 ^ 52) mod 2 ^ 11 = e
  /\ join_bits s e m mod 2 ^ 52 = m
  /\ 0 <= join_bits s e m < 2 ^ 64.
Proof.
  intros He Hm. unfold join_bits.
  change (2 ^ 63) with 9223372036854775808 in *.
  change (2 ^ 52) with 4503599627370496 in *.
  change (2 ^ 11) with 2048 in *.
  change (2 ^ 64) with 18446744073709551616 in *.
  destruct s.
  - split; [apply Z.leb_le; lia|]. split; [|split; [|lia]].
    + replace (9223372036854775808 + e * 4503599627370496 + m)
        with (m + (2048 + e) * 4503599627370496) by lia.
      rewrite Z.div_add by lia. rewrite Z.div_small by lia.
      replace (0 + (2048 + e)) with (e + 1 * 2048) by lia.
      rewrite Z.mod_add by lia. apply Z.mod_small. lia.
    + replace (9223372036854775808 + e * 4503599627370496 + m)
        with (m + (2048 + e) * 4503599627370496) by lia.
      rewrite Z.mod_add by lia. apply Z.mod_small. lia.
  - split; [apply Z.leb_gt; lia|]. split; [|split; [|lia]].
    + replace (0 + e * 4503599627370496 + m)
        with (m + e * 4503599627370496) by lia.
      rewrite Z.div_add by lia. rewrite Z.div_small by lia.
      apply Z.mod_small. lia.
    + replace (0 + e * 4503599627370496 + m)
        with (m + e * 4503599627370496) by lia.
      rewrite Z.mod_add by lia. apply Z.mod_small. lia.
Qed.

Lemma bits_of_double_range x :
  valid_binary 53 1024 x = true ->
  0 <= bits_of_double x < 2 ^ 64
  /\ double_of_bits (bits_of_double x) = x.
Proof.
  intros Hv. destruct x as [s|s| |s m e]; cbn [bits_of_double].
  - destruct (join_bits_fields s 0 0) as (Hs & He & Hm & Hr); [lia..|].
    split; [done|]. unfold double_of_bits. by rewrite Hs, He, Hm.
  - destruct (join_bits_fields s 2047 0) as (Hs & He & Hm & Hr); [lia..|].
    split; [done|]. unfold double_of_bits. by rewrite Hs, He, Hm.
  - destruct (join_bits_fields false 2047 (2 ^ 51)) as (Hs & He & Hm & Hr);
      [lia..|].
    split; [done|]. unfold double_of_bits. by rewrite He, Hm.
  - simpl in Hv. unfold bounded, canonical_mantissa, fexp, emin in Hv.
    apply andb_prop in Hv as [Hcanon Hemax].
    apply Z.eqb_eq in Hcanon.
    apply Z.leb_le in Hemax.
    pose proof (digits2_pos_bounds m) as Hd.
    change (2 ^ 52) with 4503599627370496 in *.
    destruct (Z.leb_spec 4503599627370496 (Z.pos m)) as [Hnorm|Hsub].
    + assert (Z.pos (digits2_pos m) = 53) as Hdig.
      { destruct (Z.max_spec (Z.pos (digits2_pos m) + e - 53) (3 - 1024 - 53))
          as [[? Hmax]|[? Hmax]]; rewrite Hmax in Hcanon; [|lia].
        assert (Z.pos (digits2_pos m) < 53); [lia|].
        assert (2 ^ (Z.pos (digits2_pos m)) <= 2 ^ 52)
          by (apply Z.pow_le_mono_r; lia).
        change (2 ^ 52) with 4503599627370496 in *. lia. }
      rewrite Hdig in Hd. change (2 ^ (53 - 1)) with 4503599627370496 in Hd.
      change (2 ^ 53) with 9007199254740992 in Hd.
      assert (-1074 <= e) by lia.
      destruct (join_bits_fields s (e + 1075) (Z.pos m - 4503599627370496))
        as (Hs & He & Hm & Hr).
      { change (2 ^ 11) with 2048. lia. }
      { change (2 ^ 52) with 4503599627370496. lia. }
      split; [done|]. unfold double_of_bits.
      change (2 ^ 52) with 4503599627370496 in *.
      rewrite Hs, He, Hm.
      destruct (Z.eqb_spec (e + 1075) 0); [lia|].
      destruct (Z.eqb_spec (e + 1075) 2047); [lia|].
      replace (Z.pos m - 4503599627370496 + 4503599627370496) with (Z.pos m)
        by lia.
      f_equal. lia.
    + assert (e = -1074) as ->.
      { destruct (Z.max_spec (Z.pos (digits2_pos m) + e - 53) (3 - 1024 - 53))
          as [[? Hmax]|[? Hmax]]; rewrite Hmax in Hcanon; [lia|].
        assert (53 <= Z.pos (digits2_pos m)) by lia.
        assert (2 ^ 52 <= 2 ^ (Z.pos (digits2_pos m) - 1))
          by (apply Z.pow_le_mono_r; lia).
        change (2 ^ 52) with 4503599627370496 in *. lia. }
      destruct (join_bits_fields s 0 (Z.pos m)) as (Hs & He & Hm & Hr).
      { lia. }
      { change (2 ^ 52) with 4503599627370496. lia. }
      split; [done|]. unfold double_of_bits.
      change (2 ^ 52) with 4503599627370496 in *.
      by rewrite Hs, He, Hm.
Qed.

Lemma read_doubles_saved (line : list double) rest :
  Forall (fun x => valid_binary 53 1024 x = true) line ->
  read_doubles (length line)
    (flat_map (fun x => le_bytes 8 (bits_of_double x)) line ++ rest)
  = Some (line, rest).
Proof.
  induction line as [|x line IH]; intros Hv; [done|].
  apply Forall_cons in Hv as [Hx Hv].
  cbn [length read_doubles flat_map]. rewrite <- app_assoc.
  assert (length (le_bytes 8 (bits_of_double x)) = 8%nat) as Hl
    by apply le_bytes_length.
  destruct (Nat.ltb_spec (length (le_bytes 8 (bits_of_double x) ++
              flat_map (fun x => le_bytes 8 (bits_of_double x)) line ++ rest)) 8)
    as [Hlt|_].
  { rewrite length_app in Hlt. lia. }
  rewrite drop_app_length' by done. rewrite IH by done.
  rewrite take_app_length' by done.
  destruct (bits_of_double_range x Hx) as [Hr Hd].
  rewrite le_value_le_bytes by (change (256 ^ Z.of_nat 8) with (2 ^ 64); lia).
  by rewrite Hd.
Qed.

Lemma load_line_save_line (line : list double) rest :
  Forall (fun x => valid_binary 53 1024 x = true) line ->
  Z.of_nat (length line) < 2 ^ 31 ->
  load_line (save_line line ++ rest) = Some (line, rest).
Proof.
  intros Hv Hlen. unfold load_line, save_line. rewrite <- app_assoc.
  assert (length (le_bytes 4 (Z.of_nat (length line))) = 4%nat) as Hl
    by apply le_bytes_length.
  destruct (Nat.ltb_spec (length (le_bytes 4 (Z.of_nat (length line)) ++
              flat_map (fun x => le_bytes 8 (bits_of_double x)) line ++ rest)) 4)
    as [Hlt|_].
  { rewrite length_app in Hlt. lia. }
  rewrite take_app_length', drop_app_length' by done.
  rewrite le_value_le_bytes.
  - rewrite Nat2Z.id. by apply read_doubles_saved.
  - change (256 ^ Z.of_nat 4) with 4294967296.
    change (2 ^ 31) with 2147483648 in Hlen. lia.
Qed.

(** * A concrete ensemble, metrics and datasets *)

Arguments Iterations {_ _} _.
Arguments AdditiveMetrics {_ _} _.
Arguments AdditiveMetricsIndices {_ _} _.
Arguments NonAdditiveMetrics {_ _} _.
Arguments NonAdditiveMetricsIndices {_ _} _.
Arguments Scratch {_ _} _.
Arguments LastApproxes {_ _} _.

Definition double_of_Z (z : Z) : double := binary_normalize 53 1024 z 0 false.

(** An ensemble in which every tree adds 1 to every document in every
    dimension. *)
Definition unit_trees (dim : nat) (objects : list nat) (b e : Z) : matrix :=
  replicate dim (map (fun _ => double_of_Z (e - b)) objects).

(** A metric that counts the documents it is given predictions for; its
    accumulator is an integer and the merge is the sum. *)
Definition counting (additive : bool) (errorType : EErrorType) : IMetric Z unit :=
  {| IsAdditiveMetric := additive;
     GetErrorType := errorType;
     Eval := fun approx _ _ _ _ _ => Z.of_nat (length (hd [] approx));
     GetFinalError := double_of_Z |}.

Definition chunk_of (objects : list nat) (baseline : list (list float))
  : TProcessedDataProvider unit nat :=
  {| ObjectsData := objects;
     GetTarget := map (fun _ => dzero) objects;
     GetWeights := map (fun _ => double_of_Z 1) objects;
     GetBaseline := baseline;
     GetGroupInfo := [] |}.

(** The calcer for one additive and one non-additive metric, first = 0,
    last = 10, step = 5, windows of [window] checkpoints. *)
Definition calcer_0_10_5 (window : Z) : TMetricsPlotCalcer Z unit :=
  {| First := 0; Last := 10; Step := 5;
     Iterations := [0; 5; 9];
     AdditiveMetrics := [counting true PerObjectError];
     AdditiveMetricsIndices := [0%nat];
     NonAdditiveMetrics := [counting false PerObjectError];
     NonAdditiveMetricsIndices := [1%nat];
     AdditiveMetricPlots := [[0; 0; 0]];
     NonAdditiveMetricPlots := [[0; 0; 0]];
     ProcessedIterationsCount := 0;
     ProcessedIterationsStep := window;
     CurApproxBuffer := [];
     NextApproxBuffer := [];
     NonAdditiveMetricsData :=
       {| ApproxFiles := []; Target := []; Weights := [] |};
     LastApproxes := None;
     DeleteTmpDirOnExitFlag := false;
     Scratch := {| TmpDirExists := true; Files := ∅ |} |}.

Definition two_metrics : list (IMetric Z unit) :=
  [counting true PerObjectError; counting false PerObjectError].


Definition one : double := double_of_Z 1.
Definition two : double := double_of_Z 2.

(** 1 and 2 as [float]. *)
Definition one_f : float := binary_normalize 24 128 1 0 false.
Definition two_f : float := binary_normalize 24 128 2 0 false.

Local Abbreviation calc_ProceedDataSet :=
  (ProceedDataSet Z Z.add unit nat 1 (unit_trees 1) save_line load_line).
Local Abbreviation calc_ProceedDataSetForNonAdditiveMetrics :=
  (ProceedDataSetForNonAdditiveMetrics Z Z.add unit nat 1 (unit_trees 1)
     save_line load_line).
Local Abbreviation calc_Finish :=
  (FinishProceedDataSetForNonAdditiveMetrics Z unit 1 load_line).
Local Abbreviation calc_MakeCalcer := (MakeCalcer Z 0 unit).
Local Abbreviation calc_perform_all :=
  (perform_all Z Z.add unit nat 1 (unit_trees 1) save_line load_line).
Local Abbreviation calc_process_additive :=
  (process_additive Z Z.add unit nat 1 (unit_trees 1) save_line load_line).

Lemma calcer_0_10_5_made window :
  calc_MakeCalcer 4 two_metrics true 0 10 5 window
  = Some (Ok (calcer_0_10_5 window)).
Proof. reflexivity. Qed.

Lemma save_line_lossless : codec_lossless save_line load_line.
Proof. intros line rest Hv Hlen. by apply load_line_save_line. Qed.

Lemma chunk_of_ok dim objects :
  Z.of_nat (length objects) < 2 ^ 32 ->
  chunk_ok unit nat dim (unit_trees dim) (chunk_of objects []).
Proof.
  intros Hlen. constructor.
  - exact Hlen.
  - discriminate.
  - intros b e. unfold shaped, unit_trees. simpl.
    change (map length) with (fmap (M := list) (length (A := double))).
    by rewrite fmap_replicate, length_map.
Qed.

(** ** The checkpoint planner on concrete inputs *)

Lemma checkpoints_0_10 :
  BuildIterations 4 0 10 5 = Some (Ok [0; 5; 9])
  /\ BuildIterations 5 0 10 3 = Some (Ok [0; 3; 6; 9]).
Proof.
  split.
  - refine (proj1 (checkpoints_planned_when_counter_fits Z 0 Z.add unit nat 1
                     (unit_trees 1) save_line load_line 0 10 5 _ _ _ _ _)
              4%nat _);
      [lia | lia | reflexivity | lia | reflexivity | vm_compute; lia].
  - refine (proj1 (checkpoints_planned_when_counter_fits Z 0 Z.add unit nat 1
                     (unit_trees 1) save_line load_line 0 10 3 _ _ _ _ _)
              5%nat _);
      [lia | lia | reflexivity | lia | reflexivity | vm_compute; lia].
Defined.

(** With first = 0, last = 2147483650 and step = 2147483649 the loop counter
    wraps around: the list is neither the planned one nor increasing. *)
Lemma checkpoints_wrap_around :
  0 < 2147483650 /\ 1 <= 2147483649
  /\ BuildIterations 4 0 2147483650 2147483649
     = Some (Ok [0; 2147483649; 2; 2147483649])
  /\ planned_checkpoints 0 2147483650 2147483649 = [0; 2147483649]
  /\ ~ strictly_increasing [0; 2147483649; 2; 2147483649]
  /\ forall fuel,
       BuildIterations fuel 0 2147483650 2147483649
       <> Some (Ok (planned_checkpoints 0 2147483650 2147483649)).
Proof.
  assert (BuildIterations 4 0 2147483650 2147483649
          = Some (Ok [0; 2147483649; 2; 2147483649])) as Hrun
    by (vm_compute; reflexivity).
  split; [lia|]. split; [lia|]. split; [exact Hrun|].
  split; [vm_compute; reflexivity|]. split.
  - intros Hinc.
    specialize (Hinc 1%nat 2%nat 2147483649 2 ltac:(lia) eq_refl eq_refl). lia.
  - intros fuel Hfuel.
    pose proof (BuildIterations_agree _ _ _ _ _ _ _ Hfuel Hrun) as Heq.
    vm_compute in Heq. discriminate Heq.
Qed.

(** ** Construction on concrete metrics *)

Lemma construction_on_three_metrics :
  calc_MakeCalcer 4 (two_metrics ++ [counting false QuerywiseError])
    true 0 10 5 1
  = Some (Fail ConfigurationError)
  /\ exists c,
       calc_MakeCalcer 4 two_metrics true 0 10 5 1 = Some (Ok c)
       /\ AdditiveMetrics c = [counting true PerObjectError]
       /\ NonAdditiveMetrics c = [counting false PerObjectError].
Proof.
  split.
  - apply (construction_classifies_metrics Z 0 unit 4
             (two_metrics ++ [counting false QuerywiseError]) true 0 10 5 1
             [0; 5; 9] eq_refl eq_refl).
    exists (counting false QuerywiseError).
    split; [|split; [reflexivity|discriminate]].
    do 2 right. left.
  - destruct (proj2 (construction_classifies_metrics Z 0 unit 4 two_metrics
                       true 0 10 5 1 [0; 5; 9] eq_refl eq_refl))
      as (c & Hc & Ha & Hn & _).
    + intros metric Hin. right.
      apply elem_of_cons in Hin as [->|Hin]; [reflexivity|].
      apply list_elem_of_singleton in Hin as ->. reflexivity.
    + exists c. split; [exact Hc|]. split; [exact Ha|exact Hn].
Defined.

(** ** The score matrix of a concrete run *)

Lemma score_matrix_after_one_chunk :
  exists c score,
    result (calc_perform_all
              [OpProceedDataSetForAdditiveMetrics unit nat (chunk_of [7; 8]%nat [])]
              (calcer_0_10_5 1)) = Ok c
    /\ GetMetricsScore Z unit c = Ok score
    /\ length score = 2%nat.
Proof.
  destruct (ProceedDataSet_from_slot_0 Z 0 Z.add unit nat 1 (unit_trees 1)
              save_line load_line (chunk_of [7; 8]%nat []) 3 true
              (calcer_0_10_5 1)) as (c & Hrun & _).
  { lia. }
  { apply chunk_of_ok. reflexivity. }
  { constructor. }
  { split; reflexivity. }
  { simpl. lia. }
  { discriminate. }
  assert (result (calc_perform_all
                    [OpProceedDataSetForAdditiveMetrics unit nat
                       (chunk_of [7; 8]%nat [])] (calcer_0_10_5 1)) = Ok c)
    as Hops.
  { unfold perform_all. cbn [for_each_traced perform].
    unfold ProceedDataSetForAdditiveMetrics.
    change (length (Iterations (calcer_0_10_5 1))) with 3%nat.
    unfold mbind, traced_bind. rewrite Hrun. reflexivity. }
  destruct (score_matrix_by_original_slot Z 0 Z.add unit nat 1 (unit_trees 1)
              save_line load_line 4 two_metrics true 0 10 5 1
              (calcer_0_10_5 1) _ c (calcer_0_10_5_made 1) Hops)
    as (score & Hscore & Hlen & _).
  exists c, score. split; [exact Hops|]. split; [exact Hscore|exact Hlen].
Defined.

Lemma score_matrix_before_any_chunk :
  exists score,
    GetMetricsScore Z unit (calcer_0_10_5 1) = Ok score
    /\ cell score 0 0 = Some (double_of_Z 0)
    /\ cell score 1 2 = Some (double_of_Z 0).
Proof.
  destruct (plot_tables_keep_their_shape Z 0 Z.add unit nat 1 (unit_trees 1)
              save_line load_line 4 two_metrics true 0 10 5 1
              (calcer_0_10_5 1) (calcer_0_10_5_made 1))
    as (_ & _ & score & Hscore & Hcells).
  exists score. split; [exact Hscore|]. split.
  - apply (Hcells 0%nat (counting true PerObjectError) 0%nat eq_refl).
    simpl. lia.
  - apply (Hcells 1%nat (counting false PerObjectError) 2%nat eq_refl).
    simpl. lia.
Defined.

(** ** Baselines of a dataset of two parts *)

Lemma baselines_of_two_parts :
  InitApproxBuffer unit nat 1
    [chunk_of [7]%nat [[one_f]]; chunk_of [8]%nat [[two_f]]] true []
  = Ok [[one; two]]
  /\ InitApproxBuffer unit nat 1
       [chunk_of [7]%nat [[one_f]]; chunk_of [8]%nat []] true []
     = Fail ConfigurationError.
Proof.
  split.
  - refine (proj1 (baseline_presence_must_agree Z unit nat 1 (unit_trees 1)
                     (chunk_of [7]%nat [[one_f]]) [chunk_of [8]%nat [[two_f]]] _)
              eq_refl _).
    + repeat constructor.
    + intros p Hp. apply list_elem_of_singleton in Hp as ->. reflexivity.
  - refine (proj1 (proj2 (proj2 (baseline_presence_must_agree Z unit nat 1
                     (unit_trees 1)
                     (chunk_of [7]%nat [[one_f]]) [chunk_of [8]%nat []] _)) _)).
    + repeat constructor. discriminate.
    + exists (chunk_of [8]%nat []). split; [left|discriminate].
Defined.

(** ** A pass over a chunk of two documents *)

Lemma pass_over_two_documents :
  trace (calc_ProceedDataSet (chunk_of [7; 8]%nat []) 0 3 true
           (calcer_0_10_5 1))
  = [EvApply 0 0 1; EvApprox 0 [[double_of_Z 1; double_of_Z 1]];
     EvApply 0 1 6; EvApprox 1 [[double_of_Z 6; double_of_Z 6]];
     EvApply 0 6 10; EvApprox 2 [[double_of_Z 10; double_of_Z 10]]]
  /\ trees 0 1 ++ trees 1 6 ++ trees 6 10 = trees 0 10.
Proof.
  destruct (pass_from_slot_0_tiles_the_trees Z 0 Z.add unit nat 1
              (unit_trees 1) save_line load_line (chunk_of [7; 8]%nat []) 3
              true (calcer_0_10_5 1))
    as (_ & Htrace & _ & Htile).
  { lia. }
  { apply chunk_of_ok. reflexivity. }
  { constructor. }
  { split; reflexivity. }
  { simpl. lia. }
  { reflexivity. }
  assert (Forall (fun it => 0 <= it < 2 ^ 32 - 1) (Iterations (calcer_0_10_5 1)))
    as Hbelow by (repeat constructor; (lia || reflexivity)).
  assert (strictly_increasing (Iterations (calcer_0_10_5 1))) as Hinc
    by (apply (planned_checkpoints_shape 0 10 5); lia).
  destruct (Htile Hbelow) as [_ Htiles]. specialize (Htiles Hinc).
  split.
  - etransitivity; [exact Htrace|]. vm_compute. reflexivity.
  - etransitivity; [|exact Htiles]. vm_compute. reflexivity.
Defined.

(** The second and third call start one tree after the previous checkpoint,
    not at it. *)
Lemma pass_ranges_start_after_previous_checkpoint :
  applier_calls
    (trace (calc_ProceedDataSet (chunk_of [7; 8]%nat []) 0 3 true
              (calcer_0_10_5 1)))
  = [(0, 1); (1, 6); (6, 10)]
  /\ ranges_from_previous_checkpoint (Iterations (calcer_0_10_5 1)) 3
     = [(0, 1); (0, 6); (5, 10)]
  /\ applier_calls
       (trace (calc_ProceedDataSet (chunk_of [7; 8]%nat []) 0 3 true
                 (calcer_0_10_5 1)))
     <> ranges_from_previous_checkpoint (Iterations (calcer_0_10_5 1)) 3.
Proof.
  split; [vm_compute; reflexivity|]. split; [vm_compute; reflexivity|].
  vm_compute. discriminate.
Qed.

(** The calcer that the constructor builds for first = 0, last = 2147483650
    and step = 2147483649: its loop counter wraps around. *)
Definition calcer_wrapped : TMetricsPlotCalcer Z unit :=
  match calc_MakeCalcer 4 two_metrics true 0 2147483650 2147483649 1 with
  | Some (Ok c) => c
  | _ => calcer_0_10_5 1
  end.

(** On checkpoints that do not increase the pass still succeeds, but the
    tree ranges of its calls do not tile: the third one starts above its
    end. *)
Lemma pass_over_wrapped_checkpoints :
  calc_MakeCalcer 4 two_metrics true 0 2147483650 2147483649 1
  = Some (Ok calcer_wrapped)
  /\ Iterations calcer_wrapped = [0; 2147483649; 2; 2147483649]
  /\ succeeded (calc_ProceedDataSet (chunk_of [7]%nat []) 0 4 true
                  calcer_wrapped) = true
  /\ applier_calls
       (trace (calc_ProceedDataSet (chunk_of [7]%nat []) 0 4 true
                 calcer_wrapped))
     = [(0, 1); (1, 2147483650); (2147483650, 3); (3, 2147483650)].
Proof. repeat split; vm_compute; reflexivity. Qed.

(** ** A snapshot of two documents *)

Definition calcer_with_two_targets : TMetricsPlotCalcer Z unit :=
  set_NonAdditiveMetricsData Z unit
    {| ApproxFiles := []; Target := [dzero; dzero]; Weights := [] |}
    (calcer_0_10_5 1).

Lemma snapshot_of_two_documents :
  exists c' c'',
    SaveApproxToFile Z unit save_line 0 [[one; two]] calcer_with_two_targets
    = Ok c'
    /\ LoadApprox Z unit 1 load_line 0 c' = Ok ([[one; two]], c'').
Proof.
  destruct (snapshot_round_trip Z 0 Z.add unit 1 save_line load_line 0
              [[one; two]] 2 calcer_with_two_targets)
    as (c' & c'' & p & Hsave & _ & Hload).
  { exact save_line_lossless. }
  { reflexivity. }
  { lia. }
  { reflexivity. }
  { reflexivity. }
  { reflexivity. }
  { repeat constructor. }
  { reflexivity. }
  { intros p. discriminate. }
  exists c', c''. split; [exact Hsave|exact Hload].
Defined.

Definition calcer_with_one_target : TMetricsPlotCalcer Z unit :=
  set_NonAdditiveMetricsData Z unit
    {| ApproxFiles := []; Target := [dzero]; Weights := [] |}
    (calcer_0_10_5 1).

(** A second matrix saved to the same slot is appended to the file: the
    reload with the same document count and output dimension gives back the
    first matrix, not the one that was just saved. *)
Lemma second_snapshot_is_appended :
  (c1 ← SaveApproxToFile Z unit save_line 0 [[one]] calcer_with_one_target;
   c2 ← SaveApproxToFile Z unit save_line 0 [[two]] c1;
   '(approx, _) ← LoadApprox Z unit 1 load_line 0 c2;
   Ok approx) = Ok [[one]]
  /\ [[one]] <> [[two]].
Proof. split; [vm_compute; reflexivity|]. vm_compute. discriminate. Qed.

(** ** A dataset of three documents in two chunks *)

Lemma counting_additive_over whole part0 part1 :
  additive_over Z Z.add unit nat 1 (counting true PerObjectError) whole
    [part0; part1].
Proof.
  intros approx Hshape. cbn [map fold_left].
  unfold chunk_eval, metric_eval, counting, hcat. simpl.
  pose proof (Hshape part0 ltac:(left)) as Hs0.
  pose proof (Hshape part1 ltac:(right; left)) as Hs1.
  destruct (approx part0) as [|row0 m0]; [discriminate Hs0|].
  destruct (approx part1) as [|row1 m1]; [discriminate Hs1|].
  simpl. rewrite app_nil_r, length_app. lia.
Qed.

Lemma three_documents_in_two_chunks :
  exists c1 c2 c3,
    result (calc_process_additive
              [chunk_of [1; 2]%nat []; chunk_of [3]%nat []] (calcer_0_10_5 1))
    = Ok c1
    /\ result (calc_process_additive
                 [chunk_of [3]%nat []; chunk_of [1; 2]%nat []]
                 (calcer_0_10_5 1)) = Ok c2
    /\ result (calc_process_additive [chunk_of [1; 2; 3]%nat []]
                 (calcer_0_10_5 1)) = Ok c3
    /\ GetMetricsScore Z unit c2 = GetMetricsScore Z unit c1
    /\ GetMetricsScore Z unit c3 = GetMetricsScore Z unit c1.
Proof.
  destruct (chunk_order_does_not_change_the_scores Z 0 Z.add unit nat 1
              (unit_trees 1) save_line load_line 4 two_metrics true 0 10 5 1
              (calcer_0_10_5 1)
              [chunk_of [1; 2]%nat []; chunk_of [3]%nat []])
    as (c1 & Hrun1 & Horder & Hwhole).
  { intros a b. lia. }
  { intros a b c. lia. }
  { apply calcer_0_10_5_made. }
  { lia. }
  { repeat constructor; apply chunk_of_ok; reflexivity. }
  destruct (Horder [chunk_of [3]%nat []; chunk_of [1; 2]%nat []])
    as (c2 & Hrun2 & Hscore2).
  { apply perm_swap. }
  destruct (Hwhole (chunk_of [1; 2; 3]%nat [])) as (c3 & Hrun3 & Hscore3).
  { discriminate. }
  { apply chunk_of_ok. reflexivity. }
  { constructor;
      first [reflexivity | by repeat constructor | intros r; by destruct r]. }
  { intros b e. reflexivity. }
  { intros metric Hin Hadd.
    apply elem_of_cons in Hin as [->|Hin].
    - apply counting_additive_over.
    - apply list_elem_of_singleton in Hin as ->. discriminate Hadd. }
  exists c1, c2, c3. repeat split; assumption.
Defined.

(** ** Resuming from a snapshot *)

(** C1: with checkpoints [0; 5; 9] and windows of one checkpoint, the second
    window resumes from the snapshot of checkpoint 0 and applies the trees
    [5, 6) only: at checkpoint 5 the resumed matrix holds 2 where the
    uninterrupted pass holds 6, the trees 1 to 4 being skipped. *)
Theorem resumed_window_skips_trees :
  let chunk := chunk_of [7]%nat [] in
  let windowed :=
    c1 ← calc_ProceedDataSetForNonAdditiveMetrics chunk (calcer_0_10_5 1);
    c2 ← lift (calc_Finish c1);
    calc_ProceedDataSetForNonAdditiveMetrics chunk c2 in
  let uninterrupted := calc_ProceedDataSet chunk 0 2 false (calcer_0_10_5 1) in
  succeeded windowed = true
  /\ succeeded uninterrupted = true
  /\ applier_calls (trace windowed) = [(0, 1); (5, 6)]
  /\ applier_calls (trace uninterrupted) = [(0, 1); (1, 6)]
  /\ checkpoint_matrices (trace windowed)
     = [(0%nat, [[double_of_Z 1]]); (1%nat, [[double_of_Z 2]])]
  /\ checkpoint_matrices (trace uninterrupted)
     = [(0%nat, [[double_of_Z 1]]); (1%nat, [[double_of_Z 6]])]
  /\ double_of_Z 2 <> double_of_Z 6.
Proof.
  repeat split; try (vm_compute; reflexivity). vm_compute. discriminate.
Qed.

(** A pass that resumes while no stream is open reads the null stream only
    when the chunk has a document. *)
Lemma resumed_pass_without_stream :
  LastApproxes (calcer_0_10_5 1) = None
  /\ succeeded (calc_ProceedDataSet (chunk_of [] []) 1 2 false
                  (calcer_0_10_5 1)) = true
  /\ calc_ProceedDataSet (chunk_of [7]%nat []) 1 2 false (calcer_0_10_5 1)
     = Traced [] (Fail UndefinedBehaviour).
Proof. repeat split; vm_compute; reflexivity. Qed.

(** ** An empty chunk and an ensemble without output dimension *)

(** C9: over an empty chunk every checkpoint matrix has an empty row; with
    an output dimension of zero the delta matrix has no row 0 and the first
    [Append] reads it unchecked: no error is raised. *)
Theorem zero_dimension_is_not_checked :
  checkpoint_matrices
    (trace (calc_ProceedDataSet (chunk_of [] []) 0 3 true (calcer_0_10_5 1)))
  = [(0%nat, [[]]); (1%nat, [[]]); (2%nat, [[]])]
  /\ ProceedDataSet Z Z.add unit nat 0 (unit_trees 0) save_line load_line
       (chunk_of [7]%nat []) 0 3 true (calcer_0_10_5 1)
     = Traced [EvApply 0 0 1] (Fail UndefinedBehaviour)
  /\ ProceedDataSet Z Z.add unit nat 0 (unit_trees 0) save_line load_line
       (chunk_of [7]%nat []) 0 3 false (calcer_0_10_5 1)
     = Traced [EvApply 0 0 1] (Fail UndefinedBehaviour).
Proof. repeat split; vm_compute; reflexivity. Qed.

(** * Further properties on the concrete ensemble *)

(** ** Dataset parts, appended columns and single evaluations *)

Definition two_parts : list (TProcessedDataProvider unit nat) :=
  [chunk_of [1; 2]%nat []; chunk_of [3]%nat []].

Lemma offsets_of_two_parts :
  GetStartDocIdx unit nat two_parts = [0; 2]%nat
  /\ GetDocCount unit nat two_parts = 3%nat.
Proof.
  destruct (start_offsets_are_prefix_sums unit nat two_parts)
    as (Hstart & _ & Hcount & _).
  { reflexivity. }
  split.
  - etransitivity; [exact Hstart|]. reflexivity.
  - etransitivity; [exact Hcount|]. reflexivity.
Defined.

Lemma labels_of_the_second_part :
  exists start,
    GetStartDocIdx unit nat two_parts !! 1%nat = Some start
    /\ BuildTargets unit nat two_parts !! (start + 0)%nat
       = GetTarget unit nat (chunk_of [3]%nat []) !! 0%nat
    /\ BuildWeights unit nat two_parts !! (start + 0)%nat
       = GetWeights unit nat (chunk_of [3]%nat []) !! 0%nat.
Proof.
  apply (targets_and_weights_line_up unit nat two_parts 1
           (chunk_of [3]%nat []) 0).
  - reflexivity.
  - repeat constructor.
  - reflexivity.
  - vm_compute. lia.
Defined.

Lemma append_into_the_middle_column :
  exists dst',
    Append [[one]] [[one; two; one]] 1 = Ok dst'
    /\ cell dst' 0 0 = Some one
    /\ cell dst' 0 1 = Some (dadd two one)
    /\ cell dst' 0 2 = Some one.
Proof.
  destruct (append_adds_into_window Z 0 Z.add [[one]] [[one; two; one]]
              1 1 1 3) as (dst' & Hrun & _ & Hcells).
  { lia. }
  { reflexivity. }
  { reflexivity. }
  { lia. }
  { reflexivity. }
  exists dst'. split; [exact Hrun|]. split; [|split].
  - etransitivity; [apply Hcells|]. reflexivity.
  - etransitivity; [apply Hcells|]. reflexivity.
  - etransitivity; [apply Hcells|]. reflexivity.
Defined.

Lemma append_after_the_last_column :
  Append [[one]] [[one]] 1 = Fail UndefinedBehaviour.
Proof.
  apply (append_past_the_end [[one]] [[one]] 1 1 1 1).
  - lia.
  - reflexivity.
  - lia.
  - reflexivity.
  - reflexivity.
  - lia.
Defined.

Lemma additive_evaluation_at_slot_1 :
  exists plots',
    ComputeAdditiveMetric Z Z.add unit [[one; two]] [dzero; dzero] [] [] 1
      (calcer_0_10_5 1)
    = Ok (set_AdditiveMetricPlots Z unit plots' (calcer_0_10_5 1))
    /\ cell plots' 0 0 = Some 0
    /\ cell plots' 0 1 = Some 2.
Proof.
  destruct (additive_evaluation_merges_into_slot Z 0 Z.add unit [[one; two]]
              [dzero; dzero] [] [] 1 (calcer_0_10_5 1))
    as (plots' & Hrun & Hcells).
  { split; reflexivity. }
  { simpl. lia. }
  exists plots'. split; [exact Hrun|]. split.
  - etransitivity; [apply Hcells|]. reflexivity.
  - etransitivity; [apply Hcells|]. reflexivity.
Defined.

Lemma additive_evaluation_at_slot_3 :
  ComputeAdditiveMetric Z Z.add unit [[one; two]] [dzero; dzero] [] [] 3
    (calcer_0_10_5 1)
  = Fail UndefinedBehaviour.
Proof.
  apply (additive_slot_out_of_range Z Z.add unit [[one; two]] [dzero; dzero]
           [] [] 3 (calcer_0_10_5 1)).
  - split; reflexivity.
  - simpl. lia.
  - simpl. lia.
Defined.

Lemma non_additive_evaluation_at_slot_1 :
  exists plots',
    EvalNonAdditiveMetrics Z unit [[one; two]] [dzero; dzero] [] 1
      (calcer_0_10_5 1)
    = Ok (set_NonAdditiveMetricPlots Z unit plots' (calcer_0_10_5 1))
    /\ cell plots' 0 1 = Some 2
    /\ cell plots' 0 2 = Some 0.
Proof.
  destruct (non_additive_evaluation_overwrites Z 0 Z.add unit save_line
              load_line [[one; two]] [dzero; dzero] [] 1 (calcer_0_10_5 1))
    as (plots' & Hrun & Hat & Hother & _).
  { split; reflexivity. }
  { simpl. lia. }
  exists plots'. split; [exact Hrun|]. split.
  - etransitivity; [apply (Hat 0%nat (counting false PerObjectError));
                    reflexivity|].
    reflexivity.
  - etransitivity; [apply Hother; lia|]. reflexivity.
Defined.

(** ** Snapshots *)

Lemma snapshot_name_of_slot_0 :
  exists p c1,
    GetApproxFileName Z unit 0 (calcer_0_10_5 1) = Ok (p, c1)
    /\ GetApproxFileName Z unit 0 c1 = Ok (p, c1).
Proof.
  destruct (GetApproxFileName Z unit 0 (calcer_0_10_5 1)) as [[p c1]|e] eqn:E.
  - exists p, c1. split; [reflexivity|].
    exact (snapshot_name_is_stable Z unit 0 (calcer_0_10_5 1) p c1 eq_refl E).
  - vm_compute in E. discriminate E.
Defined.

Lemma no_snapshot_before_the_first_pass :
  LoadApprox Z unit 1 load_line 0 (calcer_0_10_5 1) = Fail ResourceError.
Proof.
  apply (unsaved_snapshot_cannot_be_loaded Z unit 1 load_line 0
           (calcer_0_10_5 1)).
  - reflexivity.
  - intros p. discriminate.
Defined.

Lemma deleted_snapshot_of_slot_0 :
  exists c1,
    DeleteApprox Z unit 0 calcer_with_two_targets = Ok c1
    /\ LoadApprox Z unit 1 load_line 0 c1 = Fail ResourceError
    /\ DeleteApprox Z unit 0 c1 = Ok c1.
Proof.
  apply (deleted_snapshot_is_gone Z unit 1 load_line 0
           calcer_with_two_targets).
  reflexivity.
Defined.

Lemma snapshot_of_two_chunks :
  exists c1 c2,
    SaveApproxToFile Z unit save_line 0 [[one]] calcer_with_two_targets = Ok c1
    /\ SaveApproxToFile Z unit save_line 0 [[two]] c1 = Ok c2
    /\ LoadApprox Z unit 1 load_line 0 c2 = Ok ([[one; two]], c2).
Proof.
  destruct (snapshots_of_chunks_concatenate Z 0 Z.add unit 1 save_line
              load_line 0 [[one]] [[two]] 1 1 calcer_with_two_targets)
    as (c1 & c2 & Hsave1 & Hsave2 & Hload).
  { exact save_line_lossless. }
  { reflexivity. }
  { lia. }
  { reflexivity. }
  { reflexivity. }
  { reflexivity. }
  { reflexivity. }
  { repeat constructor. }
  { repeat constructor. }
  { reflexivity. }
  { intros p. discriminate. }
  exists c1, c2. split; [exact Hsave1|]. split; [exact Hsave2|exact Hload].
Defined.

Lemma stream_of_two_chunks :
  Load load_line 1
    (serialized save_line [[one]] 1 ++ serialized save_line [[two]] 1 ++ [])
    [[dzero]]
  = Ok ([[one]], serialized save_line [[two]] 1 ++ [])
  /\ Load load_line 1 (serialized save_line [[two]] 1 ++ []) [[dzero]]
     = Ok ([[two]], []).
Proof.
  apply (stream_is_read_chunk_by_chunk Z 0 Z.add save_line load_line
           [[one]] [[two]] [[dzero]] [[dzero]] 1 1 1 []).
  - exact save_line_lossless.
  - reflexivity.
  - reflexivity.
  - reflexivity.
  - repeat constructor.
  - repeat constructor.
  - reflexivity.
  - reflexivity.
Defined.

(** ** What the operations keep, on a chunk of one document *)

Lemma additive_pass_over_one_document :
  exists c',
    result (ProceedDataSetForAdditiveMetrics Z Z.add unit nat 1 (unit_trees 1)
              save_line load_line (chunk_of [7]%nat []) (calcer_0_10_5 1))
    = Ok c'
    /\ NonAdditiveMetricPlots Z unit c' = [[0; 0; 0]]
    /\ ProcessedIterationsCount Z unit c' = 0.
Proof.
  destruct (result (ProceedDataSetForAdditiveMetrics Z Z.add unit nat 1
                      (unit_trees 1) save_line load_line (chunk_of [7]%nat [])
                      (calcer_0_10_5 1))) as [c'|e] eqn:E.
  - destruct (additive_pass_keeps_the_non_additive_side Z Z.add unit nat 1
                (unit_trees 1) save_line load_line (chunk_of [7]%nat [])
                (calcer_0_10_5 1) c' E) as (Hplots & _ & _ & Hcount & _).
    exists c'. split; [reflexivity|]. split; [exact Hplots|exact Hcount].
  - vm_compute in E. discriminate E.
Defined.

Lemma non_additive_pass_over_one_document :
  exists c',
    result (calc_ProceedDataSetForNonAdditiveMetrics (chunk_of [7]%nat [])
              (calcer_0_10_5 1)) = Ok c'
    /\ AdditiveMetricPlots Z unit c' = [[0; 0; 0]].
Proof.
  destruct (result (calc_ProceedDataSetForNonAdditiveMetrics
                      (chunk_of [7]%nat []) (calcer_0_10_5 1)))
    as [c'|e] eqn:E.
  - exists c'. split; [reflexivity|].
    apply (non_additive_operations_keep_the_additive_plots Z Z.add unit nat 1
             (unit_trees 1) save_line load_line (calcer_0_10_5 1)
             (OpProceedDataSetForNonAdditiveMetrics unit nat
                (chunk_of [7]%nat [])) c').
    + intros d. discriminate.
    + exact E.
  - vm_compute in E. discriminate E.
Defined.

Lemma buffer_after_two_operations :
  exists c',
    result (calc_perform_all
              [OpProceedDataSetForAdditiveMetrics unit nat (chunk_of [7]%nat []);
               OpProceedDataSetForNonAdditiveMetrics unit nat
                 (chunk_of [7]%nat [])]
              (calcer_0_10_5 1)) = Ok c'
    /\ Forall (fun row => row = []) (CurApproxBuffer Z unit c').
Proof.
  destruct (result (calc_perform_all
              [OpProceedDataSetForAdditiveMetrics unit nat (chunk_of [7]%nat []);
               OpProceedDataSetForNonAdditiveMetrics unit nat
                 (chunk_of [7]%nat [])]
              (calcer_0_10_5 1))) as [c'|e] eqn:E.
  - exists c'. split; [reflexivity|].
    exact (running_buffer_is_empty_between_operations Z 0 Z.add unit nat 1
             (unit_trees 1) save_line load_line 4 two_metrics true 0 10 5 1
             (calcer_0_10_5 1) _ c' (calcer_0_10_5_made 1) E).
  - vm_compute in E. discriminate E.
Defined.

(** The calcer of the same metrics and checkpoints, made when the scratch
    directory does not exist yet. *)
Definition calcer_without_directory : TMetricsPlotCalcer Z unit :=
  match calc_MakeCalcer 4 two_metrics false 0 10 5 1 with
  | Some (Ok c) => c
  | _ => calcer_0_10_5 1
  end.

(** The state after the chunk of one document has been fed for the
    non-additive metrics. *)
Definition after_first_pass (c : TMetricsPlotCalcer Z unit)
  : TMetricsPlotCalcer Z unit :=
  match result (calc_ProceedDataSetForNonAdditiveMetrics
                  (chunk_of [7]%nat []) c) with
  | Ok c' => c'
  | Fail _ => c
  end.

(** The first snapshot creates the directory, and the calcer marks it as its
    own. *)
Lemma directory_made_by_the_first_snapshot :
  DeleteTmpDirOnExitFlag Z unit calcer_without_directory = false
  /\ DeleteTmpDirOnExitFlag Z unit (after_first_pass calcer_without_directory)
     = true.
Proof.
  split; [reflexivity|].
  etransitivity.
  - refine (proj1 (directory_flag_marks_the_calcers_own_directory Z 0 Z.add
                     unit nat 1 (unit_trees 1) save_line load_line 4
                     two_metrics false 0 10 5 1 calcer_without_directory
                     [OpProceedDataSetForNonAdditiveMetrics unit nat
                        (chunk_of [7]%nat [])]
                     (after_first_pass calcer_without_directory) _ _)).
    + reflexivity.
    + vm_compute. reflexivity.
  - vm_compute. reflexivity.
Defined.

(** ** A chunk of two documents fed for the additive metrics *)

Lemma additive_cells_after_two_documents :
  exists c',
    result (ProceedDataSetForAdditiveMetrics Z Z.add unit nat 1 (unit_trees 1)
              save_line load_line (chunk_of [7; 8]%nat []) (calcer_0_10_5 1))
    = Ok c'
    /\ cell (AdditiveMetricPlots Z unit c') 0 0 = Some 2
    /\ cell (AdditiveMetricPlots Z unit c') 0 2 = Some 2.
Proof.
  destruct (additive_chunk_merges_into_every_cell Z 0 Z.add unit nat 1
              (unit_trees 1) save_line load_line 4 two_metrics true 0 10 5 1
              (calcer_0_10_5 1) [] (calcer_0_10_5 1)
              (chunk_of [7; 8]%nat []))
    as (c' & Hrun & _ & _ & Hcells).
  { reflexivity. }
  { reflexivity. }
  { lia. }
  { apply chunk_of_ok. reflexivity. }
  exists c'. split; [exact Hrun|]. split.
  - destruct (Hcells 0%nat 0%nat (counting true PerObjectError))
      as (holder & Hold & Hnew); [reflexivity|simpl; lia|].
    injection Hold as <-. exact Hnew.
  - destruct (Hcells 0%nat 2%nat (counting true PerObjectError))
      as (holder & Hold & Hnew); [reflexivity|simpl; lia|].
    injection Hold as <-. exact Hnew.
Defined.

(** ** The first window *)

Lemma targets_after_the_first_pass :
  Target (NonAdditiveMetricsData Z unit (after_first_pass (calcer_0_10_5 1)))
  = [dzero]
  /\ ProcessedIterationsCount Z unit (after_first_pass (calcer_0_10_5 1)) = 0.
Proof.
  destruct (targets_are_collected_in_the_first_window Z Z.add unit nat 1
              (unit_trees 1) save_line load_line (chunk_of [7]%nat [])
              (calcer_0_10_5 1) (after_first_pass (calcer_0_10_5 1)))
    as (Htarget & _ & Hcount).
  { vm_compute. reflexivity. }
  split; [exact Htarget|exact Hcount].
Defined.

Lemma counter_after_the_first_window :
  exists c',
    calc_Finish (after_first_pass (calcer_0_10_5 1)) = Ok c'
    /\ ProcessedIterationsCount Z unit c' = 1.
Proof.
  destruct (calc_Finish (after_first_pass (calcer_0_10_5 1)))
    as [c'|e] eqn:E.
  - exists c'. split; [reflexivity|].
    refine (proj1 (finished_window_moves_the_counter Z unit 1 load_line
                     (after_first_pass (calcer_0_10_5 1)) c' _ _ _ _ E)).
    + vm_compute. discriminate.
    + vm_compute. discriminate.
    + vm_compute. reflexivity.
    + vm_compute. reflexivity.
  - vm_compute in E. discriminate E.
Defined.

(** ** The factory and the checkpoint loop *)

Lemma factory_on_ten_trees :
  exists fuel c,
    CreateMetricCalcer Z 0 unit fuel 10 0 0 5 1 true two_metrics = Some (Ok c)
    /\ Iterations c = [0; 5; 9].
Proof.
  destruct (factory_plans_the_clamped_range Z 0 unit 10 0 0 5 1 true
              two_metrics)
    as (fuel & c & Hmade & Hits & _).
  { lia. }
  { split; [lia|reflexivity]. }
  { split; reflexivity. }
  { split; [lia|reflexivity]. }
  { reflexivity. }
  { reflexivity. }
  exists fuel, c. split; [exact Hmade|].
  etransitivity; [exact Hits|]. vm_compute. reflexivity.
Defined.

Lemma three_checkpoints_of_0_10_5 :
  Z.of_nat (length [0; 5; 9])
  = (10 - 1 - 0) / 5 + 1 + (if (10 - 1 - 0) mod 5 =? 0 then 0 else 1).
Proof.
  apply (checkpoint_count 0 10 5 4 [0; 5; 9]).
  - lia.
  - lia.
  - reflexivity.
  - lia.
  - reflexivity.
  - reflexivity.
Defined.

(** With first = 0, last = 2^32 - 1 and step = 2 the parameters are accepted
    and the counter takes the even values only: it never reaches last. *)
Lemma checkpoint_loop_of_even_values :
  EnsureCorrectParams 0 4294967295 2 = Ok tt
  /\ forall fuel, BuildIterations fuel 0 4294967295 2 = None.
Proof.
  split; [reflexivity|].
  apply (checkpoint_loop_need_not_end 0 4294967295 2).
  - split; [lia|reflexivity].
  - intros k. unfold wrap32. rewrite Z.add_0_l.
    change (2 ^ 32) with (2147483648 * 2).
    rewrite Z.mul_mod_distr_r by lia.
    pose proof (Z.mod_pos_bound (Z.of_nat k) 2147483648 ltac:(lia)). lia.
Defined.

(** ** Reporting the scores *)

Lemma metrics_of_the_concrete_calcer :
  AssembleMetrics Z unit (calcer_0_10_5 1) = Ok (map Some two_metrics).
Proof.
  apply (saved_metrics_are_the_supplied_ones Z 0 Z.add unit nat 1
           (unit_trees 1) save_line load_line 4 two_metrics true 0 10 5 1
           (calcer_0_10_5 1) [] (calcer_0_10_5 1)).
  - reflexivity.
  - reflexivity.
Defined.

(** The metrics described by their group. *)
Lemma saved_result_before_any_chunk :
  exists score,
    GetMetricsScore Z unit (calcer_0_10_5 1) = Ok score
    /\ SaveResult Z unit bool (IsAdditiveMetric Z unit) (calcer_0_10_5 1)
       = Ok (score_records Z unit bool (IsAdditiveMetric Z unit) two_metrics
               score 3).
Proof.
  apply (saved_result_lists_scores_by_checkpoint Z 0 Z.add unit nat 1
           (unit_trees 1) save_line load_line bool (IsAdditiveMetric Z unit) 4
           two_metrics true 0 10 5 1 (calcer_0_10_5 1) [] (calcer_0_10_5 1)).
  - reflexivity.
  - reflexivity.
  - discriminate.
  - reflexivity.
  - reflexivity.
Defined.

(** The calcer of the same checkpoints without any metric. *)
Definition calcer_without_metrics : TMetricsPlotCalcer Z unit :=
  match calc_MakeCalcer 4 [] true 0 10 5 1 with
  | Some (Ok c) => c
  | _ => calcer_0_10_5 1
  end.

Lemma saved_result_without_metrics :
  GetMetricsScore Z unit calcer_without_metrics = Ok []
  /\ SaveResult Z unit bool (IsAdditiveMetric Z unit) calcer_without_metrics
     = Fail UndefinedBehaviour.
Proof.
  apply (saved_result_needs_a_metric Z 0 Z.add unit nat 1 (unit_trees 1)
           save_line load_line bool (IsAdditiveMetric Z unit) 4 true 0 10 5 1
           calcer_without_metrics [] calcer_without_metrics).
  - reflexivity.
  - reflexivity.
Defined.

(** ** The non-additive metrics on the concrete ensemble *)

Lemma non_additive_scores_of_two_parts :
  exists c',
    result (ComputeNonAdditiveMetricsOnParts Z unit nat 1 (unit_trees 1)
              two_parts (calcer_0_10_5 1)) = Ok c'
    /\ applier_calls
         (trace (ComputeNonAdditiveMetricsOnParts Z unit nat 1 (unit_trees 1)
                   two_parts (calcer_0_10_5 1)))
       = [(0, 1); (0, 1); (1, 6); (1, 6); (6, 10); (6, 10)]
    /\ cell (NonAdditiveMetricPlots Z unit c') 0 0 = Some 3
    /\ cell (NonAdditiveMetricPlots Z unit c') 0 2 = Some 3.
Proof.
  destruct (multi_part_path_evaluates_the_whole_dataset Z 0 Z.add unit nat 1
              (unit_trees 1) save_line load_line 4 two_metrics true 0 10 5 1
              (calcer_0_10_5 1) [] (calcer_0_10_5 1)
              (chunk_of [1; 2]%nat []) [chunk_of [3]%nat []])
    as (c' & Hrun & Htrace & Hcells).
  { reflexivity. }
  { reflexivity. }
  { lia. }
  { repeat constructor; apply chunk_of_ok; reflexivity. }
  { repeat constructor. }
  { reflexivity. }
  { repeat constructor; (lia || reflexivity). }
  exists c'. split; [exact Hrun|]. split; [|split].
  - unfold two_parts. rewrite Htrace. vm_compute. reflexivity.
  - etransitivity;
      [apply (Hcells 0%nat (counting false PerObjectError) 0%nat);
       [reflexivity|simpl; lia]|].
    vm_compute. reflexivity.
  - etransitivity;
      [apply (Hcells 0%nat (counting false PerObjectError) 2%nat);
       [reflexivity|simpl; lia]|].
    vm_compute. reflexivity.
Defined.

Lemma first_window_of_one_checkpoint :
  exists c1 c2,
    result (calc_ProceedDataSetForNonAdditiveMetrics (chunk_of [7; 8]%nat [])
              (calcer_0_10_5 1)) = Ok c1
    /\ calc_Finish c1 = Ok c2
    /\ ProcessedIterationsCount Z unit c2 = 1
    /\ cell (NonAdditiveMetricPlots Z unit c2) 0 0 = Some 2.
Proof.
  destruct (first_window_scores_the_non_additive_metrics Z 0 Z.add unit nat 1
              (unit_trees 1) save_line load_line 4 two_metrics true 0 10 5 1
              (calcer_0_10_5 1) (chunk_of [7; 8]%nat []))
    as (c1 & c2 & Hpass & Hfinish & Hcount & Hcells).
  { reflexivity. }
  { exact save_line_lossless. }
  { lia. }
  { reflexivity. }
  { apply chunk_of_ok. reflexivity. }
  { reflexivity. }
  { split; reflexivity. }
  { reflexivity. }
  { intros k Hk. destruct k as [|k]; [|vm_compute in Hk; lia].
    vm_compute. repeat constructor. }
  exists c1, c2. split; [exact Hpass|]. split; [exact Hfinish|].
  split; [exact Hcount|].
  etransitivity;
    [apply (Hcells 0%nat (counting false PerObjectError) 0%nat);
     [reflexivity|vm_compute; lia]|].
  vm_compute. reflexivity.
Defined.

Lemma windowed_and_in_memory_scores_agree :
  exists c1 c2 c3,
    result (calc_ProceedDataSetForNonAdditiveMetrics (chunk_of [7; 8]%nat [])
              (calcer_0_10_5 3)) = Ok c1
    /\ calc_Finish c1 = Ok c2
    /\ result (ComputeNonAdditiveMetricsOnParts Z unit nat 1 (unit_trees 1)
                 [chunk_of [7; 8]%nat []] (calcer_0_10_5 3)) = Ok c3
    /\ GetMetricsScore Z unit c2 = GetMetricsScore Z unit c3.
Proof.
  destruct (the_two_non_additive_paths_agree Z 0 Z.add unit nat 1
              (unit_trees 1) save_line load_line 4 two_metrics true 0 10 5 3
              (calcer_0_10_5 3) (chunk_of [7; 8]%nat []))
    as (c1 & c2 & c3 & Hpass & Hfinish & Hparts & _ & Hscore).
  { reflexivity. }
  { exact save_line_lossless. }
  { lia. }
  { reflexivity. }
  { apply chunk_of_ok. reflexivity. }
  { reflexivity. }
  { reflexivity. }
  { repeat constructor; (lia || reflexivity). }
  { split; [vm_compute; discriminate|reflexivity]. }
  { intros k Hk.
    destruct k as [|[|[|k]]]; [..|vm_compute in Hk; lia];
      vm_compute; repeat constructor. }
  exists c1, c2, c3. split; [exact Hpass|]. split; [exact Hfinish|].
  split; [exact Hparts|exact Hscore].
Defined.
